(** * ragavi: calibration-table plotting script (src/ragavi/ragavi.py)

    A shallow embedding of the parts of [ragavi.py] that decide the
    behaviour of the table-kind classifier, the solution transforms, the
    antenna selection, the axis-range finalisation, the legend batching
    and the browser-side visibility callbacks.

    Conventions.
    - A Python 2 [str] is a Rocq [string] (a sequence of 8-bit characters).
    - A Python or numpy integer is a [Z]; list lengths and ranks are [nat].
    - A float64 is modelled by the real number it denotes ([R]); rounding
      is not modelled, except in [color_denormalize], where a product is
      cut to an integer and its rounding is a parameter.  A complex128 is
      a pair of reals.
    - Calls of [sys.exit], uncaught exceptions and the calls made to the
      table and plotting collaborators are recorded explicitly. *)

From Stdlib Require Import Bool Arith ZArith List Lia String Ascii.
From Stdlib Require Import Reals Lra DecimalString Permutation Sorted.
Import ListNotations.

Local Open Scope string_scope.

(* ================================================================= *)
(** ** Python strings *)

Module PyStr.

Definition is_digit (c : ascii) : bool :=
  (48 <=? nat_of_ascii c)%nat && (nat_of_ascii c <=? 57)%nat.

Definition is_lower (c : ascii) : bool :=
  (97 <=? nat_of_ascii c)%nat && (nat_of_ascii c <=? 122)%nat.

(** [str.upper] on one character: ASCII lower-case letters move down by
    32, everything else is kept. *)
Definition upper_char (c : ascii) : ascii :=
  if is_lower c then ascii_of_nat (nat_of_ascii c - 32) else c.

Fixpoint upper (s : string) : string :=
  match s with
  | EmptyString => EmptyString
  | String c tl => String (upper_char c) (upper tl)
  end.

Fixpoint all_digits (s : string) : bool :=
  match s with
  | EmptyString => true
  | String c tl => is_digit c && all_digits tl
  end.

Fixpoint starts_with (p s : string) : bool :=
  match p, s with
  | EmptyString, _ => true
  | String a p', String b s' => Ascii.eqb a b && starts_with p' s'
  | String _ _, EmptyString => false
  end.

(** [needle in hay] for two Python strings. *)
Fixpoint contains (needle hay : string) : bool :=
  starts_with needle hay ||
  match hay with
  | EmptyString => false
  | String _ tl => contains needle tl
  end.

Definition newline : ascii := ascii_of_nat 10.

Fixpoint has_char (c : ascii) (s : string) : bool :=
  match s with
  | EmptyString => false
  | String a tl => Ascii.eqb a c || has_char c tl
  end.

End PyStr.

(* ================================================================= *)
(** ** determine_table (lines 42-53) *)

Module Classifier.
Import PyStr.

(** The character class of the group [(G|K|B)] under [re.I]. *)
Definition is_kind_letter (c : ascii) : bool :=
  match c with
  | "G" | "g" | "K" | "k" | "B" | "b" => true
  | _ => false
  end%char.

(** Python's [$] without [re.MULTILINE]: the end of the string, or the
    position just before a newline that is the last character. *)
Definition at_dollar (s : string) : bool :=
  match s with
  | EmptyString => true
  | String c EmptyString => Ascii.eqb c newline
  | _ => false
  end.

(** [\d*$] from the current position: the star is greedy, and gives one
    digit back at a time when what follows does not match.  The result is
    the text matched by [\d*]. *)
Fixpoint digits_dollar (s : string) : option string :=
  match s with
  | EmptyString => Some EmptyString
  | String c tl =>
      if is_digit c then
        match digits_dollar tl with
        | Some ds => Some (String c ds)
        | None => if at_dollar s then Some EmptyString else None
        end
      else if at_dollar s then Some EmptyString else None
  end.

(** The whole pattern [\.(G|K|B)\d*$] anchored at the current position;
    the result is [group()], the matched text. *)
Definition match_here (s : string) : option string :=
  match s with
  | String "."%char (String k rest) =>
      if is_kind_letter k then
        match digits_dollar rest with
        | Some ds => Some (String "."%char (String k ds))
        | None => None
        end
      else None
  | _ => None
  end.

(** [pattern.search]: the first start position, from the left, at which
    the pattern matches. *)
Fixpoint re_search (s : string) : option string :=
  match match_here s with
  | Some m => Some m
  | None =>
      match s with
      | EmptyString => None
      | String _ tl => re_search tl
      end
  end.

(** What a Python expression of this script evaluates to where the code
    mixes strings and integers. *)
Inductive pyval : Type :=
  | PyStr (s : string)
  | PyInt (z : Z).

(** [found.group()] raises AttributeError when [found] is None, and the
    handler returns the integer -1. *)
Definition determine_table (table_name : string) : pyval :=
  match re_search table_name with
  | Some result => PyStr (upper result)
  | None => PyInt (-1)
  end.

(** The three calibration-table kinds. *)
Inductive kind : Type := KindG | KindB | KindK.

Definition kind_of_letter (c : ascii) : option kind :=
  match c with
  | "G" | "g" => Some KindG
  | "B" | "b" => Some KindB
  | "K" | "k" => Some KindK
  | _ => None
  end%char.

(** A name that is [pre], then [.<K><digits>], then [tail]. *)
Definition has_suffix_form (s pre : string) (k : ascii) (ds tail : string) : Prop :=
  s = pre ++ String "."%char (String k (ds ++ tail)) /\
  is_kind_letter k = true /\ all_digits ds = true.

(** Nothing, or one newline. *)
Definition dollar_tail (tail : string) : Prop :=
  tail = EmptyString \/ tail = String newline EmptyString.

End Classifier.

(* ================================================================= *)
(** ** Exceptions *)

(** The exceptions this script can raise and never catches. *)
Inductive pyexn : Type :=
  | IndexError
  | TypeError
  | ValueError
  | UnboundLocalError.

Inductive pyres (A : Type) : Type :=
  | Ok (a : A)
  | Raise (e : pyexn).

Arguments Ok {A} a.
Arguments Raise {A} e.

Definition bind {A B : Type} (m : pyres A) (k : A -> pyres B) : pyres B :=
  match m with
  | Ok a => k a
  | Raise e => Raise e
  end.

Notation "x <- m ;; k" := (bind m (fun x => k))
  (at level 61, m at next level, right associativity).

(* ================================================================= *)
(** ** The numpy operations used by the transforms *)

Module Numpy.
Local Open Scope R_scope.

Definition complex : Type := R * R.

(** A three-dimensional [numpy.ma] array: its shape, the underlying data
    and the mask ([true] = flagged). *)
Record masked3 (T : Type) : Type := mkMasked3 {
  dim0 : nat;
  dim1 : nat;
  dim2 : nat;
  data3 : nat -> nat -> nat -> T;
  mask3 : nat -> nat -> nat -> bool
}.

Arguments mkMasked3 {T}.
Arguments dim0 {T}.
Arguments dim1 {T}.
Arguments dim2 {T}.
Arguments data3 {T}.
Arguments mask3 {T}.

(** A one-dimensional masked array. *)
Record masked1 (T : Type) : Type := mkMasked1 {
  data1 : list T;
  mask1 : list bool
}.

Arguments mkMasked1 {T}.
Arguments data1 {T}.
Arguments mask1 {T}.

(** What a transform hands back for one series: a plain ndarray, a masked
    one-dimensional array, or a whole three-dimensional masked array. *)
Inductive series (T : Type) : Type :=
  | Plain (v : list T)
  | Masked (m : masked1 T)
  | Whole (a : masked3 T).

Arguments Plain {T}.
Arguments Masked {T}.
Arguments Whole {T}.

(** An element-wise ufunc on a masked array keeps shape and mask. *)
Definition ufunc {A B : Type} (f : A -> B) (a : masked3 A) : masked3 B :=
  mkMasked3 (dim0 a) (dim1 a) (dim2 a)
            (fun i j k => f (data3 a i j k)) (mask3 a).

(** An integer index into an axis of length [n]: negative indices count
    from the end, anything outside [-n, n) is an IndexError. *)
Definition norm_index (i : Z) (n : nat) : pyres nat :=
  if ((0 <=? i) && (i <? Z.of_nat n))%Z then Ok (Z.to_nat i)
  else if ((- Z.of_nat n <=? i) && (i <? 0))%Z then Ok (Z.to_nat (i + Z.of_nat n))
  else Raise IndexError.

(** [a[:, ch, corr]]. *)
Definition index_col {T : Type} (a : masked3 T) (ch corr : Z) : pyres (masked1 T) :=
  j <- norm_index ch (dim1 a) ;;
  k <- norm_index corr (dim2 a) ;;
  Ok (mkMasked1 (map (fun i => data3 a i j k) (seq 0 (dim0 a)))
                (map (fun i => mask3 a i j k) (seq 0 (dim0 a)))).

(** Channel 0 exists and [corr] is an index of the correlation axis. *)
Definition in_bounds {T : Type} (a : masked3 T) (corr : Z) : bool :=
  (1 <=? dim1 a)%nat &&
  ((- Z.of_nat (dim2 a) <=? corr)%Z && (corr <? Z.of_nat (dim2 a))%Z).

(** The position an index inside [-n, n) stands for. *)
Definition position (corr : Z) (n : nat) : nat :=
  Z.to_nat (corr mod Z.of_nat n).

(** The values, and the flags, of all samples at channel 0 and correlation
    [c], in sample order. *)
Definition values_at {T : Type} (a : masked3 T) (c : nat) : list T :=
  map (fun i => data3 a i 0%nat c) (seq 0 (dim0 a)).

Definition flags_at {T : Type} (a : masked3 T) (c : nat) : list bool :=
  map (fun i => mask3 a i 0%nat c) (seq 0 (dim0 a)).

(** [np.asarray] / [np.array] of a masked array: the data, mask dropped. *)
Definition asarray {T : Type} (m : masked1 T) : list T := data1 m.

(** [np.abs] of a complex number. *)
Definition cabs (z : complex) : R := sqrt (fst z * fst z + snd z * snd z).

Definition creal (z : complex) : R := fst z.
Definition cimag (z : complex) : R := snd z.

(** [arctan2 y x]. *)
Definition arctan2 (y x : R) : R :=
  if Rlt_dec 0 x then atan (y / x)
  else if Rlt_dec x 0 then
    (if Rle_dec 0 y then atan (y / x) + PI else atan (y / x) - PI)
  else if Rlt_dec 0 y then PI / 2
  else if Rlt_dec y 0 then - (PI / 2)
  else 0.

(** [np.angle]: [arctan2 (imag z) (real z)]. *)
Definition angle (z : complex) : R := arctan2 (cimag z) (creal z).

(** [np.mod x y] for floats: [x - floor (x / y) * y]. *)
Definition fmod (x y : R) : R := x - IZR (Int_part (x / y)) * y.

(** [np.diff]. *)
Fixpoint diff (p : list R) : list R :=
  match p with
  | a :: ((b :: _) as tl) => (b - a) :: diff tl
  | _ => []
  end.

Fixpoint cumsum_from (acc : R) (l : list R) : list R :=
  match l with
  | [] => []
  | d :: tl => (acc + d) :: cumsum_from (acc + d) tl
  end.

Definition cumsum (l : list R) : list R := cumsum_from 0 l.

Fixpoint zip_add (a b : list R) : list R :=
  match a, b with
  | x :: a', y :: b' => (x + y) :: zip_add a' b'
  | _, _ => []
  end.

(** The correction [np.unwrap] computes for one difference [dd], with the
    default [discont = pi]. *)
Definition ph_correct (dd : R) : R :=
  let ddmod := fmod (dd + PI) (2 * PI) - PI in
  let ddmod := if Req_dec_T ddmod (- PI) then (if Rlt_dec 0 dd then PI else ddmod)
               else ddmod in
  if Rlt_dec (Rabs dd) PI then 0 else ddmod - dd.

(** [np.unwrap p]: [up[0] = p[0]], [up[1:] = p[1:] + cumsum ph_correct]. *)
Definition unwrap (p : list R) : list R :=
  match p with
  | [] => []
  | a :: tl => a :: zip_add tl (cumsum (map ph_correct (diff p)))
  end.

Definition rad2deg (x : R) : R := x * (180 / PI).

End Numpy.

(* ================================================================= *)
(** ** data_prep_G (lines 160-195) and data_prep_K (lines 235-260) *)

Module Transform.
Import Numpy.

(** The four values a transform returns; [None] is Python's None. *)
Definition prepared (T : Type) : Type :=
  (series T * series T * series T * option (series T))%type.

Definition data_prep_G (masked_data masked_data_err : masked3 complex)
    (doplot : string) (corr : Z) : pyres (prepared R) :=
  if String.eqb doplot "ap" then
    y1 <- index_col (ufunc cabs masked_data) 0 corr ;;
    y1_err <- index_col (ufunc cabs masked_data_err) 0 corr ;;
    y2 <- index_col (ufunc angle masked_data) 0 corr ;;
    let y2 := unwrap (asarray y2) in
    let y2 := map rad2deg y2 in
    Ok (Masked y1, Masked y1_err, Plain y2, None)
  else
    y1 <- index_col (ufunc creal masked_data) 0 corr ;;
    y1_err <- index_col (ufunc cabs masked_data_err) 0 corr ;;
    y2 <- index_col (ufunc cimag masked_data) 0 corr ;;
    Ok (Masked y1, Masked y1_err, Masked y2, None).

(** [int(not corr)]. *)
Definition int_not (corr : Z) : Z := if (corr =? 0)%Z then 1%Z else 0%Z.

Definition data_prep_K {T : Type} (masked_data masked_data_err : masked3 T)
    (corr : Z) : pyres (prepared T) :=
  y1 <- index_col masked_data 0 corr ;;
  let y1 := asarray y1 in
  let y1_err := masked_data_err in
  y2 <- index_col masked_data 0 (int_not corr) ;;
  let y2 := asarray y2 in
  let y2_err := masked_data_err in
  Ok (Plain y1, Whole y1_err, Plain y2, Some (Whole y2_err)).

(** Two unflagged samples, 1+1j and 2+0j, one channel, one correlation. *)
Definition two_samples : masked3 complex :=
  mkMasked3 2 1 1
    (fun i _ _ => match i with O => (1, 1) | _ => (2, 0) end)%R
    (fun _ _ _ => false).

End Transform.

(* ================================================================= *)
(** ** Runs of the script: printed lines, collaborator calls, endings *)

Module Run.

(** What a run does that can be seen from outside, in order. *)
Inductive event : Type :=
  | EPrint (line : string)            (* a [print] statement *)
  | EOutputFile (name : string)       (* [output_file]: names the html, writes nothing *)
  | EOpenTable (name : string)        (* [table(...)] *)
  | EGetcol (col : string)            (* [tt.getcol] on the whole table *)
  | EQuery (ant field : Z)            (* [tt.query] for one antenna and field *)
  | ESubGetcol (col : string)         (* [subtab.getcol] on a query result *)
  | EExportSvgs (name : string).      (* [export_svgs]: writes an image file *)

(** How a run stops before it reaches the plotting code. *)
Inductive ending : Type :=
  | Exited (arg : option Z)           (* [sys.exit()] is [Exited None] *)
  | Uncaught (e : pyexn).

(** The process exit status of [sys.exit(arg)]: no argument is success,
    an integer is taken modulo 256. *)
Definition exit_status (arg : option Z) : Z :=
  match arg with
  | None => 0
  | Some n => n mod 256
  end%Z.

(** A piece of the script: it extends the trace and either goes on with a
    value or stops the run. *)
Definition prog (A : Type) : Type :=
  list event -> list event * (A + ending).

Definition ret {A : Type} (a : A) : prog A := fun tr => (tr, inl a).

Definition seq_prog {A B : Type} (m : prog A) (k : A -> prog B) : prog B :=
  fun tr =>
    match m tr with
    | (tr', inl a) => k a tr'
    | (tr', inr e) => (tr', inr e)
    end.

Definition emit (e : event) : prog unit := fun tr => ((tr ++ [e])%list, inl tt).

Definition stop {A : Type} (e : ending) : prog A := fun tr => (tr, inr e).

Definition sys_exit {A : Type} (arg : option Z) : prog A := stop (Exited arg).

Definition lift {A : Type} (r : pyres A) : prog A :=
  match r with
  | Ok a => ret a
  | Raise e => stop (Uncaught e)
  end.

End Run.

Notation "x <~ m ; k" := (Run.seq_prog m (fun x => k))
  (at level 61, m at next level, right associativity).
Notation "m ;; k" := (Run.seq_prog m (fun _ => k))
  (at level 61, right associativity).

(* ================================================================= *)
(** ** Antenna selection (lines 367-381) *)

Module Selection.
Import PyStr Run.

Definition is_space (c : ascii) : bool :=
  match nat_of_ascii c with
  | 9 | 10 | 11 | 12 | 13 | 32 => true
  | _ => false
  end%nat.

Fixpoint lstrip (s : string) : string :=
  match s with
  | EmptyString => EmptyString
  | String c tl => if is_space c then lstrip tl else s
  end.

Fixpoint rstrip (s : string) : string :=
  match s with
  | EmptyString => EmptyString
  | String c tl =>
      match rstrip tl with
      | EmptyString => if is_space c then EmptyString else String c EmptyString
      | r => String c r
      end
  end.

Definition digit_val (c : ascii) : Z := Z.of_nat (nat_of_ascii c - 48).

Fixpoint digits_value (acc : Z) (s : string) : Z :=
  match s with
  | EmptyString => acc
  | String c tl => digits_value (10 * acc + digit_val c)%Z tl
  end.

Definition parse_unsigned (s : string) : pyres Z :=
  match s with
  | EmptyString => Raise ValueError
  | _ => if all_digits s then Ok (digits_value 0 s) else Raise ValueError
  end.

(** [int(s)] for a string: surrounding white space, an optional sign and
    decimal digits; anything else is a ValueError. *)
Definition py_int (s : string) : pyres Z :=
  match rstrip (lstrip s) with
  | String "+"%char r => parse_unsigned r
  | String "-"%char r => v <- parse_unsigned r ;; Ok (- v)%Z
  | r => parse_unsigned r
  end.

(** [s.split(',')]. *)
Fixpoint split_comma (s : string) : list string :=
  match s with
  | EmptyString => [EmptyString]
  | String c tl =>
      if Ascii.eqb c ","%char then EmptyString :: split_comma tl
      else match split_comma tl with
           | h :: t => String c h :: t
           | [] => [String c EmptyString]
           end
  end.

(** [l.remove(x)]: drops the first element equal to [x]. *)
Fixpoint remove_first (x : string) (l : list string) : list string :=
  match l with
  | [] => []
  | y :: tl => if String.eqb x y then tl else y :: remove_first x tl
  end.

Definition mem (z : Z) (l : list Z) : bool := existsb (Z.eqb z) l.

(** The loop [for ant in plotants: ...] of lines 371-374.  A Python list
    iterator is an index into the live list: each turn reads
    [plotants[i]], and stops when [i] is no longer inside the list, which
    the body may have shortened meanwhile.  [turns] bounds the number of
    turns; the length of the list at entry is always enough. *)
Fixpoint filter_loop (turns : nat) (ants : list Z) (plotants : list string)
    (i : nat) : prog (list string) :=
  match turns with
  | O => ret plotants
  | S turns' =>
      match nth_error plotants i with
      | None => ret plotants
      | Some ant =>
          v <~ lift (py_int ant) ;
          if mem v ants then filter_loop turns' ants plotants (S i)
          else
            let plotants' := remove_first ant plotants in
            emit (EPrint ("Requested antenna ID " ++ ant ++ " not found")) ;;
            filter_loop turns' ants plotants' (S i)
      end
  end.

(** [np.array(plotants, dtype=int)].  The integers are unbounded here:
    the OverflowError of an entry outside the 64-bit range is left out. *)
Fixpoint to_int_array (l : list string) : pyres (list Z) :=
  match l with
  | [] => Ok []
  | s :: tl => v <- py_int s ;; vs <- to_int_array tl ;; Ok (v :: vs)
  end.

(** Lines 367-381.  [plotants] is the [-a] option: [None] stands for the
    default [[-1]], [Some s] for a string given by the user. *)
Definition select_antennas (ants : list Z) (plotants : option string)
    : prog (list Z) :=
  match plotants with
  | None => ret ants
  | Some EmptyString => lift (Raise IndexError)       (* plotants[0] *)
  | Some s =>
      let l := split_comma s in
      l' <~ filter_loop (List.length l) ants l 0 ;
      if (List.length l' =? 0)%nat then
        emit (EPrint "No valid antennas have been requested") ;;
        sys_exit (Some (-1)%Z)
      else lift (to_int_array l')
  end.

End Selection.

(* ================================================================= *)
(** ** main, from its start to the first antenna's dispatch (lines 305-541) *)

Module Main.
Import PyStr Classifier Run Selection.

(** The options after the conversions of lines 310-322.  [plotants] is
    [None] when [-a] was not given; the axis bounds are not read before
    the plotting loop and are left to [Ranges]. *)
Record options : Type := mkOptions {
  field : Z;
  doplot : string;
  plotants : option string;
  corr : Z;
  myms : string;
  pngname : string
}.

(** One row of the calibration table, as far as this part reads it. *)
Record row : Type := mkRow {
  TIME : R;
  ANTENNA1 : Z;
  FIELD_ID : Z
}.

Definition table : Type := list row.

(** [s.rstrip("/")]. *)
Fixpoint rstrip_slash (s : string) : string :=
  match s with
  | EmptyString => EmptyString
  | String c tl =>
      match rstrip_slash tl with
      | EmptyString => if Ascii.eqb c "/"%char then EmptyString else String c EmptyString
      | r => String c r
      end
  end.

Definition str (z : Z) : string := NilZero.string_of_int (Z.to_int z).

Fixpoint insert_unique (z : Z) (l : list Z) : list Z :=
  match l with
  | [] => [z]
  | y :: tl =>
      if (z <? y)%Z then z :: l
      else if (z =? y)%Z then l
      else y :: insert_unique z tl
  end.

(** [np.unique]: the distinct values in ascending order. *)
Definition unique (l : list Z) : list Z := fold_right insert_unique [] l.

(** [tt.query('ANTENNA1==ant&&FIELD_ID==field')]. *)
Definition query (tt : table) (ant fld : Z) : table :=
  filter (fun r => (ANTENNA1 r =? ant)%Z && (FIELD_ID r =? fld)%Z) tt.

(** [needle in v]: a substring test on a string, a TypeError on an
    integer ("argument of type 'int' is not iterable"). *)
Definition py_in (needle : string) (v : pyval) : pyres bool :=
  match v with
  | PyStr s => Ok (contains needle s)
  | PyInt _ => Raise TypeError
  end.

(** [v == z] for an integer literal [z]. *)
Definition py_eq_int (v : pyval) (z : Z) : bool :=
  match v with
  | PyInt n => (n =? z)%Z
  | PyStr _ => false
  end.

(** Which arm of the if/elif chains at lines 454-541 runs. *)
Inductive branch : Type :=
  | Prep (k : kind)      (* columns are read and data_prep_<k> is called *)
  | NoComplex            (* lines 530-532 *)
  | InvalidTable         (* lines 494-496 and 534-536 *)
  | NoBranch.            (* no arm runs *)

Definition kind_chain (mytab : string) (on_K : branch) : pyres branch :=
  g <- py_in ".G" (determine_table mytab) ;;
  if g then Ok (Prep KindG)
  else
    b <- py_in ".B" (determine_table mytab) ;;
    if b then Ok (Prep KindB)
    else
      k <- py_in ".K" (determine_table mytab) ;;
      if k then Ok on_K
      else if py_eq_int (determine_table mytab) (-1) then Ok InvalidTable
      else Ok NoBranch.

Definition dispatch (doplot mytab : string) : pyres branch :=
  if String.eqb doplot "ap" then kind_chain mytab (Prep KindK)
  else if String.eqb doplot "ri" then kind_chain mytab NoComplex
  else Ok NoBranch.

(** The columns an arm reads before it calls its data preparation:
    CPARAM for a gain table (line 456), and TIME once more in mode [ri]
    (lines 505-506); CPARAM for a bandpass table (lines 472 and 518);
    ANTENNA1 and FPARAM for a delay table (lines 484-485). *)
Definition prep_reads (doplot : string) (k : kind) : list event :=
  match k with
  | KindG =>
      if String.eqb doplot "ap" then [ESubGetcol "CPARAM"]
      else [ESubGetcol "CPARAM"; ESubGetcol "TIME"]
  | KindB => [ESubGetcol "CPARAM"]
  | KindK => [ESubGetcol "ANTENNA1"; ESubGetcol "FPARAM"]
  end.

Fixpoint emit_all (es : list event) : prog unit :=
  match es with
  | [] => ret tt
  | e :: tl => emit e ;; emit_all tl
  end.

(** Lines 421-541 for the first antenna of the loop.  A result [inl k]
    means that control has reached the call of the data preparation for
    kind [k], with the columns of its arm read; the plotting that follows
    is not part of this definition. *)
Definition first_antenna (o : options) (mytab : string) (tab : table)
    (ant : Z) : prog kind :=
  emit (EQuery ant (field o)) ;;
  emit (ESubGetcol "TIME") ;;
  match query tab ant (field o) with
  | [] => lift (Raise IndexError)                     (* times[0] *)
  | _ :: _ =>
      emit (ESubGetcol "FLAG") ;;
      emit (ESubGetcol "PARAMERR") ;;
      b <~ lift (dispatch (doplot o) mytab) ;
      match b with
      | Prep k => emit_all (prep_reads (doplot o) k) ;; ret k
      | NoComplex =>
          emit (EPrint "No complex values to plot") ;;
          sys_exit None
      | InvalidTable =>
          emit (EPrint "Invalid table") ;;
          sys_exit (Some (-1)%Z)
      | NoBranch => lift (Raise UnboundLocalError)    (* source *)
      end
  end.

(** Lines 305-541: [args] are the positional arguments, [tab] the content
    of the table they name (the table exists and opens).  [inl None] means
    that the antenna loop has nothing to iterate over. *)
Definition main_prefix (o : options) (args : list string) (tab : table)
    : prog (option kind) :=
  match args with
  | [arg] =>
      let mytab := rstrip_slash arg in
      (if String.eqb (pngname o) "" then
         emit (EOutputFile ("plot_" ++ mytab ++ "_corr" ++ str (corr o) ++ "_"
                            ++ doplot o ++ "_field" ++ str (field o) ++ ".html"))
       else ret tt) ;;
      if negb (String.eqb (doplot o) "ap" || String.eqb (doplot o) "ri") then
        emit (EPrint "Plot selection must be either ap (amp and phase) or ri (real and imag)") ;;
        sys_exit (Some (-1)%Z)
      else
        emit (EOpenTable mytab) ;;
        emit (EGetcol "ANTENNA1") ;;
        let ants := unique (map ANTENNA1 tab) in
        emit (EGetcol "FIELD_ID") ;;
        let fields := unique (map FIELD_ID tab) in
        emit (EGetcol "FLAG") ;;
        if negb (mem (field o) fields) then
          emit (EPrint ("Field ID " ++ str (field o) ++ " not found")) ;;
          sys_exit (Some (-1)%Z)
        else
          sel <~ select_antennas ants (plotants o) ;
          (if String.eqb (myms o) "" then ret tt
           else emit (EOpenTable (rstrip_slash (myms o) ++ "/ANTENNA")) ;;
                emit (EGetcol "NAME")) ;;
          match sel with
          | [] => ret None
          | ant :: _ => k <~ first_antenna o mytab tab ant ; ret (Some k)
          end
  | _ =>
      emit (EPrint "Please specify a gain table to plot.") ;;
      sys_exit (Some (-1)%Z)
  end.

Definition run_main (o : options) (args : list string) (tab : table)
    : list event * (option kind + ending) :=
  main_prefix o args tab [].

Definition is_query (e : event) : bool :=
  match e with
  | EQuery _ _ => true
  | _ => false
  end.

Definition is_artifact (e : event) : bool :=
  match e with
  | EExportSvgs _ => true
  | _ => false
  end.

(** A stretch of a run in which no table query is issued and no artifact
    is written. *)
Definition quiet (tr : list event) : bool :=
  negb (existsb is_query tr) && negb (existsb is_artifact tr).

(** The argument, field and antenna checks pass and the first selected
    antenna has rows for the field. *)
Definition checks_pass (o : options) (tab : table) : Prop :=
  mem (field o) (unique (map FIELD_ID tab)) = true /\
  exists ant rest,
    snd (select_antennas (unique (map ANTENNA1 tab)) (plotants o) [])
    = inl (ant :: rest) /\
    query tab ant (field o) <> [].

(** The events of lines 336-354 when the mode is accepted, and of lines
    383-386. *)
Definition opening (o : options) (mytab : string) : list event :=
  ((if String.eqb (pngname o) "" then
      [EOutputFile ("plot_" ++ mytab ++ "_corr" ++ str (corr o) ++ "_"
                    ++ doplot o ++ "_field" ++ str (field o) ++ ".html")]
    else []) ++
   [EOpenTable mytab; EGetcol "ANTENNA1"; EGetcol "FIELD_ID"; EGetcol "FLAG"])%list.

Definition antenna_names (o : options) : list event :=
  if String.eqb (myms o) "" then []
  else [EOpenTable (rstrip_slash (myms o) ++ "/ANTENNA"); EGetcol "NAME"].

(** The events of the first antenna's turn up to the abort of lines
    530-532. *)
Definition no_complex_turn (ant fld : Z) : list event :=
  [EQuery ant fld; ESubGetcol "TIME"; ESubGetcol "FLAG";
   ESubGetcol "PARAMERR"; EPrint "No complex values to plot"].

End Main.

(* ================================================================= *)
(** ** Glyph creation in the antenna loop (lines 122-157 and 543-553) *)

Module Plot.

(** A bokeh renderer, as far as the script touches it. *)
Record glyph : Type := mkGlyph { visible : bool }.

(** [ax.circle(...)]: no [visible] argument is passed, the renderer is
    created visible. *)
Definition circle : glyph := mkGlyph true.

(** [errorbar] with [xerr=None]: a hidden multi_line when [yerr] is given,
    None otherwise. *)
Definition errorbar {E : Type} (yerr : option E) : option glyph :=
  match yerr with
  | Some _ => Some (mkGlyph false)
  | None => None
  end.

Definition make_plots {E : Type} (y1_err y2_err : option E)
    : glyph * option glyph * glyph * option glyph :=
  (circle, errorbar y1_err, circle, errorbar y2_err).

(** What one turn of the antenna loop appends to the four legend lists. *)
Record entry : Type := mkEntry {
  ant_id : Z;
  p1 : glyph;
  p1_err : option glyph;
  p2 : glyph;
  p2_err : option glyph
}.

(** Lines 498/538 and 543-553: [make_plots] is called with [y1_err] only,
    then [if ant>0: p1.visible = p2.visible = False]. *)
Definition plot_antenna {E : Type} (ant : Z) (y1_err : E) : entry :=
  let '(p1, p1_err, p2, p2_err) := make_plots (Some y1_err) None in
  let '(p1, p2) :=
    if (ant >? 0)%Z then (mkGlyph false, mkGlyph false) else (p1, p2) in
  mkEntry ant p1 p1_err p2 p2_err.

(** The loop over [plotants]; every data preparation returns an error
    series for the upper panel, here [y1_err ant]. *)
Definition render {E : Type} (y1_err : Z -> E) (plotants : list Z) : list entry :=
  map (fun ant => plot_antenna ant (y1_err ant)) plotants.

End Plot.

(* ================================================================= *)
(** ** Axis ranges (lines 578-606) *)

Module Ranges.
Local Open Scope R_scope.

(** The six running extents after the antenna loop. *)
Record extents : Type := mkExtents {
  xmin : R; xmax : R;
  yumin : R; yumax : R;
  ylmin : R; ylmax : R
}.

(** The six range options on the command line: [None] when the caller
    did not give the option, [Some v] when the caller gave the number [v]. *)
Record range_options : Type := mkRangeOptions {
  opt_t0 : option R; opt_t1 : option R;
  opt_yu0 : option R; opt_yu1 : option R;
  opt_yl0 : option R; opt_yl1 : option R
}.

(** The six values [main] works with (lines 314-319). *)
Record bounds : Type := mkBounds {
  t0 : R; t1 : R;
  yu0 : R; yu1 : R;
  yl0 : R; yl1 : R
}.

(** [float(options.x)]: the parser's [default=-1] when the option is not
    given (lines 277-292). *)
Definition parsed (x : option R) : R :=
  match x with
  | Some v => v
  | None => -1
  end.

Definition bounds_of (r : range_options) : bounds :=
  mkBounds (parsed (opt_t0 r)) (parsed (opt_t1 r))
           (parsed (opt_yu0 r)) (parsed (opt_yu1 r))
           (parsed (opt_yl0 r)) (parsed (opt_yl1 r)).

Definition pad_min (m : R) : R :=
  if Rlt_dec m 0 then -1 * (1.1 * Rabs m) else m * 0.9.

Definition pad_max (m : R) : R := m * 1.1.

(** [if given != -1: computed = given]. *)
Definition override (given computed : R) : R :=
  if Req_dec_T given (-1) then computed else given.

Definition finalize (e : extents) (b : bounds) : extents :=
  let xmin' := xmin e - 400 in
  let xmax' := xmax e + 400 in
  let yumin' := pad_min (yumin e) in
  let yumax' := pad_max (yumax e) in
  let ylmin' := pad_min (ylmin e) in
  let ylmax' := pad_max (ylmax e) in
  mkExtents (override (t0 b) xmin') (override (t1 b) xmax')
            (override (yu0 b) yumin') (override (yu1 b) yumax')
            (override (yl0 b) ylmin') (override (yl1 b) ylmax').

(** The finalised ranges for a command line. *)
Definition axis_ranges (e : extents) (r : range_options) : extents :=
  finalize e (bounds_of r).

(** The caller gave the bound [v], and [v] is not -1. *)
Definition supplied (x : option R) (v : R) : Prop := x = Some v /\ v <> -1.

(** The caller gave no bound, or gave -1. *)
Definition left_open (x : option R) : Prop := x = None \/ x = Some (-1).

End Ranges.

(* ================================================================= *)
(** ** Legend batches (lines 621-648) *)

Module Legend.

Definition BATCH_SIZE : nat := 16.

(** [int(np.ceil(len(plotants) / float(BATCH_SIZE)))]: the integer
    ceiling of the quotient (a quotient of list lengths by 16 is exact in
    float64). *)
Definition num_legend_objs (nplot : nat) : nat :=
  if (nplot mod BATCH_SIZE =? 0)%nat then nplot / BATCH_SIZE
  else S (nplot / BATCH_SIZE).

(** [l[i:j]] and [l[i:]]: a slice stops at the end of the list. *)
Definition slice {A : Type} (l : list A) (i j : nat) : list A :=
  firstn (j - i) (skipn i l).

Definition slice_from {A : Type} (l : list A) (i : nat) : list A := skipn i l.

(** One turn of the loop at lines 635-648; the state is the list of
    batches and [j]. *)
Definition batch_step {A : Type} (items : list A) (num : nat)
    (st : list (list A) * nat) (i : nat) : list (list A) * nat :=
  let '(batches, j) := st in
  ((if (i =? num)%nat then batches ++ [slice_from items j]
    else batches ++ [slice items j (j + BATCH_SIZE)])%list,
   j + BATCH_SIZE).

Definition make_batches {A : Type} (nplot : nat) (items : list A)
    : list (list A) :=
  let num := num_legend_objs nplot in
  fst (fold_left (batch_step items num) (seq 0 num) ([], 0)).

End Legend.

(* ================================================================= *)
(** ** The select-all toggle and the batch checkboxes (lines 685-840) *)

Module Widgets.
Import Plot Legend.

(** The objects the two callbacks share.  [store] holds, per antenna rank,
    the data glyphs [p1] and [p2]: [legend_items_ax1[i][1][0]] is the first
    component at rank [i], [legend_items_ax2[i][1][0]] the second, and the
    batches handed to the checkbox callback are slices of these same lists,
    so they name the same glyphs.  [batchsel_active] is the [active]
    property of the checkbox group: the indices of the ticked boxes. *)
Record ui : Type := mkUi {
  store : list (glyph * glyph);
  antsel_active : bool;
  antsel_label : string;
  batchsel_active : list nat
}.

(** Lines 685 and 700, over the glyphs the antenna loop has made. *)
Definition initial (entries : list entry) : ui :=
  mkUi (map (fun e => (p1 e, p2 e)) entries) false "Select All Antennas" [].

(** The number of check boxes: one label per legend object (lines 692-700). *)
Definition nboxes (u : ui) : nat := num_legend_objs (List.length (store u)).

(** [bax1] and [bax2] by rank: batch [k], position [i] is the rank of the
    antenna whose glyph sits there. *)
Definition bax (u : ui) : list (list nat) :=
  make_batches (List.length (store u)) (seq 0 (List.length (store u))).

Fixpoint update {A : Type} (l : list A) (i : nat) (f : A -> A) : list A :=
  match l, i with
  | [], _ => []
  | x :: tl, O => f x :: tl
  | x :: tl, S i' => x :: update tl i' f
  end.

Definition set_p1 (v : bool) (g : glyph * glyph) : glyph * glyph :=
  (mkGlyph v, snd g).

Definition set_p2 (v : bool) (g : glyph * glyph) : glyph * glyph :=
  (fst g, mkGlyph v).

Definition mem (i : nat) (l : list nat) : bool := existsb (Nat.eqb i) l.

(** [for(i=0; i<glyph1.length; i++){ glyph1[i][1][0].visible = v;
    glyph2[i][1][0].visible = v; }] *)
Definition set_all (v : bool) (st : list (glyph * glyph)) : list (glyph * glyph) :=
  fold_left (fun st i => update (update st i (set_p1 v)) i (set_p2 v))
            (seq 0 (List.length st)) st.

(** [ant_select.callback] (lines 706-733); [this.active] has its new
    value when the callback runs. *)
Definition ant_select_callback (u : ui) : ui :=
  if negb (antsel_active u) then
    mkUi (set_all false (store u)) (antsel_active u) "Select all Antennas" []
  else
    mkUi (set_all true (store u)) (antsel_active u) "Deselect all Antennas"
         [0; 1; 2; 3]%nat.

(** A callback either runs to its end or stops at a TypeError; what it has
    written before stays written. *)
Inductive js (A : Type) : Type :=
  | Done (a : A)
  | Threw (a : A).

Arguments Done {A} a.
Arguments Threw {A} a.

(** [bax1[k][i]]; [None] is JavaScript's undefined. *)
Definition at_batch (batches : list (list nat)) (k i : nat) : option nat :=
  match nth_error batches k with
  | Some b => nth_error b i
  | None => None
  end.

(** [while i < bax1[0].length] with body
    [bax1[k][i][1][0].visible = v; bax2[k][i][1][0].visible = v; i++],
    over the positions [todo] still to visit.  Reading [[1]] of undefined is
    a TypeError. *)
Fixpoint block_loop (batches : list (list nat)) (k : nat) (v : bool)
    (todo : list nat) (st : list (glyph * glyph)) : js (list (glyph * glyph)) :=
  match todo with
  | [] => Done st
  | i :: todo' =>
      match at_batch batches k i with
      | None => Threw st
      | Some r =>
          let st := update st r (set_p1 v) in
          let st := update st r (set_p2 v) in
          block_loop batches k v todo' st
      end
  end.

(** One of the four [if k in this.active ... else ...] blocks.  Both arms
    bound the loop by the length of batch 0 ([j] is never changed). *)
Definition block (batches : list (list nat)) (active : list nat) (k : nat)
    (st : list (glyph * glyph)) : js (list (glyph * glyph)) :=
  match nth_error batches 0 with
  | None => Threw st
  | Some b0 =>
      if mem k active
      then block_loop batches k true (seq 0 (List.length b0)) st
      else block_loop batches k false (seq 0 (List.length b0)) st
  end.

Definition then_block (batches : list (list nat)) (active : list nat) (k : nat)
    (r : js (list (glyph * glyph))) : js (list (glyph * glyph)) :=
  match r with
  | Done st => block batches active k st
  | Threw st => Threw st
  end.

(** [batch_select.callback] (lines 771-840). *)
Definition batch_select_callback (u : ui) : js ui :=
  let active := batchsel_active u in
  let r := block (bax u) active 0 (store u) in
  let r := then_block (bax u) active 1 r in
  let r := then_block (bax u) active 2 r in
  let r := then_block (bax u) active 3 r in
  match r with
  | Threw st => Threw (mkUi st (antsel_active u) (antsel_label u) active)
  | Done st =>
      if (List.length active =? 4)%nat then
        Done (mkUi st true "Deselect all Antennas" active)
      else if (List.length active =? 0)%nat then
        Done (mkUi st false "Select all Antennas" active)
      else Done (mkUi st (antsel_active u) (antsel_label u) active)
  end.

(** The two user actions. *)
Inductive click : Type :=
  | ClickSelectAll
  | ClickBox (b : nat).

(** What the check-box widget does before it runs the callback: [active]
    becomes the list of the boxes that are ticked after the click. *)
Definition tick (n : nat) (active : list nat) (b : nat) : list nat :=
  filter (fun i => xorb (mem i active) (i =? b)%nat) (seq 0 n).

Definition state_of (r : js ui) : ui :=
  match r with
  | Done u => u
  | Threw u => u
  end.

(** One user action: the widget changes its own property, then runs its
    callback.  A click on a box that does not exist cannot happen. *)
Definition step (u : ui) (c : click) : ui :=
  match c with
  | ClickSelectAll =>
      ant_select_callback
        (mkUi (store u) (negb (antsel_active u)) (antsel_label u)
              (batchsel_active u))
  | ClickBox b =>
      if (b <? nboxes u)%nat then
        state_of (batch_select_callback
          (mkUi (store u) (antsel_active u) (antsel_label u)
                (tick (nboxes u) (batchsel_active u) b)))
      else u
  end.

Definition run (u : ui) (cs : list click) : ui := fold_left step cs u.

(** The logical AND of all check boxes. *)
Definition all_active (u : ui) : bool :=
  forallb (fun i => mem i (batchsel_active u)) (seq 0 (nboxes u)).

Definition none_active (u : ui) : bool :=
  forallb (fun i => negb (mem i (batchsel_active u))) (seq 0 (nboxes u)).

(** The toggle agrees with the boxes at the two ends: all boxes ticked
    goes with "on" and the label to deselect, no box ticked with "off" and
    a label to select (line 685 writes it with a capital "All", the
    callbacks without). *)
Definition consistent (u : ui) : Prop :=
  (all_active u = true ->
   antsel_active u = true /\ antsel_label u = "Deselect all Antennas") /\
  (none_active u = true ->
   antsel_active u = false /\
   (antsel_label u = "Select all Antennas" \/
    antsel_label u = "Select All Antennas")) /\
  (antsel_active u = true -> antsel_label u = "Deselect all Antennas") /\
  (antsel_active u = false ->
   antsel_label u = "Select all Antennas" \/
   antsel_label u = "Select All Antennas").

End Widgets.

(* ================================================================= *)
(** ** Shapes of series *)

Module Series.
Local Open Scope R_scope.

(** Every step between neighbours is at most [b] in size. *)
Fixpoint steps_within (b : R) (l : list R) : Prop :=
  match l with
  | a :: ((c :: _) as tl) => Rabs (c - a) <= b /\ steps_within b tl
  | _ => True
  end.

(** Every step between neighbours is smaller than [b] in size. *)
Fixpoint steps_below (b : R) (l : list R) : Prop :=
  match l with
  | a :: ((c :: _) as tl) => Rabs (c - a) < b /\ steps_below b tl
  | _ => True
  end.

(** [u] and [x] differ by a whole number of [m]. *)
Definition congruent (m u x : R) : Prop := exists k : Z, u - x = IZR k * m.

(** [m] and [t] are the modulus and the phase of [z]: [z] is
    [m (cos t + i sin t)] with [m] not negative and [t] in (-pi, pi], and
    the phase of 0 is 0. *)
Definition polar (z : R * R) (m t : R) : Prop :=
  0 <= m /\ - PI < t <= PI /\
  fst z = m * cos t /\ snd z = m * sin t /\
  (m = 0 -> t = 0).

(** [u] is the phase series [p] unwrapped: it starts where [p] starts,
    every entry is a whole number of turns away from its entry of [p], and
    neighbours are at most half a turn apart. *)
Definition unwrapped (p u : list R) : Prop :=
  hd_error u = hd_error p /\
  Forall2 (congruent (2 * PI)) u p /\
  steps_within PI u.

End Series.

(* ================================================================= *)
(** ** data_prep_B (lines 198-232) *)

Module Bandpass.
Import Numpy Transform.

(** [a[t, :, corr]]. *)
Definition index_row {T : Type} (a : masked3 T) (t corr : Z) : pyres (masked1 T) :=
  i <- norm_index t (dim0 a) ;;
  k <- norm_index corr (dim2 a) ;;
  Ok (mkMasked1 (map (fun j => data3 a i j k) (seq 0 (dim1 a)))
                (map (fun j => mask3 a i j k) (seq 0 (dim1 a)))).

Definition data_prep_B (masked_data masked_data_err : masked3 complex)
    (doplot : string) (corr : Z) : pyres (prepared R) :=
  if String.eqb doplot "ap" then
    y1 <- index_row (ufunc cabs masked_data) 0 corr ;;
    y1_err <- index_row (ufunc cabs masked_data_err) 0 corr ;;
    y2 <- index_row masked_data 0 corr ;;
    let y2 := map angle (asarray y2) in
    let y2 := map rad2deg (unwrap y2) in
    y2_err <- index_row masked_data_err 0 corr ;;
    let y2_err := map angle (asarray y2_err) in
    let y2_err := map rad2deg (unwrap y2_err) in
    Ok (Masked y1, Masked y1_err, Plain y2, Some (Plain y2_err))
  else
    y1 <- index_row (ufunc creal masked_data) 0 corr ;;
    y1_err <- index_row (ufunc cabs masked_data_err) 0 corr ;;
    y2 <- index_row (ufunc cimag masked_data) 0 corr ;;
    Ok (Masked y1, Masked y1_err, Masked y2, None).

(** Time sample 0 exists and [corr] is an index of the correlation axis. *)
Definition in_bounds_row {T : Type} (a : masked3 T) (corr : Z) : bool :=
  (1 <=? dim0 a)%nat &&
  ((- Z.of_nat (dim2 a) <=? corr)%Z && (corr <? Z.of_nat (dim2 a))%Z).

(** The values, and the flags, of all channels at time sample 0 and
    correlation [c], in channel order. *)
Definition channel_values {T : Type} (a : masked3 T) (c : nat) : list T :=
  map (fun j => data3 a 0%nat j c) (seq 0 (dim1 a)).

Definition channel_flags {T : Type} (a : masked3 T) (c : nat) : list bool :=
  map (fun j => mask3 a 0%nat j c) (seq 0 (dim1 a)).

(** An error value that is a non-negative real number. *)
Definition real_nonneg (z : complex) : Prop := (0 <= fst z)%R /\ snd z = 0%R.

End Bandpass.

(* ================================================================= *)
(** ** The running axis extents (lines 410-416 and 564-575) *)

Module Extent.
Import Ranges.
Local Open Scope R_scope.

(** What [np.min] and [np.max] return for one antenna's [times], [y1] and
    [y2]. *)
Record antenna_extent : Type := mkAntennaExtent {
  tmin : R; tmax : R;
  y1min : R; y1max : R;
  y2min : R; y2max : R
}.

(** Lines 410-416. *)
Definition start : extents :=
  mkExtents 1e20 (-1e20) 1e20 (-1e20) 1e20 (-1e20).

(** Lines 564-575, for one antenna. *)
Definition fold_antenna (e : extents) (a : antenna_extent) : extents :=
  mkExtents
    (if Rlt_dec (tmin a) (xmin e) then tmin a else xmin e)
    (if Rgt_dec (tmax a) (xmax e) then tmax a else xmax e)
    (if Rlt_dec (y1min a) (yumin e) then y1min a else yumin e)
    (if Rgt_dec (y1max a) (yumax e) then y1max a else yumax e)
    (if Rlt_dec (y2min a) (ylmin e) then y2min a else ylmin e)
    (if Rgt_dec (y2max a) (ylmax e) then y2max a else ylmax e).

(** The extents after the loop over the antennas. *)
Definition accumulate (l : list antenna_extent) : extents :=
  fold_left fold_antenna l start.

(** No range option is given on the command line. *)
Definition no_options : range_options :=
  mkRangeOptions None None None None None None.

End Extent.

(* ================================================================= *)
(** ** color_denormalize (lines 56-62) *)

Module Colors.
Local Open Scope R_scope.

(** What this function needs of [fl], the rounding of a real result to
    the nearest float64: rounding keeps the order, and a whole number of
    at most 2^53 in size is a float, which rounding leaves as it is. *)
Definition float_rounding (fl : R -> R) : Prop :=
  (forall x y : R, x <= y -> fl x <= fl y) /\
  (forall n : Z, (Z.abs n <= 2 ^ 53)%Z -> fl (IZR n) = IZR n).

(** Rounding to the nearest multiple of [1/q], halves upward: a coarse
    stand-in for float64 on which the effect of rounding shows on small
    numbers. *)
Definition to_grid (q : R) (x : R) : R := IZR (Int_part (x * q + / 2)) / q.

(** The conversion of a float to [int]: the fraction is cut off. *)
Definition trunc (x : R) : Z :=
  if Rle_dec 0 x then Int_part x else (- Int_part (- x))%Z.

(** [tuple(np.array(ycol*255, dtype=int).tolist())[:-1]]: each product
    [c*255] is a float64, that is the real product rounded by [fl], and
    the conversion to [int] cuts the fraction of that float. *)
Definition color_denormalize (fl : R -> R) (ycol : list R) : list Z :=
  removelast (map (fun c => trunc (fl (c * 255))) ycol).

End Colors.

(* ================================================================= *)
(** ** errorbar (lines 65-119) *)

Module ErrorBars.
Local Open Scope R_scope.

(** A [fig.multi_line] renderer: the x and the y coordinate pairs of its
    segments, and its visibility. *)
Record multi_line : Type := mkMultiLine {
  seg_xs : list (R * R);
  seg_ys : list (R * R);
  line_visible : bool
}.

(** [zip(x, y, err)]: as long as the shortest of the three. *)
Fixpoint zip3 (x y err : list R) : list (R * R * R) :=
  match x, y, err with
  | px :: x', py :: y', e :: err' => (px, py, e) :: zip3 x' y' err'
  | _, _, _ => []
  end.

Definition x_bar (x y xerr : list R) : multi_line :=
  mkMultiLine (map (fun '(px, py, err) => (px - err, px + err)) (zip3 x y xerr))
              (map (fun '(px, py, err) => (py, py)) (zip3 x y xerr))
              false.

Definition y_bar (x y yerr : list R) : multi_line :=
  mkMultiLine (map (fun '(px, py, err) => (px, px)) (zip3 x y yerr))
              (map (fun '(px, py, err) => (py - err, py + err)) (zip3 x y yerr))
              false.

(** The renderers added to the figure, in order, and the returned [h]. *)
Definition errorbar (x y : list R) (xerr yerr : option (list R))
    : list multi_line * option multi_line :=
  let drawn := [] in
  let h := None in
  let '(drawn, h) :=
    match xerr with
    | Some ex => ((drawn ++ [x_bar x y ex])%list, Some (x_bar x y ex))
    | None => (drawn, h)
    end in
  match yerr with
  | Some ey => ((drawn ++ [y_bar x y ey])%list, Some (y_bar x y ey))
  | None => (drawn, h)
  end.

End ErrorBars.

(* ================================================================= *)
(** ** save_svg_image (lines 21-30) *)

Module SvgExport.
Import Run.

(** [fmt.format(a, b, ...)] for a format string whose replacement fields are
    all of the form [{}]: [{{] and [}}] stand for one brace, [{}] takes
    the next argument, a brace on its own is a ValueError, a field
    without an argument left an IndexError.  Other field forms do not
    occur in this script and are not modelled (ValueError here). *)
Fixpoint py_format (fmt : string) (args : list string) : pyres string :=
  match fmt with
  | EmptyString => Ok EmptyString
  | String "{"%char (String "{"%char rest) =>
      r <- py_format rest args ;; Ok (String "{"%char r)
  | String "}"%char (String "}"%char rest) =>
      r <- py_format rest args ;; Ok (String "}"%char r)
  | String "{"%char (String "}"%char rest) =>
      match args with
      | [] => Raise IndexError
      | a :: args' => r <- py_format rest args' ;; Ok (a ++ r)
      end
  | String "{"%char _ => Raise ValueError
  | String "}"%char _ => Raise ValueError
  | String c rest => r <- py_format rest args ;; Ok (String c r)
  end.

(** The two [export_svgs] calls, in order. *)
Definition save_svg_image (img_name : string) : prog unit :=
  fa <~ lift (py_format "%s_%s" [img_name; "(a).svg"]) ;
  emit (EExportSvgs fa) ;;
  fb <~ lift (py_format "%s_%s" [img_name; "(b).svg"]) ;
  emit (EExportSvgs fb).

Definition is_brace (c : ascii) : bool :=
  (Ascii.eqb c "{" || Ascii.eqb c "}")%char.

Fixpoint brace_free (s : string) : bool :=
  match s with
  | EmptyString => true
  | String c tl => negb (is_brace c) && brace_free tl
  end.

End SvgExport.

(* ================================================================= *)
(** ** The error-bar toggle, the legend selector and the export
       (lines 737-766, 843-901 and 914-917) *)

Module Controls.
Import Plot Widgets.

(** [toggle_err.callback] over the entries of the antenna loop:
    [err1[i][1][0]] is [p1_err] at rank [i], [err2[i][1][0]] is [p2_err].
    Python's None arrives as null: it fails the test [if (err2[i][1][0])],
    and setting [visible] on it is a TypeError. *)
Definition show_error (v : bool) (e : entry) : option entry :=
  match p1_err e with
  | None => None
  | Some _ =>
      Some (mkEntry (ant_id e) (p1 e) (Some (mkGlyph v)) (p2 e)
                    (match p2_err e with
                     | Some _ => Some (mkGlyph v)
                     | None => None
                     end))
  end.

Fixpoint error_loop (v : bool) (todo : list entry) (done : list entry)
    : js (list entry) :=
  match todo with
  | [] => Done done
  | e :: todo' =>
      match show_error v e with
      | None => Threw (done ++ todo)%list
      | Some e' => error_loop v todo' (done ++ [e'])%list
      end
  end.

(** The callback returns the entries and the toggle's new label;
    [active] is [this.active]. *)
Definition toggle_err_callback (active : bool) (es : list entry)
    : string * js (list entry) :=
  if negb active then ("Show All Error bars", error_loop false es [])
  else ("Hide All Error bars", error_loop true es []).

(** The four legend objects of one batch: data and error legends of the
    upper and the lower panel (lines 660-664). *)
Record legend_row : Type := mkLegendRow {
  leg1 : bool;
  leg2 : bool;
  leg1_err : bool;
  leg2_err : bool
}.

(** Lines 660-664: data legends are created visible, error legends with
    [visible=False]. *)
Definition initial_legends (num_legend_objs : nat) : list legend_row :=
  repeat (mkLegendRow true true false false) num_legend_objs.

Definition set_data (v : bool) (r : legend_row) : legend_row :=
  mkLegendRow v v (leg1_err r) (leg2_err r).

Definition set_err (v : bool) (r : legend_row) : legend_row :=
  mkLegendRow (leg1 r) (leg2 r) v v.

(** [legend_toggle.callback]: its four [if] statements in order. *)
Definition legend_toggle_callback (value : string) (rows : list legend_row)
    : list legend_row :=
  let rows := if String.eqb value "alo" then map (set_data true) rows
              else map (set_data false) rows in
  let rows := if String.eqb value "elo" then map (set_err true) rows
              else map (set_err false) rows in
  let rows := if String.eqb value "all"
              then map (fun r => set_err true (set_data true r)) rows
              else rows in
  let rows := if String.eqb value "non"
              then map (fun r => set_err false (set_data false r)) rows
              else rows in
  rows.

(** What the selector shows for each of its values. *)
Definition legend_table (value : string) : legend_row :=
  if String.eqb value "all" then mkLegendRow true true true true
  else if String.eqb value "alo" then mkLegendRow true true false false
  else if String.eqb value "elo" then mkLegendRow false false true true
  else mkLegendRow false false false false.

(** Lines 914-917: every data glyph is made visible before the export. *)
Definition before_export (es : list entry) : list entry :=
  map (fun e => mkEntry (ant_id e) (mkGlyph true) (p1_err e) (mkGlyph true)
                        (p2_err e)) es.

End Controls.

(* ================================================================= *)
(** * Properties *)

(* ================================================================= *)
(** ** The definitions on small inputs *)

Section Examples.
Import PyStr Classifier Selection Main Legend.
Local Open Scope list_scope.

Example determine_table_gain : determine_table "cal.G0" = PyStr ".G0".
Proof. reflexivity. Qed.

Example determine_table_lower : determine_table "obs/1491291289.b12" = PyStr ".B12".
Proof. reflexivity. Qed.

Example determine_table_inner : determine_table "cal.G1.k" = PyStr ".K".
Proof. reflexivity. Qed.

Example determine_table_other : determine_table "cal.G1x" = PyInt (-1).
Proof. reflexivity. Qed.

Example dispatch_delay_ap : dispatch "ap" "cal.K1" = Ok (Prep KindK).
Proof. reflexivity. Qed.

Example dispatch_delay_ri : dispatch "ri" "cal.K1" = Ok NoComplex.
Proof. reflexivity. Qed.

Example split_comma_three : split_comma "5,6,0" = ["5"; "6"; "0"]%string.
Proof. reflexivity. Qed.

Example split_comma_empty : split_comma "" = [""%string].
Proof. reflexivity. Qed.

Example py_int_signed : py_int " -12 " = Ok (-12)%Z.
Proof. reflexivity. Qed.

Example py_int_word : py_int "m012" = Raise ValueError.
Proof. reflexivity. Qed.

Example unique_sorted : unique [3; 0; 3; 1; 0]%Z = [0; 1; 3]%Z.
Proof. reflexivity. Qed.

Example rstrip_slash_dir : rstrip_slash "cal.K//" = "cal.K"%string.
Proof. reflexivity. Qed.

Example batches_of_twenty :
  map (@List.length nat) (make_batches 20 (seq 0 20)) = [16; 4].
Proof. reflexivity. Qed.

Example batches_of_none : make_batches 0 (@nil nat) = [].
Proof. reflexivity. Qed.

End Examples.

(* ================================================================= *)
(** ** The table-kind classifier *)

Section ClassifierFacts.
Import PyStr Classifier.

Lemma at_dollar_tail (tail : string) :
  at_dollar tail = true <-> dollar_tail tail.
Proof.
  unfold dollar_tail; split.
  - destruct tail as [|c [|d tl]]; simpl; intro H; auto; try discriminate.
    right. apply Ascii.eqb_eq in H. now subst.
  - intros [-> | ->]; reflexivity.
Qed.

Lemma newline_not_digit : is_digit newline = false.
Proof. reflexivity. Qed.

Lemma digits_dollar_complete (ds tail : string) :
  all_digits ds = true -> dollar_tail tail ->
  digits_dollar (ds ++ tail) = Some ds.
Proof.
  intros Hd Ht; induction ds as [|c ds IH]; simpl in *.
  - destruct Ht as [-> | ->]; reflexivity.
  - apply andb_true_iff in Hd as [Hc Hds].
    rewrite Hc, (IH Hds). reflexivity.
Qed.

Lemma digits_dollar_sound (s ds : string) :
  digits_dollar s = Some ds ->
  exists tail, s = ds ++ tail /\ all_digits ds = true /\ dollar_tail tail.
Proof.
  revert ds; induction s as [|c tl IH]; simpl; intros ds H.
  - inversion H; subst. exists EmptyString. repeat split. now left.
  - destruct (is_digit c) eqn:Hc.
    + destruct (digits_dollar tl) as [ds'|] eqn:Htl.
      * inversion H; subst.
        destruct (IH ds' eq_refl) as (tail & -> & Hd & Ht).
        exists tail. simpl. rewrite Hc, Hd. auto.
      * destruct tl as [|d tl']; [discriminate Htl|discriminate H].
    + destruct tl as [|d tl']; [|discriminate H].
      destruct (Ascii.eqb c newline) eqn:Hn; [|discriminate H].
      inversion H; subst. apply Ascii.eqb_eq in Hn; subst c.
      exists (String newline EmptyString). repeat split. now right.
Qed.

Lemma match_here_complete (k : ascii) (ds tail : string) :
  is_kind_letter k = true -> all_digits ds = true -> dollar_tail tail ->
  match_here (String "."%char (String k (ds ++ tail)))
  = Some (String "."%char (String k ds)).
Proof.
  intros Hk Hd Ht. simpl. rewrite Hk, (digits_dollar_complete _ _ Hd Ht).
  reflexivity.
Qed.

Lemma match_here_sound (s m : string) :
  match_here s = Some m ->
  exists k ds tail,
    s = String "."%char (String k (ds ++ tail)) /\
    m = String "."%char (String k ds) /\
    is_kind_letter k = true /\ all_digits ds = true /\ dollar_tail tail.
Proof.
  unfold match_here. destruct s as [|c [|k rest]]; try discriminate.
  - destruct c as [[] [] [] [] [] [] [] []]; discriminate.
  - destruct (Ascii.eqb_spec c "."%char) as [->|Hc].
    + destruct (is_kind_letter k) eqn:Hk; [|discriminate].
      destruct (digits_dollar rest) as [ds|] eqn:Hr; [|discriminate].
      intro H; inversion H; subst.
      destruct (digits_dollar_sound _ _ Hr) as (tail & -> & Hd & Ht).
      exists k, ds, tail. auto.
    + destruct c as [[] [] [] [] [] [] [] []]; try discriminate.
      now contradiction Hc.
Qed.

Lemma has_char_app (c : ascii) (a b : string) :
  has_char c (a ++ b) = has_char c a || has_char c b.
Proof.
  induction a as [|x a IH]; simpl; [reflexivity|].
  rewrite IH. now rewrite orb_assoc.
Qed.

Lemma digits_have_no_dot (ds : string) :
  all_digits ds = true -> has_char "."%char ds = false.
Proof.
  induction ds as [|c ds IH]; simpl; [reflexivity|].
  intro H; apply andb_true_iff in H as [Hc Hd].
  rewrite (IH Hd), orb_false_r.
  destruct (Ascii.eqb_spec c "."%char) as [->|]; [discriminate Hc|reflexivity].
Qed.

Lemma tail_has_no_dot (tail : string) :
  dollar_tail tail -> has_char "."%char tail = false.
Proof. intros [-> | ->]; reflexivity. Qed.

(** No match can start before the dot of a name of the suffix form. *)
Lemma match_here_before_dot (c : ascii) (pre : string) (k : ascii) (rest : string) :
  match_here (String c (pre ++ String "."%char (String k rest))) = None.
Proof.
  destruct (match_here _) as [m|] eqn:H; [|reflexivity].
  exfalso.
  destruct (match_here_sound _ _ H) as (k' & ds & tail & E & _ & Hk & Hd & Ht).
  inversion E as [[Ec E']]; clear E.
  assert (Hdot : has_char "."%char (ds ++ tail) = false).
  { rewrite has_char_app, (digits_have_no_dot _ Hd), (tail_has_no_dot _ Ht).
    reflexivity. }
  destruct pre as [|p pre]; simpl in E'.
  - inversion E'; subst. discriminate Hk.
  - inversion E' as [[Ep E'']]. rewrite <- E'' in Hdot.
    rewrite has_char_app in Hdot. simpl in Hdot.
    rewrite orb_true_r in Hdot. discriminate Hdot.
Qed.

Lemma re_search_complete (pre : string) (k : ascii) (ds tail : string) :
  is_kind_letter k = true -> all_digits ds = true -> dollar_tail tail ->
  re_search (pre ++ String "."%char (String k (ds ++ tail)))
  = Some (String "."%char (String k ds)).
Proof.
  intros Hk Hd Ht. induction pre as [|c pre IH].
  - cbn [append]. unfold re_search.
    destruct (ds ++ tail) eqn:E;
      rewrite <- E; rewrite (match_here_complete _ _ _ Hk Hd Ht); reflexivity.
  - cbn [append]. cbn [re_search]. rewrite match_here_before_dot. exact IH.
Qed.

Lemma re_search_sound (s m : string) :
  re_search s = Some m ->
  exists pre k ds tail,
    has_suffix_form s pre k ds tail /\ dollar_tail tail /\
    m = String "."%char (String k ds).
Proof.
  induction s as [|c tl IH]; intro H.
  - discriminate H.
  - cbn [re_search] in H.
    destruct (match_here (String c tl)) as [m'|] eqn:Hm.
    + inversion H; subst m'.
      destruct (match_here_sound _ _ Hm) as (k & ds & tail & E & -> & Hk & Hd & Ht).
      exists EmptyString, k, ds, tail. unfold has_suffix_form. simpl. auto.
    + destruct (IH H) as (pre & k & ds & tail & (E & Hk & Hd) & Ht & ->).
      exists (String c pre), k, ds, tail. unfold has_suffix_form.
      simpl. rewrite E. auto.
Qed.

End ClassifierFacts.

Section ClassifierResults.
Import PyStr Classifier Run Main.

Lemma upper_digits (ds : string) : all_digits ds = true -> upper ds = ds.
Proof.
  induction ds as [|c ds IH]; simpl; [reflexivity|].
  intro H; apply andb_true_iff in H as [Hc Hd]. rewrite (IH Hd).
  f_equal. unfold upper_char.
  replace (is_lower c) with false; [reflexivity|].
  unfold is_digit in Hc. unfold is_lower.
  apply andb_true_iff in Hc as [_ Hc]. apply Nat.leb_le in Hc.
  symmetry. apply andb_false_iff. left. apply Nat.leb_gt. lia.
Qed.

Lemma upper_match (k : ascii) (ds : string) :
  all_digits ds = true ->
  upper (String "."%char (String k ds))
  = String "."%char (String (upper_char k) ds).
Proof. intro Hd. simpl. now rewrite (upper_digits _ Hd). Qed.

Lemma determine_table_match (s pre : string) (k : ascii) (ds tail : string) :
  has_suffix_form s pre k ds tail -> dollar_tail tail ->
  determine_table s = PyStr (String "."%char (String (upper_char k) ds)).
Proof.
  intros (-> & Hk & Hd) Ht. unfold determine_table.
  rewrite (re_search_complete _ _ _ _ Hk Hd Ht).
  now rewrite (upper_match _ _ Hd).
Qed.

Lemma no_suffix_form_from_search (s : string) :
  re_search s = None ->
  forall pre k ds tail, has_suffix_form s pre k ds tail -> ~ dollar_tail tail.
Proof.
  intros Hs pre k ds tail (-> & Hk & Hd) Ht.
  rewrite (re_search_complete _ _ _ _ Hk Hd Ht) in Hs. discriminate Hs.
Qed.

Lemma determine_table_no_match (s : string) :
  (forall pre k ds tail, has_suffix_form s pre k ds tail -> ~ dollar_tail tail) ->
  determine_table s = PyInt (-1).
Proof.
  intro Hno. unfold determine_table.
  destruct (re_search s) as [m|] eqn:Hs; [|reflexivity].
  destruct (re_search_sound _ _ Hs) as (pre & k & ds & tail & Hf & Ht & _).
  now destruct (Hno _ _ _ _ Hf Ht).
Qed.

Lemma contains_dot_free (x hay : string) :
  has_char "."%char hay = false -> contains (String "."%char x) hay = false.
Proof.
  induction hay as [|c hay IH]; [reflexivity|].
  cbn [has_char contains starts_with].
  intro H. apply orb_false_iff in H as [Hc Hh].
  rewrite Ascii.eqb_sym, Hc, (IH Hh). reflexivity.
Qed.

(** What the if/elif chain of the caller makes of a classifier result. *)
Lemma kind_chain_match (s pre : string) (k : ascii) (ds tail : string)
    (kd : kind) (on_K : branch) :
  has_suffix_form s pre k ds tail -> dollar_tail tail ->
  kind_of_letter k = Some kd ->
  kind_chain s on_K
  = Ok (match kd with KindK => on_K | _ => Prep kd end).
Proof.
  intros Hf Ht Hkd. unfold kind_chain.
  rewrite (determine_table_match _ _ _ _ _ Hf Ht).
  destruct Hf as (_ & _ & Hd).
  pose proof (contains_dot_free "G" _ (digits_have_no_dot _ Hd)) as HG.
  pose proof (contains_dot_free "B" _ (digits_have_no_dot _ Hd)) as HB.
  pose proof (contains_dot_free "K" _ (digits_have_no_dot _ Hd)) as HK.
  unfold py_in, bind.
  destruct k as [[] [] [] [] [] [] [] []]; try discriminate Hkd;
    inversion Hkd; subst kd; cbn -[contains];
    cbn [contains starts_with Ascii.eqb Bool.eqb andb orb];
    rewrite ?HG, ?HB, ?HK; reflexivity.
Qed.

End ClassifierResults.

Section ClassifierSpec.
Import PyStr Classifier Run Main.

(** What the classifier returns for every table name: when the name is
    some prefix, then a dot, a letter among G, K, B in either case and any
    number of digits, and then nothing or exactly one newline,
    [determine_table] returns the dot, the letter in upper case and the
    digits, and the caller's chain picks the kind from the letter alone;
    when the name has no such form, [determine_table] returns the
    integer -1. *)
Theorem determine_table_spec (s : string) :
  (forall pre k ds tail,
      has_suffix_form s pre k ds tail -> dollar_tail tail ->
      determine_table s = PyStr (String "."%char (String (upper_char k) ds)) /\
      exists kd, kind_of_letter k = Some kd /\
                 dispatch "ap" s = Ok (Prep kd)) /\
  ((forall pre k ds tail,
       has_suffix_form s pre k ds tail -> ~ dollar_tail tail) ->
   determine_table s = PyInt (-1)).
Proof.
  split.
  - intros pre k ds tail Hf Ht. split.
    + exact (determine_table_match _ _ _ _ _ Hf Ht).
    + assert (Hk : exists kd, kind_of_letter k = Some kd).
      { destruct Hf as (_ & Hk & _).
        destruct k as [[] [] [] [] [] [] [] []]; try discriminate Hk;
          eexists; reflexivity. }
      destruct Hk as (kd & Hkd). exists kd. split; [exact Hkd|].
      unfold dispatch. cbn [String.eqb Ascii.eqb Bool.eqb].
      rewrite (kind_chain_match _ _ _ _ _ kd (Prep KindK) Hf Ht Hkd).
      now destruct kd.
  - apply determine_table_no_match.
Qed.

Lemma determine_table_spec_witness :
  (determine_table "cal.g12" = PyStr ".G12" /\
   exists kd, kind_of_letter "g" = Some kd /\ dispatch "ap" "cal.g12" = Ok (Prep kd)) /\
  determine_table "cal.txt" = PyInt (-1).
Proof.
  split.
  - apply (proj1 (determine_table_spec "cal.g12") "cal" "g"%char "12" "").
    + unfold has_suffix_form. repeat split.
    + left. reflexivity.
  - apply (proj2 (determine_table_spec "cal.txt")).
    apply no_suffix_form_from_search. reflexivity.
Defined.

(** C6.  The docstring of [determine_table] reads "Find pattern at end
    of string", and the pattern ends in [$] to say so.  Without
    [re.MULTILINE] that anchor also matches just before a final newline:
    for the name "cal.G" followed by a newline the code returns ".G" and
    the caller goes on to prepare a gain table, although this name does
    not end in a dot, a kind letter and digits.  Any other character in
    that place (a space, say) is refused with -1, as is a second
    newline. *)
Theorem determine_table_newline_accepted :
  determine_table ("cal.G" ++ String newline "") = PyStr ".G" /\
  dispatch "ap" ("cal.G" ++ String newline "") = Ok (Prep KindG) /\
  ~ (exists pre k ds,
        has_suffix_form ("cal.G" ++ String newline "") pre k ds "") /\
  determine_table "cal.G " = PyInt (-1) /\
  determine_table ("cal.G" ++ String newline (String newline "")) = PyInt (-1).
Proof.
  split; [reflexivity|]. split; [reflexivity|].
  split; [|split; reflexivity].
  intros (pre & k & ds & (E & Hk & Hd)).
  pose proof (re_search_complete pre k ds "" Hk Hd (or_introl eq_refl)) as H.
  rewrite <- E in H. vm_compute in H. inversion H; subst k ds. clear H Hk Hd.
  cbn [append] in E.
  do 6 (destruct pre as [|? pre]; cbn [append] in E;
        [discriminate E
        | inversion E as [[Ec E']]; clear E Ec; rename E' into E]).
  destruct pre; discriminate E.
Qed.

(** C8.  For every table name the pattern does not match,
    [determine_table] returns the integer -1 and both if/elif chains stop
    at the TypeError of the first membership test; and for every mode and
    every name, the chain never runs its "Invalid table" arm, so the first
    turn of the antenna loop never ends in that arm's [sys.exit(-1)]. *)
Theorem invalid_table_unreachable :
  (forall name,
      (forall pre k ds tail,
          has_suffix_form name pre k ds tail -> ~ dollar_tail tail) ->
      determine_table name = PyInt (-1) /\
      py_in ".G" (determine_table name) = Raise TypeError /\
      dispatch "ap" name = Raise TypeError /\
      dispatch "ri" name = Raise TypeError) /\
  (forall doplot name, dispatch doplot name <> Ok InvalidTable) /\
  (forall o mytab tab ant tr,
      snd (first_antenna o mytab tab ant tr) <> inr (Exited (Some (-1)%Z))).
Proof.
  assert (Hc : forall name on_K, on_K <> InvalidTable ->
                 kind_chain name on_K <> Ok InvalidTable).
  { intros name on_K Hon. unfold kind_chain, determine_table.
    destruct (re_search name) as [m|]; [|discriminate].
    unfold py_in, bind, py_eq_int.
    destruct (contains ".G" (upper m)); [discriminate|].
    destruct (contains ".B" (upper m)); [discriminate|].
    destruct (contains ".K" (upper m)); [congruence|discriminate]. }
  assert (Hd : forall doplot name, dispatch doplot name <> Ok InvalidTable).
  { intros doplot name. unfold dispatch.
    destruct (String.eqb doplot "ap"); [apply Hc; discriminate|].
    destruct (String.eqb doplot "ri"); [apply Hc; discriminate|discriminate]. }
  split; [|split].
  - intros name Hno. rewrite (determine_table_no_match _ Hno).
    unfold dispatch, kind_chain. cbn [String.eqb Ascii.eqb Bool.eqb].
    rewrite (determine_table_no_match _ Hno). repeat split; reflexivity.
  - exact Hd.
  - intros o mytab tab ant tr. unfold first_antenna, seq_prog, emit, lift, ret, stop, sys_exit.
    destruct (query tab ant (field o)) as [|r0 rs]; [discriminate|].
    cbn. pose proof (Hd (doplot o) mytab) as Hb.
    destruct (dispatch (doplot o) mytab) as [[k| | |]|e]; cbn;
      try discriminate.
    + destruct k; cbn; try discriminate.
      destruct (String.eqb (doplot o) "ap"); discriminate.
    + now contradiction Hb.
Qed.

Lemma invalid_table_unreachable_witness :
  determine_table "cal.txt" = PyInt (-1) /\
  py_in ".G" (determine_table "cal.txt") = Raise TypeError /\
  dispatch "ap" "cal.txt" = Raise TypeError /\
  dispatch "ri" "cal.txt" = Raise TypeError.
Proof.
  apply (proj1 invalid_table_unreachable "cal.txt").
  apply no_suffix_form_from_search. reflexivity.
Defined.

End ClassifierSpec.

(* ================================================================= *)
(** ** Legend batches *)

Section LegendFacts.
Import Legend.
Local Open Scope list_scope.
Context {A : Type}.
Implicit Types (items : list A) (b : nat).

(** The slice every turn of the loop takes. *)
Lemma batch_loop_unrolled items num len a acc :
  a + len <= num ->
  fold_left (batch_step items num) (seq a len) (acc, a * BATCH_SIZE)
  = (acc ++ map (fun i => slice items (i * BATCH_SIZE) (i * BATCH_SIZE + BATCH_SIZE))
                (seq a len),
     (a + len) * BATCH_SIZE).
Proof.
  revert a acc. induction len as [|len IH]; intros a acc Hle.
  - cbn [seq fold_left map]. now rewrite app_nil_r, Nat.add_0_r.
  - cbn [seq fold_left map]. unfold batch_step at 2.
    replace (a =? num)%nat with false by (symmetry; apply Nat.eqb_neq; lia).
    replace (a * BATCH_SIZE + BATCH_SIZE) with (S a * BATCH_SIZE) at 2 by lia.
    rewrite IH by lia. rewrite <- app_assoc. cbn [app].
    f_equal. lia.
Qed.

Lemma make_batches_eq items nplot :
  make_batches nplot items
  = map (fun i => slice items (i * BATCH_SIZE) (i * BATCH_SIZE + BATCH_SIZE))
        (seq 0 (num_legend_objs nplot)).
Proof.
  unfold make_batches.
  rewrite (batch_loop_unrolled items _ _ 0 []) by lia. reflexivity.
Qed.

Lemma firstn_plus (l : list A) a c :
  firstn (a + c) l = firstn a l ++ firstn c (skipn a l).
Proof.
  revert l. induction a as [|a IH]; intro l; [reflexivity|].
  destruct l as [|x l]; cbn [Nat.add firstn skipn app].
  - now rewrite firstn_nil.
  - now rewrite IH.
Qed.

Lemma concat_slices items b len a :
  List.concat (map (fun i => slice items (i * b) (i * b + b)) (seq a len))
  = firstn (len * b) (skipn (a * b) items).
Proof.
  revert a. induction len as [|len IH]; intro a; [reflexivity|].
  cbn [seq map List.concat]. rewrite IH. unfold slice.
  replace (a * b + b - a * b) with b by lia.
  replace (S len * b) with (b + len * b) by lia.
  rewrite firstn_plus, skipn_skipn.
  now replace (S a * b) with (b + a * b) by lia.
Qed.

Lemma num_legend_objs_ceil n :
  n <= num_legend_objs n * BATCH_SIZE /\
  num_legend_objs n * BATCH_SIZE < n + BATCH_SIZE.
Proof.
  unfold num_legend_objs.
  pose proof (Nat.div_mod_eq n BATCH_SIZE) as E.
  pose proof (Nat.mod_upper_bound n BATCH_SIZE) as U.
  change BATCH_SIZE with 16 in *.
  destruct (Nat.eqb_spec (n mod 16) 0); lia.
Qed.

Lemma slice_clamped items i :
  slice items (i * BATCH_SIZE) (i * BATCH_SIZE + BATCH_SIZE)
  = slice items (i * BATCH_SIZE)
          (Nat.min ((i + 1) * BATCH_SIZE) (List.length items)).
Proof.
  unfold slice.
  replace (i * BATCH_SIZE + BATCH_SIZE - i * BATCH_SIZE) with BATCH_SIZE by lia.
  destruct (Nat.le_gt_cases ((i + 1) * BATCH_SIZE) (List.length items)) as [H|H].
  - rewrite Nat.min_l by exact H. f_equal. lia.
  - rewrite Nat.min_r by lia.
    rewrite (firstn_all2 (n := BATCH_SIZE)) by (rewrite length_skipn; lia).
    rewrite firstn_all2 by (rewrite length_skipn; lia). reflexivity.
Qed.

End LegendFacts.

Section LegendSpec.
Import Legend.
Local Open Scope list_scope.

(** C5.  For every list of handles of length [n], batching with batch size
    16 makes exactly ceil(n/16) batches (the least count whose capacity
    16*count covers [n]), batch [i] is the handles at ranks
    [i*16 .. min((i+1)*16, n)) in the given order, and the batches
    concatenated in index order are the original list. *)
Theorem make_batches_spec (A : Type) (items : list A) :
  let n := List.length items in
  let batches := make_batches n items in
  List.length batches = num_legend_objs n /\
  (n <= num_legend_objs n * 16 /\ num_legend_objs n * 16 < n + 16) /\
  (forall i, i < List.length batches ->
     nth i batches [] = slice items (i * 16) (Nat.min ((i + 1) * 16) n) /\
     List.length (nth i batches []) = Nat.min ((i + 1) * 16) n - i * 16 /\
     forall r, r < Nat.min ((i + 1) * 16) n - i * 16 ->
       nth_error (nth i batches []) r = nth_error items (i * 16 + r)) /\
  List.concat batches = items.
Proof.
  intros n batches. subst batches.
  rewrite make_batches_eq.
  pose proof (num_legend_objs_ceil n) as Hceil.
  change BATCH_SIZE with 16 in Hceil.
  split; [now rewrite length_map, length_seq|].
  split; [exact Hceil|]. split.
  - intros i Hi. rewrite length_map, length_seq in Hi.
    set (f := fun i => slice items (i * BATCH_SIZE) (i * BATCH_SIZE + BATCH_SIZE)).
    assert (E : nth i (map f (seq 0 (num_legend_objs n))) []
                = slice items (i * 16) (Nat.min ((i + 1) * 16) n)).
    { rewrite (nth_indep _ [] (f 0)) by (now rewrite length_map, length_seq).
      rewrite map_nth, seq_nth by exact Hi. cbn [Nat.add]. subst f. cbv beta.
      apply slice_clamped. }
    rewrite E. split; [reflexivity|]. unfold slice. split.
    + rewrite length_firstn, length_skipn. fold n. lia.
    + intros r Hr. rewrite nth_error_firstn.
      replace (r <? Nat.min ((i + 1) * 16) n - i * 16)%nat with true
        by (symmetry; apply Nat.ltb_lt; exact Hr).
      apply nth_error_skipn.
  - rewrite (concat_slices items BATCH_SIZE _ 0). cbn [Nat.mul skipn].
    apply firstn_all2. fold n. change BATCH_SIZE with 16. lia.
Qed.

End LegendSpec.

Lemma make_batches_spec_witness :
  nth 1 (Legend.make_batches 20 (seq 0 20)) []
  = Legend.slice (seq 0 20) 16 20.
Proof.
  apply (proj1 (proj1 (proj2 (proj2 (make_batches_spec nat (seq 0 20)))) 1%nat
                      ltac:(vm_compute; lia))).
Defined.

(* ================================================================= *)
(** ** Axis ranges *)

Section RangesFacts.
Import Ranges.
Local Open Scope R_scope.

Lemma pad_min_neg (m : R) : m < 0 -> pad_min m = m * 1.1.
Proof.
  intro H. unfold pad_min. destruct (Rlt_dec m 0) as [_|N]; [|contradiction].
  rewrite Rabs_left by exact H. lra.
Qed.

Lemma pad_min_nonneg (m : R) : 0 <= m -> pad_min m = m * 0.9.
Proof.
  intro H. unfold pad_min. destruct (Rlt_dec m 0) as [N|_]; [lra|reflexivity].
Qed.

Lemma override_given (given computed : R) :
  given <> -1 -> override given computed = given.
Proof.
  intro H. unfold override. now destruct (Req_dec_T given (-1)).
Qed.

Lemma override_default (computed : R) : override (-1) computed = computed.
Proof.
  unfold override. destruct (Req_dec_T (-1) (-1)) as [_|N]; [reflexivity|].
  now contradiction N.
Qed.

End RangesFacts.

Section RangesSpec.
Import Ranges.
Local Open Scope R_scope.

Lemma parsed_supplied (x : option R) (v : R) (computed : R) :
  supplied x v -> override (parsed x) computed = v.
Proof. intros [-> Hv]. now apply override_given. Qed.

Lemma parsed_left_open (x : option R) (computed : R) :
  left_open x -> override (parsed x) computed = computed.
Proof. intros [-> | ->]; apply override_default. Qed.

(** C4 (as amended).  For every accumulated extent and every command
    line: a bound the caller gives with a value other than -1 replaces the
    computed bound outright; a bound the caller does not give, or gives as
    -1, leaves the padded bound: the x-axis padded by 400 on both ends, a
    y minimum replaced by min*1.1 when min < 0 and by min*0.9 otherwise, a
    y maximum replaced by max*1.1.  In particular, when yl0 and yl1 are
    given and differ from -1, the lower panel's range is exactly
    (yl0, yl1) whatever the data extents. *)
Theorem finalize_spec (e : extents) (r : range_options) :
  let f := axis_ranges e r in
  (forall v, supplied (opt_t0 r) v -> xmin f = v) /\
  (forall v, supplied (opt_t1 r) v -> xmax f = v) /\
  (forall v, supplied (opt_yu0 r) v -> yumin f = v) /\
  (forall v, supplied (opt_yu1 r) v -> yumax f = v) /\
  (forall v, supplied (opt_yl0 r) v -> ylmin f = v) /\
  (forall v, supplied (opt_yl1 r) v -> ylmax f = v) /\
  (left_open (opt_t0 r) -> xmin f = xmin e - 400) /\
  (left_open (opt_t1 r) -> xmax f = xmax e + 400) /\
  (left_open (opt_yu0 r) ->
   yumin f = if Rlt_dec (yumin e) 0 then yumin e * 1.1 else yumin e * 0.9) /\
  (left_open (opt_yu1 r) -> yumax f = yumax e * 1.1) /\
  (left_open (opt_yl0 r) ->
   ylmin f = if Rlt_dec (ylmin e) 0 then ylmin e * 1.1 else ylmin e * 0.9) /\
  (left_open (opt_yl1 r) -> ylmax f = ylmax e * 1.1) /\
  (forall v0 v1, supplied (opt_yl0 r) v0 -> supplied (opt_yl1 r) v1 ->
     (ylmin f, ylmax f) = (v0, v1)).
Proof.
  intro f. subst f. unfold axis_ranges, finalize, bounds_of.
  cbn [xmin xmax yumin yumax ylmin ylmax t0 t1 yu0 yu1 yl0 yl1].
  assert (Hmin : forall m,
            pad_min m = if Rlt_dec m 0 then m * 1.1 else m * 0.9).
  { intro m. destruct (Rlt_dec m 0) as [Hn|Hp].
    - now apply pad_min_neg.
    - apply pad_min_nonneg. lra. }
  repeat lazymatch goal with
         | |- _ /\ _ => refine (conj _ _)
         end;
    try (intros v Hv; now apply parsed_supplied);
    try (intro Ho; rewrite parsed_left_open by exact Ho;
         first [reflexivity | apply Hmin]).
  intros v0 v1 H0 H1. now rewrite !parsed_supplied with (1 := H0), !parsed_supplied with (1 := H1).
Qed.

Lemma finalize_spec_witness :
  let e := mkExtents 0 100 (-2) 3 2 3 in
  let r := mkRangeOptions None None None None (Some (-180)) (Some 180) in
  (ylmin (axis_ranges e r), ylmax (axis_ranges e r)) = (-180, 180).
Proof.
  intros e r.
  pose proof (finalize_spec e r) as H. cbv zeta in H.
  destruct H as (_ & _ & _ & _ & _ & _ & _ & _ & _ & _ & _ & _ & Hl).
  apply Hl; (split; [reflexivity | lra]).
Defined.

(** C4 as stated fails when the caller gives -1 as a bound: with
    [--yl0 -1 --yl1 5] and a lower-panel data extent of (2, 3), the lower
    panel starts at the padded data minimum 2*0.9, not at -1. *)
Lemma finalize_minus_one_counterexample :
  let e := mkExtents 0 100 0 1 2 3 in
  let r := mkRangeOptions None None None None (Some (-1)) (Some 5) in
  ylmin (axis_ranges e r) = 2 * 0.9 /\
  (ylmin (axis_ranges e r), ylmax (axis_ranges e r)) <> (-1, 5).
Proof.
  intros e r.
  assert (E : ylmin (axis_ranges e r) = 2 * 0.9).
  { unfold axis_ranges, finalize, bounds_of, e, r.
    cbn [ylmin yl0 ylmax opt_yl0 parsed].
    rewrite override_default. apply pad_min_nonneg. lra. }
  split; [exact E|].
  intro Hp. apply (f_equal fst) in Hp. cbn [fst] in Hp.
  rewrite E in Hp. lra.
Qed.

End RangesSpec.

(* ================================================================= *)
(** ** Initial visibility of the data glyphs *)

Section PlotSpec.
Import Plot.
Local Open Scope Z_scope.

Lemma plot_antenna_visible (E : Type) (ant : Z) (y1_err : E) :
  ant_id (plot_antenna ant y1_err) = ant /\
  visible (p1 (plot_antenna ant y1_err)) = negb (ant >? 0) /\
  visible (p2 (plot_antenna ant y1_err)) = negb (ant >? 0).
Proof. unfold plot_antenna. cbn. destruct (ant >? 0); auto. Qed.

(** C10.  After the antenna loop the visibility of the data glyphs
    depends on the antenna ID alone: every antenna with ID greater than 0
    has both data glyphs hidden and an antenna with ID 0 has both visible;
    antenna IDs being non-negative, a data glyph is visible exactly when
    its antenna has ID 0, so a selection without antenna 0 starts with
    every data glyph hidden. *)
Theorem initial_visibility (E : Type) (y1_err : Z -> E) (plotants : list Z) :
  let entries := render y1_err plotants in
  map ant_id entries = plotants /\
  (forall e, In e entries ->
     (0 < ant_id e -> visible (p1 e) = false /\ visible (p2 e) = false) /\
     (ant_id e = 0 -> visible (p1 e) = true /\ visible (p2 e) = true)) /\
  ((forall a, In a plotants -> 0 <= a) ->
   (forall e, In e entries ->
      (visible (p1 e) = true <-> ant_id e = 0) /\
      (visible (p2 e) = true <-> ant_id e = 0)) /\
   (~ In 0 plotants ->
    forall e, In e entries -> visible (p1 e) = false /\ visible (p2 e) = false)).
Proof.
  intro entries. subst entries. unfold render.
  assert (Hin : forall e, In e (map (fun ant => plot_antenna ant (y1_err ant)) plotants) ->
            In (ant_id e) plotants /\
            visible (p1 e) = negb (ant_id e >? 0) /\
            visible (p2 e) = negb (ant_id e >? 0)).
  { intros e He. apply in_map_iff in He as (ant & <- & Ha).
    destruct (plot_antenna_visible E ant (y1_err ant)) as (-> & H1 & H2). auto. }
  split; [|split].
  - rewrite map_map. rewrite <- (map_id plotants) at 2.
    apply map_ext. intro a. apply (plot_antenna_visible E a (y1_err a)).
  - intros e He. destruct (Hin e He) as (_ & -> & ->).
    split; intro H.
    + replace (ant_id e >? 0) with true by (symmetry; apply Z.gtb_lt; lia). auto.
    + rewrite H. auto.
  - intro Hnn. split.
    + intros e He. destruct (Hin e He) as (Ha & -> & ->). apply Hnn in Ha.
      destruct (Z.gtb_spec (ant_id e) 0); cbn; split; split; intro; try lia;
        try discriminate; reflexivity.
    + intros H0 e He. destruct (Hin e He) as (Ha & -> & ->).
      assert (ant_id e <> 0) by (intro Hz; apply H0; now rewrite <- Hz).
      apply Hnn in Ha.
      replace (ant_id e >? 0) with true by (symmetry; apply Z.gtb_lt; lia). auto.
Qed.

Lemma initial_visibility_witness :
  forallb (fun e => negb (visible (p1 e)) && negb (visible (p2 e)))
          (render (fun _ => tt) [3; 5; 7]) = true.
Proof.
  apply forallb_forall. intros e He.
  destruct (proj2 (proj2 (proj2 (initial_visibility unit (fun _ => tt) [3; 5; 7]))
                         ltac:(cbn; intros a Ha; lia))
                  ltac:(cbn; intros Ha; lia) e He) as [-> ->].
  reflexivity.
Defined.

End PlotSpec.

(* ================================================================= *)
(** ** Antenna selection *)

Section SelectionFacts.
Import Run Selection.
Local Open Scope list_scope.

Lemma remove_first_length (x : string) (l : list string) :
  List.length (remove_first x l) <= List.length l.
Proof.
  induction l as [|y l IH]; cbn; [lia|].
  destruct (String.eqb x y); cbn; lia.
Qed.

(** The bound on the turns never cuts the loop short: any two bounds that
    cover the rest of the list give the same run. *)
Lemma filter_loop_turns (ants : list Z) (n : nat) :
  forall m l i tr,
    List.length l <= i + n -> List.length l <= i + m ->
    filter_loop n ants l i tr = filter_loop m ants l i tr.
Proof.
  induction n as [|n IH]; intros m l i tr Hn Hm.
  - assert (Hnone : nth_error l i = None) by (apply nth_error_None; lia).
    destruct m; cbn; [reflexivity|]. now rewrite Hnone.
  - destruct m as [|m].
    + assert (Hnone : nth_error l i = None) by (apply nth_error_None; lia).
      cbn. now rewrite Hnone.
    + cbn. destruct (nth_error l i) as [ant|]; [|reflexivity].
      unfold seq_prog. destruct (lift (py_int ant) tr) as [tr' [v|e]]; [|reflexivity].
      destruct (mem v ants).
      * apply IH; lia.
      * destruct (emit _ tr') as [tr'' [[]|e]]; [|reflexivity].
        pose proof (remove_first_length ant l).
        apply IH; lia.
Qed.

End SelectionFacts.

Section SelectionSpec.
Import Run Selection.

(** C9 fails on the code.  With table antennas {0} and the list "5,6,0",
    the loop removes "5", which moves "6" to the index it has just
    visited; the next turn reads "0", and "6" is never tested.  The
    selection that validation hands on is [6; 0], and 6 is not an antenna
    of the table. *)
Theorem select_antennas_keeps_invalid :
  select_antennas [0%Z] (Some "5,6,0") []
  = ([EPrint "Requested antenna ID 5 not found"], inl [6%Z; 0%Z]) /\
  mem 6 [0%Z] = false.
Proof. split; reflexivity. Qed.

End SelectionSpec.

(* ================================================================= *)
(** ** Runs in real-imaginary mode on a delay table *)

Section MainFacts.
Import PyStr Classifier Run Selection Main.
Local Open Scope list_scope.

Lemma quiet_app (a b : list event) : quiet (a ++ b) = quiet a && quiet b.
Proof.
  unfold quiet. rewrite !existsb_app.
  destruct (existsb is_query a), (existsb is_query b),
           (existsb is_artifact a), (existsb is_artifact b); reflexivity.
Qed.

Lemma quiet_query (tr : list event) : quiet tr = true -> existsb is_query tr = false.
Proof.
  unfold quiet. intro H. apply andb_true_iff in H as [H _].
  now apply negb_true_iff in H.
Qed.

Lemma quiet_artifact (tr : list event) :
  quiet tr = true -> existsb is_artifact tr = false.
Proof.
  unfold quiet. intro H. apply andb_true_iff in H as [_ H].
  now apply negb_true_iff in H.
Qed.

(** The filtering loop only prints, and ends normally or in an uncaught
    exception; the trace it is given is only extended. *)
Lemma filter_loop_shape (ants : list Z) (n : nat) :
  forall l i tr, exists out r,
    filter_loop n ants l i tr = (tr ++ out, r) /\
    filter_loop n ants l i [] = (out, r) /\
    quiet out = true /\
    (forall a, r <> inr (Exited a)).
Proof.
  induction n as [|n IH]; intros l i tr.
  - exists [], (inl l). cbn. rewrite app_nil_r. repeat split. discriminate.
  - cbn [filter_loop]. destruct (nth_error l i) as [ant|].
    + unfold seq_prog, lift. destruct (py_int ant) as [v|e].
      * unfold ret at 1 2. cbv beta iota. destruct (mem v ants).
        -- apply IH.
        -- set (msg := EPrint ("Requested antenna ID " ++ ant ++ " not found")%string).
           destruct (IH (remove_first ant l) (S i) (tr ++ [msg]))
             as (out & r & E1 & E2 & Hq & Hr).
           destruct (IH (remove_first ant l) (S i) [msg])
             as (out' & r' & E1' & E2' & _ & _).
           rewrite E2 in E2'. inversion E2'; subst out' r'. clear E2'.
           exists (msg :: out), r.
           unfold emit. cbv beta iota. cbn [app]. rewrite E1, E1'.
           rewrite <- app_assoc. cbn [app].
           repeat split; auto.
      * exists [], (inr (Uncaught e)). unfold stop. rewrite app_nil_r.
        repeat split. discriminate.
    + exists [], (inl l). unfold ret. rewrite app_nil_r. repeat split. discriminate.
Qed.

Lemma to_int_array_length (l : list string) (v : list Z) :
  to_int_array l = Ok v -> List.length v = List.length l.
Proof.
  revert v. induction l as [|s l IH]; cbn; intros v H.
  - now inversion H.
  - unfold bind in H. destruct (py_int s); [|discriminate].
    destruct (to_int_array l) as [vs|]; [|discriminate].
    inversion H; subst. cbn. now rewrite (IH vs eq_refl).
Qed.

(** The antenna selection only prints; it never calls [sys.exit()]
    without an argument, its only exit is [sys.exit(-1)], and what it
    hands on is the table's antenna list or a non-empty array. *)
Lemma select_antennas_shape (ants : list Z) (p : option string) (tr : list event) :
  exists out r,
    select_antennas ants p tr = (tr ++ out, r) /\
    select_antennas ants p [] = (out, r) /\
    quiet out = true /\
    match r with
    | inl sel => (p = None /\ sel = ants) \/ sel <> []
    | inr (Exited a) => a = Some (-1)%Z
    | inr (Uncaught _) => True
    end.
Proof.
  unfold select_antennas. destruct p as [s|].
  - destruct s as [|c s].
    + exists [], (inr (Uncaught IndexError)). cbn. now rewrite app_nil_r.
    + set (l := split_comma (String c s)).
      destruct (filter_loop_shape ants (List.length l) l 0 tr)
        as (out & r & E1 & E2 & Hq & Hr).
      unfold seq_prog. rewrite E1, E2.
      destruct r as [l'|e].
      * destruct (Nat.eqb_spec (List.length l') 0) as [Hz|Hnz].
        -- exists (out ++ [EPrint "No valid antennas have been requested"]),
                  (inr (Exited (Some (-1)%Z))).
           unfold emit, sys_exit, stop. cbn. rewrite app_assoc.
           repeat split. rewrite quiet_app, Hq. reflexivity.
        -- unfold lift. destruct (to_int_array l') as [v|e] eqn:Ev.
           ++ exists out, (inl v). unfold ret. repeat split; auto.
              right. intros ->. apply to_int_array_length in Ev. cbn in Ev. lia.
           ++ exists out, (inr (Uncaught e)). unfold stop. repeat split; auto.
      * exists out, (inr e). repeat split; auto.
        destruct e as [a|e]; [now destruct (Hr a)|exact I].
  - exists [], (inl ants). unfold ret. rewrite app_nil_r. repeat split; auto.
Qed.

Lemma insert_unique_nonempty (z : Z) (l : list Z) : insert_unique z l <> [].
Proof.
  destruct l as [|y l]; cbn; [discriminate|].
  destruct (z <? y)%Z; [discriminate|]. destruct (z =? y)%Z; discriminate.
Qed.

Lemma unique_nonempty (l : list Z) : l <> [] -> unique l <> [].
Proof.
  destruct l as [|z l]; [congruence|]. intros _. cbn.
  apply insert_unique_nonempty.
Qed.

Lemma mem_nonempty (z : Z) (l : list Z) : mem z l = true -> l <> [].
Proof. destruct l; [discriminate|discriminate]. Qed.

(** The first turn of the loop in [ri] mode when the chain takes its
    [.K] arm. *)
Lemma first_antenna_no_complex (o : options) (mytab : string) (tab : table)
    (ant : Z) (tr : list event) :
  dispatch (doplot o) mytab = Ok NoComplex ->
  first_antenna o mytab tab ant tr
  = match query tab ant (field o) with
    | [] => (tr ++ [EQuery ant (field o); ESubGetcol "TIME"],
             inr (Uncaught IndexError))
    | _ :: _ => (tr ++ no_complex_turn ant (field o), inr (Exited None))
    end.
Proof.
  intro Hd. unfold first_antenna, seq_prog, emit, lift, stop, sys_exit, no_complex_turn.
  destruct (query tab ant (field o)) as [|r0 rs].
  - cbn. now rewrite <- app_assoc.
  - rewrite Hd. cbn. now rewrite <- !app_assoc.
Qed.

End MainFacts.

Section MainSpec.
Import PyStr Classifier Run Selection Main.
Local Open Scope list_scope.

(** [main_prefix] with its sequencing spelled out, for an accepted mode. *)
Lemma run_main_unfold (o : options) (arg : string) (tab : table) :
  (String.eqb (doplot o) "ap" || String.eqb (doplot o) "ri")%bool = true ->
  run_main o [arg] tab
  = let mytab := rstrip_slash arg in
    let tr1 := opening o mytab in
    if negb (mem (field o) (unique (map FIELD_ID tab))) then
      (tr1 ++ [EPrint ("Field ID " ++ str (field o) ++ " not found")%string],
       inr (Exited (Some (-1)%Z)))
    else
      match select_antennas (unique (map ANTENNA1 tab)) (plotants o) tr1 with
      | (tr2, inr e) => (tr2, inr e)
      | (tr2, inl sel) =>
          match sel with
          | [] => (tr2 ++ antenna_names o, inl None)
          | ant :: _ =>
              match first_antenna o mytab tab ant (tr2 ++ antenna_names o) with
              | (tr4, inl k) => (tr4, inl (Some k))
              | (tr4, inr e) => (tr4, inr e)
              end
          end
      end.
Proof.
  intro Hmode. unfold run_main, main_prefix, opening, antenna_names.
  rewrite Hmode. cbv zeta. cbn [negb].
  unfold seq_prog at 1.
  destruct (String.eqb (pngname o) "").
  - unfold emit, seq_prog, sys_exit, stop, ret. cbv beta iota. cbn [app].
    destruct (negb (mem (field o) (unique (map FIELD_ID tab)))); [reflexivity|].
    destruct (select_antennas _ _ _) as [tr2 [sel|e]]; [|reflexivity].
    destruct (String.eqb (myms o) ""); cbv beta iota.
    + rewrite app_nil_r. destruct sel as [|ant rest]; [reflexivity|].
      destruct (first_antenna _ _ _ _ _) as [tr4 [k|e]]; reflexivity.
    + rewrite <- app_assoc. cbn [app]. destruct sel as [|ant rest]; [reflexivity|].
      destruct (first_antenna _ _ _ _ _) as [tr4 [k|e]]; reflexivity.
  - unfold emit, seq_prog, sys_exit, stop, ret. cbv beta iota. cbn [app].
    destruct (negb (mem (field o) (unique (map FIELD_ID tab)))); [reflexivity|].
    destruct (select_antennas _ _ _) as [tr2 [sel|e]]; [|reflexivity].
    destruct (String.eqb (myms o) ""); cbv beta iota.
    + rewrite app_nil_r. destruct sel as [|ant rest]; [reflexivity|].
      destruct (first_antenna _ _ _ _ _) as [tr4 [k|e]]; reflexivity.
    + rewrite <- app_assoc. cbn [app]. destruct sel as [|ant rest]; [reflexivity|].
      destruct (first_antenna _ _ _ _ _) as [tr4 [k|e]]; reflexivity.
Qed.

Lemma opening_quiet (o : options) (mytab : string) : quiet (opening o mytab) = true.
Proof. unfold opening. now destruct (String.eqb (pngname o) ""). Qed.

Lemma antenna_names_quiet (o : options) : quiet (antenna_names o) = true.
Proof. unfold antenna_names. now destruct (String.eqb (myms o) ""). Qed.

(** C3 (as amended).  For every run in mode [ri] on a table whose name
    has a delay-type suffix, no plot is made and no artifact is written,
    and the run ends in one of three ways: an uncaught exception; a
    validation abort by [sys.exit(-1)] with no table query issued; or a
    call of [sys.exit] in the first antenna's turn, right after that
    antenna's table query and column reads and the line "No complex
    values to plot", with no query before that turn.  The third way is
    taken whenever the field and antenna checks pass and the first
    selected antenna has rows for the field. *)
Theorem ri_on_delay_table (o : options) (arg : string) (tab : table)
    (pre : string) (k : ascii) (ds tail : string) :
  doplot o = "ri"%string ->
  has_suffix_form (rstrip_slash arg) pre k ds tail -> dollar_tail tail ->
  kind_of_letter k = Some KindK ->
  let tr := fst (run_main o [arg] tab) in
  let res := snd (run_main o [arg] tab) in
  existsb is_artifact tr = false /\
  match res with
  | inl _ => False
  | inr (Uncaught _) => True
  | inr (Exited a) =>
      (a = Some (-1)%Z /\ existsb is_query tr = false) \/
      (exists ant tr0,
          quiet tr0 = true /\ tr = tr0 ++ no_complex_turn ant (field o))
  end /\
  (checks_pass o tab ->
   exists a ant tr0,
     res = inr (Exited a) /\
     quiet tr0 = true /\ tr = tr0 ++ no_complex_turn ant (field o)).
Proof.
  intros Hri Hf Ht Hk tr res. subst tr res.
  assert (Hd : dispatch (doplot o) (rstrip_slash arg) = Ok NoComplex).
  { rewrite Hri. unfold dispatch. cbn [String.eqb Ascii.eqb Bool.eqb].
    now rewrite (kind_chain_match _ _ _ _ _ KindK NoComplex Hf Ht Hk). }
  rewrite run_main_unfold by (rewrite Hri; reflexivity). cbv zeta.
  set (mytab := rstrip_slash arg) in *.
  pose proof (opening_quiet o mytab) as Hq1.
  pose proof (antenna_names_quiet o) as Hq3.
  destruct (mem (field o) (unique (map FIELD_ID tab))) eqn:Hfield; cbn [negb].
  - destruct (select_antennas_shape (unique (map ANTENNA1 tab)) (plotants o)
                (opening o mytab)) as (out & r & E1 & E2 & Hq2 & Hr).
    rewrite E1.
    assert (Hq12 : quiet (opening o mytab ++ out) = true)
      by (now rewrite quiet_app, Hq1, Hq2).
    destruct r as [sel|e].
    + destruct sel as [|ant rest].
      * exfalso. destruct Hr as [[_ Hants]|Hne]; [|now apply Hne].
        apply mem_nonempty in Hfield.
        symmetry in Hants. revert Hants. apply unique_nonempty.
        destruct tab; [now contradiction Hfield|discriminate].
      * rewrite (first_antenna_no_complex _ _ _ _ _ Hd).
        assert (Hq : quiet ((opening o mytab ++ out) ++ antenna_names o) = true)
          by (now rewrite quiet_app, Hq12, Hq3).
        destruct (query tab ant (field o)) as [|r0 rs] eqn:Hquery; cbn [fst snd].
        -- split; [|split; [exact I|]].
           ++ now rewrite existsb_app, (quiet_artifact _ Hq).
           ++ intros (_ & ant' & rest' & Hsel & Hrows). exfalso.
              rewrite E2 in Hsel. cbn [snd] in Hsel.
              inversion Hsel; subst ant' rest'. now apply Hrows.
        -- split; [|split].
           ++ now rewrite existsb_app, (quiet_artifact _ Hq).
           ++ right. exists ant, ((opening o mytab ++ out) ++ antenna_names o). auto.
           ++ intros _.
              exists None, ant, ((opening o mytab ++ out) ++ antenna_names o). auto.
    + cbn [fst snd]. split; [now apply quiet_artifact|]. split.
      * destruct e as [a|e]; [|exact I]. subst a.
        left. split; [reflexivity|now apply quiet_query].
      * intros (_ & ant' & rest' & Hsel & _). rewrite E2 in Hsel. discriminate Hsel.
  - cbn [fst snd].
    assert (Hq : quiet (opening o mytab ++
                        [EPrint ("Field ID " ++ str (field o) ++ " not found")%string]) = true)
      by (now rewrite quiet_app, Hq1).
    split; [now apply quiet_artifact|]. split.
    + left. split; [reflexivity|now apply quiet_query].
    + intros (Hm & _). rewrite Hfield in Hm. discriminate Hm.
Qed.

Lemma ri_on_delay_table_witness :
  let o := mkOptions 0 "ri" None 0 "" "" in
  let tab := [mkRow 0 0 0] in
  exists a ant tr0,
    snd (run_main o ["cal.K"%string] tab) = inr (Exited a) /\
    quiet tr0 = true /\
    fst (run_main o ["cal.K"%string] tab) = tr0 ++ no_complex_turn ant (field o).
Proof.
  intros o tab.
  apply (proj2 (proj2 (ri_on_delay_table o "cal.K" tab "cal" "K"%char "" ""
                         eq_refl
                         (conj eq_refl (conj eq_refl eq_refl))
                         (or_introl eq_refl) eq_refl))).
  split; [reflexivity|].
  exists 0%Z, []. split; [reflexivity|]. vm_compute. discriminate.
Defined.

(** C3 as stated fails: in mode [ri] on the delay table "cal.K" with one
    row (antenna 0, field 0), the first antenna's table query is issued
    before the abort, and the abort is [sys.exit()] without an argument,
    whose exit status is 0. *)
Lemma ri_on_delay_table_counterexample :
  let o := mkOptions 0 "ri" None 0 "" "" in
  let tab := [mkRow 0 0 0] in
  run_main o ["cal.K"%string] tab
  = ([EOutputFile "plot_cal.K_corr0_ri_field0.html"; EOpenTable "cal.K";
      EGetcol "ANTENNA1"; EGetcol "FIELD_ID"; EGetcol "FLAG";
      EQuery 0 0; ESubGetcol "TIME"; ESubGetcol "FLAG"; ESubGetcol "PARAMERR";
      EPrint "No complex values to plot"],
     inr (Exited None)) /\
  exit_status None = 0%Z /\
  existsb is_query (fst (run_main o ["cal.K"%string] tab)) = true.
Proof. vm_compute. repeat split. Qed.

End MainSpec.

(* ================================================================= *)
(** ** The solution transforms *)

Section TransformFacts.
Import Numpy Transform.
Local Open Scope list_scope.

Lemma norm_index_in_range (i : Z) (n : nat) :
  (0 <= i < Z.of_nat n)%Z -> norm_index i n = Ok (Z.to_nat i).
Proof.
  intro H. unfold norm_index.
  replace ((0 <=? i)%Z && (i <? Z.of_nat n)%Z) with true; [reflexivity|].
  symmetry. apply andb_true_iff. split; [apply Z.leb_le|apply Z.ltb_lt]; lia.
Qed.

Lemma norm_index_zero (n : nat) :
  norm_index 0 n = if (1 <=? n)%nat then Ok 0%nat else Raise IndexError.
Proof.
  destruct n as [|n]; [reflexivity|].
  rewrite norm_index_in_range by lia. reflexivity.
Qed.

Lemma norm_index_total (i : Z) (n : nat) :
  norm_index i n
  = if ((- Z.of_nat n <=? i)%Z && (i <? Z.of_nat n)%Z)%bool
    then Ok (position i n) else Raise IndexError.
Proof.
  unfold norm_index, position.
  destruct (Z.leb_spec 0 i) as [H0|H0]; destruct (Z.ltb_spec i (Z.of_nat n)) as [Hn|Hn];
    destruct (Z.leb_spec (- Z.of_nat n) i) as [Hm|Hm];
    destruct (Z.ltb_spec i 0) as [Hz|Hz]; cbn [andb]; try reflexivity; try lia.
  - now rewrite Z.mod_small by lia.
  - f_equal. f_equal.
    replace i with ((i + Z.of_nat n) + (-1) * Z.of_nat n)%Z at 2 by lia.
    rewrite Z_mod_plus_full. now rewrite Z.mod_small by lia.
Qed.

Lemma index_col_total (T : Type) (a : masked3 T) (corr : Z) :
  index_col a 0 corr
  = if in_bounds a corr
    then Ok (mkMasked1 (values_at a (position corr (dim2 a)))
                       (flags_at a (position corr (dim2 a))))
    else Raise IndexError.
Proof.
  unfold index_col, in_bounds, bind. rewrite norm_index_zero, norm_index_total.
  destruct (1 <=? dim1 a)%nat; [|reflexivity]. cbn [andb].
  now destruct ((- Z.of_nat (dim2 a) <=? corr)%Z && (corr <? Z.of_nat (dim2 a))%Z)%bool.
Qed.

Lemma index_col_in_range (T : Type) (a : masked3 T) (corr : Z) :
  (1 <= dim1 a)%nat -> (0 <= corr < Z.of_nat (dim2 a))%Z ->
  index_col a 0 corr
  = Ok (mkMasked1 (values_at a (Z.to_nat corr)) (flags_at a (Z.to_nat corr))).
Proof.
  intros H1 H2. rewrite index_col_total. unfold in_bounds, position.
  replace (1 <=? dim1 a)%nat with true by (symmetry; now apply Nat.leb_le).
  replace (- Z.of_nat (dim2 a) <=? corr)%Z with true by (symmetry; apply Z.leb_le; lia).
  replace (corr <? Z.of_nat (dim2 a))%Z with true by (symmetry; apply Z.ltb_lt; lia).
  cbn [andb]. now rewrite Z.mod_small by lia.
Qed.

Lemma values_at_ufunc (A B : Type) (f : A -> B) (a : masked3 A) (c : nat) :
  values_at (ufunc f a) c = map f (values_at a c).
Proof. unfold values_at, ufunc. cbn. now rewrite map_map. Qed.

Lemma index_col_ufunc (A B : Type) (f : A -> B) (a : masked3 A) (corr : Z) :
  index_col (ufunc f a) 0 corr
  = if in_bounds a corr
    then Ok (mkMasked1 (map f (values_at a (position corr (dim2 a))))
                       (flags_at a (position corr (dim2 a))))
    else Raise IndexError.
Proof.
  rewrite index_col_total. change (in_bounds (ufunc f a) corr) with (in_bounds a corr).
  change (dim2 (ufunc f a)) with (dim2 a).
  now rewrite values_at_ufunc.
Qed.

End TransformFacts.

Section TransformSpec.
Import Numpy Transform.
Local Open Scope list_scope.

(** C7.  For the delay-type transform with [corr] 0 or 1, on an array with
    a channel axis and a two-element (or longer) correlation axis, [y1] is
    the values of the masked array at the requested correlation, [y2] the
    values at the other correlation of the pair (both as plain arrays of
    all samples: [np.array] keeps the values and drops the flags), and
    the error array is handed back as it came, whole, as both [y1_err]
    and [y2_err]; on any other shape the indexing raises IndexError. *)
Theorem data_prep_K_spec (T : Type) (masked_data masked_data_err : masked3 T)
    (corr : Z) :
  corr = 0%Z \/ corr = 1%Z ->
  data_prep_K masked_data masked_data_err corr
  = if ((1 <=? dim1 masked_data) && (2 <=? dim2 masked_data))%nat then
      Ok (Plain (values_at masked_data (Z.to_nat corr)),
          Whole masked_data_err,
          Plain (values_at masked_data (1 - Z.to_nat corr)),
          Some (Whole masked_data_err))
    else Raise IndexError.
Proof.
  intro Hc. unfold data_prep_K.
  destruct (Nat.leb_spec 1 (dim1 masked_data)) as [H1|H1].
  - destruct (Nat.leb_spec 2 (dim2 masked_data)) as [H2|H2]; cbn [andb].
    + assert (Hn : int_not corr = (1 - corr)%Z /\
                   Z.to_nat (1 - corr) = (1 - Z.to_nat corr)%nat)
        by (destruct Hc as [-> | ->]; split; reflexivity).
      destruct Hn as [-> Hn].
      rewrite !index_col_in_range by lia. unfold bind, asarray. cbn [data1].
      now rewrite Hn.
    + unfold index_col, bind at 1 2. rewrite norm_index_zero.
      replace (1 <=? dim1 masked_data)%nat with true by (symmetry; now apply Nat.leb_le).
      assert (Hd : dim2 masked_data = 0%nat \/ dim2 masked_data = 1%nat) by lia.
      destruct Hd as [-> | ->]; destruct Hc as [-> | ->]; reflexivity.
  - cbn [andb]. unfold index_col, bind at 1 2. rewrite norm_index_zero.
    replace (1 <=? dim1 masked_data)%nat with false
      by (symmetry; apply Nat.leb_gt; lia).
    reflexivity.
Qed.

Lemma data_prep_K_spec_witness :
  let md := mkMasked3 2 1 2 (fun i _ k => Z.of_nat (10 * i + k)) (fun _ _ _ => false) in
  let me := mkMasked3 2 1 2 (fun _ _ _ => 1%Z) (fun _ _ _ => false) in
  data_prep_K md me 1
  = Ok (Plain [1; 11]%Z, Whole me, Plain [0; 10]%Z, Some (Whole me)).
Proof.
  intros md me.
  exact (data_prep_K_spec Z md me 1 (or_intror eq_refl)).
Defined.

Local Open Scope R_scope.

Lemma sqrt_above (a x : R) : 0 <= a -> a * a < x -> a < sqrt x.
Proof.
  intros Ha H. rewrite <- (sqrt_square a Ha).
  assert (0 <= a * a) by nra.
  apply sqrt_lt_1; lra.
Qed.

Lemma sqrt_below (a x : R) : 0 <= a -> 0 <= x -> x < a * a -> sqrt x < a.
Proof.
  intros Ha Hx H.
  assert (0 <= a * a) by nra.
  replace a with (sqrt (a * a)) at 1 by (now apply sqrt_square).
  apply sqrt_lt_1; lra.
Qed.

Lemma cabs_1_1 : Rabs (cabs (1, 1) - 1.414) < 0.0005.
Proof.
  unfold cabs. cbn [fst snd].
  assert (H1 : 1.4135 < sqrt (1 * 1 + 1 * 1)) by (apply sqrt_above; lra).
  assert (H2 : sqrt (1 * 1 + 1 * 1) < 1.4145) by (apply sqrt_below; lra).
  apply Rabs_def1; lra.
Qed.

Lemma cabs_2_0 : cabs (2, 0) = 2.
Proof.
  unfold cabs. cbn [fst snd].
  replace (2 * 2 + 0 * 0) with (2 * 2) by lra. apply sqrt_square. lra.
Qed.

Lemma angle_1_1 : angle (1, 1) = PI / 4.
Proof.
  unfold angle, arctan2, cimag, creal. cbn [fst snd].
  destruct (Rlt_dec 0 1) as [_|N]; [|lra].
  replace (1 / 1) with 1 by lra. apply atan_1.
Qed.

Lemma angle_2_0 : angle (2, 0) = 0.
Proof.
  unfold angle, arctan2, cimag, creal. cbn [fst snd].
  destruct (Rlt_dec 0 2) as [_|N]; [|lra].
  replace (0 / 2) with 0 by lra. apply atan_0.
Qed.

(** A step smaller than pi is left alone by [np.unwrap]. *)
Lemma ph_correct_small (dd : R) : Rabs dd < PI -> ph_correct dd = 0.
Proof.
  intro H. unfold ph_correct. cbv zeta.
  now destruct (Rlt_dec (Rabs dd) PI).
Qed.

Lemma unwrap_quarter_zero : unwrap [PI / 4; 0] = [PI / 4; 0].
Proof.
  unfold unwrap, cumsum. cbn [diff map cumsum_from zip_add].
  rewrite ph_correct_small.
  - f_equal. f_equal. lra.
  - pose proof PI_RGT_0. rewrite Rabs_left; lra.
Qed.

Lemma rad2deg_quarter : rad2deg (PI / 4) = 45.
Proof. unfold rad2deg. pose proof PI_neq0. field. assumption. Qed.

Lemma rad2deg_zero : rad2deg 0 = 0.
Proof. unfold rad2deg. lra. Qed.

End TransformSpec.

(* ================================================================= *)
(** ** The select-all toggle and the batch checkboxes *)

Section WidgetsFacts.
Import Plot Legend Widgets.
Local Open Scope list_scope.

Lemma update_length (A : Type) (f : A -> A) (l : list A) (i : nat) :
  List.length (update l i f) = List.length l.
Proof.
  revert i. induction l as [|x l IH]; intro i; [reflexivity|].
  destruct i; cbn; [reflexivity|]. now rewrite IH.
Qed.

Lemma set_all_length (v : bool) (st : list (glyph * glyph)) :
  List.length (set_all v st) = List.length st.
Proof.
  unfold set_all. generalize (seq 0 (List.length st)). intro idx.
  revert st. induction idx as [|i idx IH]; intro st; [reflexivity|].
  cbn [fold_left]. rewrite IH. now rewrite !update_length.
Qed.

(** A block whose every position exists runs to its end and keeps the
    number of glyphs. *)
Lemma block_loop_done (batches : list (list nat)) (k : nat) (v : bool)
    (todo : list nat) :
  (forall i, In i todo -> at_batch batches k i <> None) ->
  forall st, exists st',
    block_loop batches k v todo st = Done st' /\
    List.length st' = List.length st.
Proof.
  induction todo as [|i todo IH]; intros Hall st.
  - exists st. split; reflexivity.
  - cbn [block_loop].
    destruct (at_batch batches k i) as [r|] eqn:Hr.
    + destruct (IH (fun j Hj => Hall j (or_intror Hj))
                   (update (update st r (set_p1 v)) r (set_p2 v)))
        as (st' & E & L).
      exists st'. split; [exact E|]. now rewrite L, !update_length.
    + exfalso. apply (Hall i); [now left|exact Hr].
Qed.

(** The batches of 64 antennas: four, of sixteen ranks each. *)
Lemma four_full_batches :
  forall k i, k < 4 -> In i (seq 0 16) ->
    at_batch (make_batches 64 (seq 0 64)) k i <> None.
Proof.
  assert (H : forallb (fun k => forallb (fun i =>
                match at_batch (make_batches 64 (seq 0 64)) k i with
                | Some _ => true
                | None => false
                end) (seq 0 16)) (seq 0 4) = true) by (vm_compute; reflexivity).
  intros k i Hk Hi. rewrite forallb_forall in H.
  assert (Hk' : In k (seq 0 4)) by (apply in_seq; lia).
  specialize (H k Hk'). rewrite forallb_forall in H. specialize (H i Hi).
  intro E. rewrite E in H. discriminate H.
Qed.

Lemma first_batch_64 :
  nth_error (make_batches 64 (seq 0 64)) 0 = Some (seq 0 16).
Proof. vm_compute. reflexivity. Qed.

Lemma block_64 (active : list nat) (k : nat) (st : list (glyph * glyph)) :
  k < 4 ->
  exists st',
    block (make_batches 64 (seq 0 64)) active k st = Done st' /\
    List.length st' = List.length st.
Proof.
  intro Hk. unfold block. rewrite first_batch_64, length_seq.
  destruct (mem k active); apply block_loop_done; intros i Hi;
    now apply four_full_batches.
Qed.

(** With 64 antennas the check-box callback runs to its end: it keeps the
    number of glyphs and sets the toggle from the number of ticked boxes. *)
Lemma batch_callback_64 (u : ui) :
  List.length (store u) = 64 ->
  exists st',
    List.length st' = 64 /\
    batch_select_callback u
    = Done (if (List.length (batchsel_active u) =? 4)%nat then
              mkUi st' true "Deselect all Antennas" (batchsel_active u)
            else if (List.length (batchsel_active u) =? 0)%nat then
              mkUi st' false "Select all Antennas" (batchsel_active u)
            else mkUi st' (antsel_active u) (antsel_label u) (batchsel_active u)).
Proof.
  intro H. unfold batch_select_callback, bax. rewrite H.
  destruct (block_64 (batchsel_active u) 0 (store u)) as (s0 & E0 & L0); [lia|].
  destruct (block_64 (batchsel_active u) 1 s0) as (s1 & E1 & L1); [lia|].
  destruct (block_64 (batchsel_active u) 2 s1) as (s2 & E2 & L2); [lia|].
  destruct (block_64 (batchsel_active u) 3 s2) as (s3 & E3 & L3); [lia|].
  cbv zeta. rewrite E0. unfold then_block. rewrite E1, E2, E3.
  exists s3. split; [lia|].
  destruct (List.length (batchsel_active u) =? 4)%nat; [reflexivity|].
  destruct (List.length (batchsel_active u) =? 0)%nat; reflexivity.
Qed.

(** Four boxes after a click: all are ticked exactly when four indices are
    active, none exactly when no index is. *)
Lemma tick_four (active : list nat) (b : nat) :
  let a' := tick 4 active b in
  (forallb (fun i => mem i a') (seq 0 4) = true <-> List.length a' = 4) /\
  (forallb (fun i => negb (mem i a')) (seq 0 4) = true <-> List.length a' = 0).
Proof.
  unfold tick. cbn [seq filter].
  destruct (mem 0 active), (mem 1 active), (mem 2 active), (mem 3 active);
    destruct b as [|[|[|[|b]]]]; cbn; split; split; intro H;
    try reflexivity; try discriminate H.
Qed.

End WidgetsFacts.

Section WidgetsSpec.
Import Plot Legend Widgets.
Local Open Scope list_scope.

Lemma nboxes_64 (u : ui) : List.length (store u) = 64 -> nboxes u = 4.
Proof. intro H. unfold nboxes. rewrite H. reflexivity. Qed.

Lemma select_all_step (u : ui) :
  List.length (store u) = 64 ->
  let u' := step u ClickSelectAll in
  List.length (store u') = 64 /\ consistent u' /\
  antsel_active u' = negb (antsel_active u) /\
  antsel_active u' = all_active u' /\
  none_active u' = negb (antsel_active u').
Proof.
  intros H u'. subst u'. unfold step, ant_select_callback.
  cbn [antsel_active store batchsel_active antsel_label].
  destruct (antsel_active u); cbn [negb];
    unfold consistent, all_active, none_active, nboxes;
    cbn [antsel_active store batchsel_active antsel_label];
    rewrite set_all_length, H;
    change (num_legend_objs 64) with 4; cbn;
    repeat split; intros; try discriminate; auto.
Qed.

Lemma box_step (u : ui) (b : nat) :
  List.length (store u) = 64 -> consistent u ->
  let u' := step u (ClickBox b) in
  List.length (store u') = 64 /\ consistent u' /\
  (all_active u' = false -> none_active u' = false ->
   antsel_active u' = antsel_active u /\ antsel_label u' = antsel_label u).
Proof.
  intros H Hc u'. subst u'. unfold step. rewrite (nboxes_64 u H).
  destruct (b <? 4)%nat; [|auto].
  set (a' := tick 4 (batchsel_active u) b).
  destruct (batch_callback_64
              (mkUi (store u) (antsel_active u) (antsel_label u) a') H)
    as (st' & L & E).
  rewrite E. cbn [state_of batchsel_active antsel_active antsel_label].
  destruct (tick_four (batchsel_active u) b) as [Hall Hnone]. fold a' in Hall, Hnone.
  assert (Hall' : forall a l, all_active (mkUi st' a l a') = true <-> List.length a' = 4).
  { intros a l. unfold all_active, nboxes. cbn [store batchsel_active].
    rewrite L. exact Hall. }
  assert (Hnone' : forall a l, none_active (mkUi st' a l a') = true <-> List.length a' = 0).
  { intros a l. unfold none_active, nboxes. cbn [store batchsel_active].
    rewrite L. exact Hnone. }
  destruct Hc as (_ & _ & Hon & Hoff).
  destruct (Nat.eqb_spec (List.length a') 4) as [E4|N4].
  - split; [exact L|]. split.
    + unfold consistent. cbn [antsel_active antsel_label].
      rewrite Hall', Hnone'. repeat split; intros; auto; try lia; discriminate.
    + intros Hf _. exfalso.
      apply (proj2 (Hall' true "Deselect all Antennas"%string)) in E4.
      rewrite E4 in Hf. discriminate Hf.
  - destruct (Nat.eqb_spec (List.length a') 0) as [E0|N0].
    + split; [exact L|]. split.
      * unfold consistent. cbn [antsel_active antsel_label].
        rewrite Hall', Hnone'. repeat split; intros; auto; try lia; discriminate.
      * intros _ Hf. exfalso.
        apply (proj2 (Hnone' false "Select all Antennas"%string)) in E0.
        rewrite E0 in Hf. discriminate Hf.
    + split; [exact L|]. split.
      * unfold consistent. cbn [antsel_active antsel_label].
        rewrite Hall', Hnone'. repeat split; intros; auto; lia.
      * intros _ _. split; reflexivity.
Qed.

Lemma run_consistent (u : ui) (cs : list click) :
  List.length (store u) = 64 -> consistent u ->
  List.length (store (run u cs)) = 64 /\ consistent (run u cs).
Proof.
  revert u. induction cs as [|c cs IH]; intros u H Hc; [now split|].
  cbn [run fold_left]. apply IH.
  - destruct c as [|b].
    + apply (select_all_step u H).
    + apply (box_step u b H Hc).
  - destruct c as [|b].
    + apply (select_all_step u H).
    + apply (box_step u b H Hc).
Qed.

Lemma initial_consistent (E : Type) (y1_err : Z -> E) (plotants : list Z) :
  List.length plotants = 64 ->
  List.length (store (initial (render y1_err plotants))) = 64 /\
  consistent (initial (render y1_err plotants)).
Proof.
  intro H.
  assert (L : List.length (store (initial (render y1_err plotants))) = 64).
  { unfold initial, render. cbn [store]. now rewrite !length_map. }
  split; [exact L|].
  unfold consistent, all_active, none_active, nboxes. rewrite L.
  change (num_legend_objs 64) with 4. cbn.
  repeat split; intros; try discriminate; auto.
Qed.

(** C1 (as amended).  For an antenna selection of 64 antennas, which makes
    exactly four full batches, and for every sequence of select-all and
    check-box clicks: after each click, when all four boxes are ticked the
    select-all toggle is on and labelled "Deselect all Antennas", and when
    no box is ticked it is off and labelled to select; right after a
    select-all click the toggle's boolean is the logical AND of all boxes;
    a check-box click that leaves some but not all boxes ticked leaves the
    toggle's boolean and label as they were. *)
Theorem select_all_consistency (E : Type) (y1_err : Z -> E)
    (plotants : list Z) (cs : list click) :
  List.length plotants = 64 ->
  let u := run (initial (render y1_err plotants)) cs in
  consistent u /\
  (let u' := step u ClickSelectAll in
   antsel_active u' = negb (antsel_active u) /\
   antsel_active u' = all_active u') /\
  (forall b, let u' := step u (ClickBox b) in
     all_active u' = false -> none_active u' = false ->
     antsel_active u' = antsel_active u /\ antsel_label u' = antsel_label u).
Proof.
  intros H u.
  destruct (initial_consistent E y1_err plotants H) as (L0 & C0).
  destruct (run_consistent _ cs L0 C0) as (L & C). fold u in L, C.
  split; [exact C|]. split.
  - destruct (select_all_step u L) as (_ & _ & Hflip & Hand & _). now split.
  - intro b. exact (proj2 (proj2 (box_step u b L C))).
Qed.

Lemma select_all_consistency_witness :
  consistent (run (initial (render (fun _ => tt) (map Z.of_nat (seq 0 64))))
                  [ClickBox 2; ClickSelectAll; ClickBox 0]).
Proof.
  apply (proj1 (select_all_consistency unit (fun _ => tt)
                  (map Z.of_nat (seq 0 64)) [ClickBox 2; ClickSelectAll; ClickBox 0]
                  eq_refl)).
Defined.

(** C1 as stated fails: with four full batches, after "select all" and
    then a click that unticks box 0, the toggle is still on and labelled
    "Deselect all Antennas" while the AND of the boxes is false. *)
Lemma select_all_counterexample :
  let u := run (initial (render (fun _ => tt) (map Z.of_nat (seq 0 64))))
               [ClickSelectAll; ClickBox 0] in
  batchsel_active u = [1; 2; 3] /\
  all_active u = false /\
  antsel_active u = true /\
  antsel_label u = "Deselect all Antennas"%string.
Proof. vm_compute. repeat split. Qed.

(** With 20 antennas there are two batches, the second of four glyphs:
    the callback stops at [bax1[1][4]], before it reaches the lines that
    set the toggle, so ticking both boxes leaves the toggle off. *)
Remark two_batches_out_of_sync :
  let u0 := initial (render (fun _ => tt) (map Z.of_nat (seq 0 20))) in
  (exists u1,
      batch_select_callback
        (mkUi (store u0) (antsel_active u0) (antsel_label u0) [0]) = Threw u1) /\
  all_active (run u0 [ClickBox 0; ClickBox 1]) = true /\
  antsel_active (run u0 [ClickBox 0; ClickBox 1]) = false.
Proof. vm_compute. split; [eexists; reflexivity|split; reflexivity]. Qed.

(** With 80 antennas there are five boxes; "select all" ticks the first
    four only and turns the toggle on. *)
Remark five_batches_out_of_sync :
  let u := run (initial (render (fun _ => tt) (map Z.of_nat (seq 0 80))))
               [ClickSelectAll] in
  nboxes u = 5 /\ batchsel_active u = [0; 1; 2; 3] /\
  all_active u = false /\ antsel_active u = true.
Proof. vm_compute. repeat split. Qed.

End WidgetsSpec.

(* ================================================================= *)
(** ** Phase unwrapping *)

Section UnwrapFacts.
Import Numpy Series.
Local Open Scope list_scope.
Local Open Scope R_scope.

Lemma fmod_range (x y : R) : 0 < y -> 0 <= fmod x y < y.
Proof.
  intro Hy. unfold fmod.
  destruct (base_Int_part (x / y)) as [H1 H2].
  assert (E : x / y * y = x) by (field; lra).
  set (k := IZR (Int_part (x / y))) in *.
  assert (k * y <= x / y * y) by (apply Rmult_le_compat_r; lra).
  assert (x / y * y < (k + 1) * y) by (apply Rmult_lt_compat_r; lra).
  lra.
Qed.

(** A step and its correction together never exceed pi in size. *)
Lemma corrected_step (dd : R) : Rabs (dd + ph_correct dd) <= PI.
Proof.
  pose proof PI_RGT_0 as Hpi.
  unfold ph_correct. cbv zeta.
  destruct (Rlt_dec (Rabs dd) PI) as [Hs|Hb].
  - replace (dd + 0) with dd by lra. lra.
  - destruct (fmod_range (dd + PI) (2 * PI)) as [F1 F2]; [lra|].
    set (m := fmod (dd + PI) (2 * PI) - PI) in *.
    destruct (Req_dec_T m (- PI)) as [E|N].
    + destruct (Rlt_dec 0 dd).
      * replace (dd + (PI - dd)) with PI by lra. rewrite Rabs_right; lra.
      * replace (dd + (m - dd)) with m by lra. rewrite E, Rabs_Ropp, Rabs_right; lra.
    + replace (dd + (m - dd)) with m by lra.
      apply Rabs_le. unfold m. lra.
Qed.

(** A correction is a whole number of turns. *)
Lemma ph_correct_turns (dd : R) : congruent (2 * PI) (ph_correct dd) 0.
Proof.
  unfold congruent, ph_correct. cbv zeta.
  destruct (Rlt_dec (Rabs dd) PI) as [Hs|Hb].
  - exists 0%Z. lra.
  - unfold fmod.
    set (k := Int_part ((dd + PI) / (2 * PI))).
    destruct (Req_dec_T (dd + PI - IZR k * (2 * PI) - PI) (- PI)) as [E|N].
    + destruct (Rlt_dec 0 dd).
      * exists (1 - k)%Z. rewrite minus_IZR. lra.
      * exists (- k)%Z. rewrite opp_IZR. lra.
    + exists (- k)%Z. rewrite opp_IZR. lra.
Qed.

Lemma congruent_add (m a b x y : R) :
  congruent m a x -> congruent m b y -> congruent m (a + b) (x + y).
Proof.
  intros [k Hk] [j Hj]. exists (k + j)%Z. rewrite plus_IZR. lra.
Qed.

Lemma congruent_refl (m x : R) : congruent m x x.
Proof. exists 0%Z. lra. Qed.

(** The tail of [np.unwrap]'s result, for any running correction. *)
Lemma unwrap_tail_steps (tl : list R) :
  forall a acc,
    steps_within PI
      ((a + acc) :: zip_add tl (cumsum_from acc (map ph_correct (diff (a :: tl))))).
Proof.
  induction tl as [|b tl IH]; intros a acc; [exact I|].
  cbn [diff map cumsum_from zip_add steps_within]. split.
  - replace (b + (acc + ph_correct (b - a)) - (a + acc))
      with ((b - a) + ph_correct (b - a)) by lra.
    apply corrected_step.
  - apply IH.
Qed.

Lemma unwrap_steps (p : list R) : steps_within PI (unwrap p).
Proof.
  destruct p as [|a tl]; [exact I|].
  unfold unwrap, cumsum.
  pose proof (unwrap_tail_steps tl a 0) as H.
  now replace (a + 0) with a in H by lra.
Qed.

Lemma unwrap_tail_congruent (tl : list R) :
  forall a acc,
    congruent (2 * PI) acc 0 ->
    Forall2 (congruent (2 * PI))
      (zip_add tl (cumsum_from acc (map ph_correct (diff (a :: tl))))) tl.
Proof.
  induction tl as [|b tl IH]; intros a acc Hacc; [constructor|].
  cbn [diff map cumsum_from zip_add].
  assert (Hnext : congruent (2 * PI) (acc + ph_correct (b - a)) 0).
  { replace 0 with (0 + 0) by lra.
    apply congruent_add; [exact Hacc|apply ph_correct_turns]. }
  constructor.
  - destruct Hnext as [k Hk]. exists k. lra.
  - now apply IH.
Qed.

Lemma unwrap_congruent (p : list R) : Forall2 (congruent (2 * PI)) (unwrap p) p.
Proof.
  destruct p as [|a tl]; [constructor|].
  unfold unwrap, cumsum. constructor; [apply congruent_refl|].
  apply unwrap_tail_congruent. apply congruent_refl.
Qed.

Lemma unwrap_tail_fixed (tl : list R) :
  forall a acc,
    acc = 0 -> steps_below PI (a :: tl) ->
    zip_add tl (cumsum_from acc (map ph_correct (diff (a :: tl)))) = tl.
Proof.
  induction tl as [|b tl IH]; intros a acc Hacc Hs; [reflexivity|].
  cbn [steps_below] in Hs. destruct Hs as [Hstep Hs].
  cbn [diff map cumsum_from zip_add].
  rewrite (ph_correct_small _ Hstep).
  f_equal; [lra|]. apply IH; [lra|exact Hs].
Qed.

(** A phase series without a jump of pi or more is left as it is. *)
Lemma unwrap_fixed (p : list R) : steps_below PI p -> unwrap p = p.
Proof.
  destruct p as [|a tl]; [reflexivity|]. intro Hs.
  unfold unwrap, cumsum. f_equal. now apply unwrap_tail_fixed.
Qed.

Lemma steps_within_deg (l : list R) :
  steps_within PI l -> steps_within 180 (map rad2deg l).
Proof.
  pose proof PI_RGT_0 as Hpi.
  induction l as [|a [|c tl] IH]; intro H; try exact I.
  cbn [steps_within] in H. destruct H as [H1 H2].
  change (map rad2deg (a :: c :: tl))
    with (rad2deg a :: map rad2deg (c :: tl)).
  change (map rad2deg (c :: tl)) with (rad2deg c :: map rad2deg tl) at 1.
  cbn [steps_within]. split.
  - unfold rad2deg.
    replace (c * (180 / PI) - a * (180 / PI)) with ((c - a) * (180 / PI)) by lra.
    rewrite Rabs_mult. rewrite (Rabs_right (180 / PI)).
    + replace 180 with (PI * (180 / PI)) at 2 by (field; lra).
      apply Rmult_le_compat_r; [|exact H1].
      apply Rlt_le. apply Rdiv_lt_0_compat; lra.
    + apply Rle_ge, Rlt_le. apply Rdiv_lt_0_compat; lra.
  - apply (IH H2).
Qed.

Lemma congruent_deg (l p : list R) :
  Forall2 (congruent (2 * PI)) l p ->
  Forall2 (congruent 360) (map rad2deg l) (map rad2deg p).
Proof.
  pose proof PI_RGT_0 as Hpi.
  induction 1 as [|u x l p [k Hk] _ IH]; cbn [map]; constructor; [|exact IH].
  exists k. unfold rad2deg.
  replace (u * (180 / PI) - x * (180 / PI)) with ((u - x) * (180 / PI)) by lra.
  rewrite Hk. field. lra.
Qed.

End UnwrapFacts.

Section PhaseSeries.
Import Numpy Transform Bandpass Series.
Local Open Scope list_scope.
Local Open Scope R_scope.

Lemma data_prep_G_ap (md me : masked3 complex) (corr : Z) :
  in_bounds md corr = true -> in_bounds me corr = true ->
  data_prep_G md me "ap" corr
  = Ok (Masked (mkMasked1 (map cabs (values_at md (position corr (dim2 md))))
                          (flags_at md (position corr (dim2 md)))),
        Masked (mkMasked1 (map cabs (values_at me (position corr (dim2 me))))
                          (flags_at me (position corr (dim2 me)))),
        Plain (map rad2deg (unwrap (map angle
                 (values_at md (position corr (dim2 md)))))),
        None).
Proof.
  intros Hd He. unfold data_prep_G. cbn [String.eqb Ascii.eqb Bool.eqb].
  rewrite !index_col_ufunc, Hd, He. reflexivity.
Qed.

Lemma values_at_length (T : Type) (a : masked3 T) (c : nat) :
  List.length (values_at a c) = dim0 a.
Proof. unfold values_at. now rewrite length_map, length_seq. Qed.

Lemma unwrap_length (p : list R) : List.length (unwrap p) = List.length p.
Proof.
  pose proof (unwrap_congruent p) as H.
  now apply Forall2_length in H.
Qed.

(** In amplitude-phase mode the gain phases come out without a jump:
    neighbouring entries of [y2] are at most 180 degrees apart, and there
    is one entry per time sample, flagged or not. *)
Theorem gain_phase_steps (masked_data masked_data_err : masked3 complex)
    (corr : Z) :
  in_bounds masked_data corr = true ->
  in_bounds masked_data_err corr = true ->
  exists y1 y1_err y2,
    data_prep_G masked_data masked_data_err "ap" corr
    = Ok (y1, y1_err, Plain y2, None) /\
    steps_within 180 y2 /\
    List.length y2 = dim0 masked_data.
Proof.
  intros Hd He. do 3 eexists. split; [apply data_prep_G_ap; assumption|].
  split.
  - apply steps_within_deg, unwrap_steps.
  - now rewrite length_map, unwrap_length, length_map, values_at_length.
Qed.

Lemma gain_phase_steps_witness :
  exists y1 y1_err y2,
    data_prep_G two_samples two_samples "ap" 0
    = Ok (y1, y1_err, Plain y2, None) /\
    steps_within 180 y2 /\
    List.length y2 = dim0 two_samples.
Proof.
  apply (gain_phase_steps two_samples two_samples 0%Z eq_refl eq_refl).
Defined.

(** Unwrapping only adds whole turns: every entry of [y2] is the phase of
    its value in degrees up to a multiple of 360. *)
Theorem gain_phase_modulo (masked_data masked_data_err : masked3 complex)
    (corr : Z) :
  in_bounds masked_data corr = true ->
  in_bounds masked_data_err corr = true ->
  exists y1 y1_err y2,
    data_prep_G masked_data masked_data_err "ap" corr
    = Ok (y1, y1_err, Plain y2, None) /\
    Forall2 (congruent 360) y2
      (map (fun z => rad2deg (angle z))
           (values_at masked_data (position corr (dim2 masked_data)))).
Proof.
  intros Hd He. do 3 eexists. split; [apply data_prep_G_ap; assumption|].
  rewrite <- (map_map angle rad2deg).
  apply congruent_deg, unwrap_congruent.
Qed.

Lemma gain_phase_modulo_witness :
  exists y1 y1_err y2,
    data_prep_G two_samples two_samples "ap" 0
    = Ok (y1, y1_err, Plain y2, None) /\
    Forall2 (congruent 360) y2
      (map (fun z => rad2deg (angle z))
           (values_at two_samples (position 0 (dim2 two_samples)))).
Proof.
  apply (gain_phase_modulo two_samples two_samples 0%Z eq_refl eq_refl).
Defined.

(** When no two neighbouring values differ in phase by pi or more, [y2] is
    exactly the phase of each value in degrees. *)
Theorem gain_phase_plain (masked_data masked_data_err : masked3 complex)
    (corr : Z) :
  in_bounds masked_data corr = true ->
  in_bounds masked_data_err corr = true ->
  steps_below PI
    (map angle (values_at masked_data (position corr (dim2 masked_data)))) ->
  exists y1 y1_err,
    data_prep_G masked_data masked_data_err "ap" corr
    = Ok (y1, y1_err,
          Plain (map (fun z => rad2deg (angle z))
                     (values_at masked_data (position corr (dim2 masked_data)))),
          None).
Proof.
  intros Hd He Hs. do 2 eexists.
  rewrite (data_prep_G_ap _ _ _ Hd He), (unwrap_fixed _ Hs), map_map.
  reflexivity.
Qed.

Lemma gain_phase_plain_witness :
  exists y1 y1_err,
    data_prep_G two_samples two_samples "ap" 0
    = Ok (y1, y1_err,
          Plain (map (fun z => rad2deg (angle z))
                     (values_at two_samples (position 0 (dim2 two_samples)))),
          None).
Proof.
  apply (gain_phase_plain two_samples two_samples 0%Z eq_refl eq_refl).
  change (values_at two_samples (position 0 (dim2 two_samples)))
    with [(1, 1); (2, 0)].
  cbn [map steps_below]. rewrite angle_1_1, angle_2_0.
  pose proof PI_RGT_0. split; [|exact I]. rewrite Rabs_left; lra.
Defined.

End PhaseSeries.

Section GainSpec.
Import Numpy Transform Series.
Local Open Scope list_scope.
Local Open Scope R_scope.

Lemma arctan2_range (y x : R) : - PI < arctan2 y x <= PI.
Proof.
  pose proof PI_RGT_0 as Hpi. unfold arctan2.
  destruct (Rlt_dec 0 x) as [Hx|Hx].
  - pose proof (atan_bound (y / x)). lra.
  - destruct (Rlt_dec x 0) as [Hn|Hn].
    + pose proof (atan_bound (y / x)) as Hb.
      destruct (Rle_dec 0 y) as [Hy|Hy].
      * assert (Hq : y / x <= 0).
        { unfold Rdiv. assert (/ x < 0) by now apply Rinv_lt_0_compat. nra. }
        assert (atan (y / x) <= 0).
        { destruct Hq as [Hq|Hq]; [|rewrite Hq, atan_0; lra].
          apply Rlt_le. rewrite <- atan_0. now apply atan_increasing. }
        lra.
      * assert (Hq : 0 < y / x).
        { unfold Rdiv. assert (/ x < 0) by now apply Rinv_lt_0_compat. nra. }
        assert (0 < atan (y / x)).
        { rewrite <- atan_0. now apply atan_increasing. }
        lra.
    + destruct (Rlt_dec 0 y); [lra|]. destruct (Rlt_dec y 0); lra.
Qed.

Lemma hypot_scale (x y : R) :
  x <> 0 -> sqrt (x * x + y * y) = Rabs x * sqrt (1 + (y / x)²).
Proof.
  intro Hx.
  replace (x * x + y * y) with ((x * x) * (1 + (y / x)²))
    by (unfold Rsqr; field; exact Hx).
  rewrite sqrt_mult.
  - f_equal. change (x * x) with (Rsqr x). apply sqrt_Rsqr_abs.
  - nra.
  - pose proof (Rle_0_sqr (y / x)). lra.
Qed.

Lemma hypot_pos (t : R) : 0 < sqrt (1 + t²).
Proof. apply sqrt_lt_R0. pose proof (Rle_0_sqr t). lra. Qed.

(** [np.abs] and [np.angle] give the polar form of a complex number. *)
Lemma abs_angle_polar (z : complex) : polar z (cabs z) (angle z).
Proof.
  pose proof PI_RGT_0 as Hpi.
  destruct z as [x y]. unfold polar, cabs, angle, cimag, creal. cbn [fst snd].
  split; [apply sqrt_pos|]. split; [apply arctan2_range|].
  unfold arctan2.
  destruct (Rlt_dec 0 x) as [Hx|Hx].
  - pose proof (hypot_pos (y / x)) as Hs.
    rewrite hypot_scale by lra. rewrite Rabs_right by lra.
    rewrite cos_atan, sin_atan.
    split; [field; lra|]. split; [field; lra|].
    intro H0. exfalso. nra.
  - destruct (Rlt_dec x 0) as [Hn|Hn].
    + pose proof (hypot_pos (y / x)) as Hs.
      rewrite hypot_scale by lra. rewrite Rabs_left by lra.
      assert (Hm : - x * sqrt (1 + (y / x)²) = 0 -> False) by (intro; nra).
      destruct (Rle_dec 0 y) as [Hy|Hy].
      * rewrite neg_cos, neg_sin, cos_atan, sin_atan.
        split; [field; lra|]. split; [field; lra|]. intro H0. now exfalso.
      * rewrite cos_minus, sin_minus, cos_PI, sin_PI, cos_atan, sin_atan.
        split; [field; lra|]. split; [field; lra|]. intro H0. now exfalso.
    + assert (E : x = 0) by lra. subst x.
      replace (0 * 0 + y * y) with (y * y) by lra.
      destruct (Rlt_dec 0 y) as [Hy|Hy].
      * rewrite sqrt_square by lra. rewrite cos_PI2, sin_PI2.
        split; [lra|]. split; [lra|]. intro; lra.
      * destruct (Rlt_dec y 0) as [Hy'|Hy'].
        -- replace (y * y) with ((- y) * (- y)) by lra.
           rewrite sqrt_square by lra. rewrite cos_neg, sin_neg, cos_PI2, sin_PI2.
           split; [lra|]. split; [lra|]. intro; lra.
        -- assert (E : y = 0) by lra. subst y.
           replace (0 * 0) with 0 by lra.
           rewrite sqrt_0, cos_0, sin_0. split; [lra|]. split; [lra|]. reflexivity.
Qed.

(** [np.unwrap] unwraps. *)
Lemma unwrap_unwrapped (p : list R) : unwrapped p (unwrap p).
Proof.
  split; [now destruct p|]. split; [apply unwrap_congruent|apply unwrap_steps].
Qed.

Lemma rad2deg_PI (x : R) : rad2deg x * PI = x * 180.
Proof. pose proof PI_RGT_0. unfold rad2deg. field. lra. Qed.

Lemma angle_m1_1 : angle (-1, 1) = 3 * (PI / 4).
Proof.
  unfold angle, arctan2, cimag, creal. cbn [fst snd].
  destruct (Rlt_dec 0 (-1)) as [N|_]; [lra|].
  destruct (Rlt_dec (-1) 0) as [_|N]; [|lra].
  destruct (Rle_dec 0 1) as [_|N]; [|lra].
  replace (1 / -1) with (Ropp 1) by lra. rewrite atan_opp, atan_1. lra.
Qed.

Lemma angle_m1_m1 : angle (-1, -1) = - (3 * (PI / 4)).
Proof.
  unfold angle, arctan2, cimag, creal. cbn [fst snd].
  destruct (Rlt_dec 0 (-1)) as [N|_]; [lra|].
  destruct (Rlt_dec (-1) 0) as [_|N]; [|lra].
  destruct (Rle_dec 0 (-1)) as [N|_]; [lra|].
  replace (-1 / -1) with 1 by lra. rewrite atan_1. lra.
Qed.

(** The one unwrapping of a quarter turn past the cut. *)
Lemma unwrapped_across_cut (u : list R) :
  unwrapped [3 * (PI / 4); - (3 * (PI / 4))] u ->
  u = [3 * (PI / 4); 5 * (PI / 4)].
Proof.
  pose proof PI_RGT_0 as Hpi.
  intros (Hh & Hc & Hs).
  inversion Hc as [|a x l p Ha Hl]; subst.
  inversion Hl as [|b x' l' p' Hb Hl']; subst.
  inversion Hl'; subst. clear Hc Hl Hl' Ha.
  cbn [hd_error] in Hh. inversion Hh; subst a. clear Hh.
  cbn [steps_within] in Hs. destruct Hs as [Hs _].
  destruct Hb as [k Hk].
  pose proof (Rle_abs (b - 3 * (PI / 4))) as Hu.
  pose proof (Rle_abs (- (b - 3 * (PI / 4)))) as Hl. rewrite Rabs_Ropp in Hl.
  assert (K1 : (0 < k)%Z) by (apply lt_IZR; nra).
  assert (K2 : (k < 2)%Z) by (apply lt_IZR; nra).
  assert (E : k = 1%Z) by lia. subst k.
  f_equal. f_equal. lra.
Qed.

(** C2.  For the gain-type transform, for every masked value array,
    masked error array and correlation index: when channel 0 exists and
    the index lies inside the correlation axis of both arrays, then in
    amplitude-phase mode [y1] is the modulus of the values at that
    correlation (flags kept), [y2] their phase, unwrapped and then
    converted to degrees, [y1_err] the modulus of the errors and [y2_err]
    is None, and in real-imaginary mode [y1] is the real part, [y2] the
    imaginary part, [y1_err] the modulus of the errors and [y2_err] is
    None; otherwise the indexing raises IndexError.  Here modulus and
    phase are those of the polar form [m (cos t + i sin t)] with [t] in
    (-pi, pi]; unwrapped means that the series starts at the first phase,
    that every entry is its phase plus a whole number of turns, and that
    neighbouring entries are at most half a turn apart; and a value in
    degrees is 180/pi times the value in radians.  For the two unflagged
    values 1+1j and 2+0j in amplitude-phase mode, [y1] is [1.414, 2.0]
    (the first to three decimals) and [y2] is [45, 0]. *)
Theorem data_prep_G_spec :
  (forall (masked_data masked_data_err : masked3 complex) (corr : Z),
      let c := position corr (dim2 masked_data) in
      let ce := position corr (dim2 masked_data_err) in
      let y1_err := Masked (mkMasked1 (map cabs (values_at masked_data_err ce))
                                      (flags_at masked_data_err ce)) in
      data_prep_G masked_data masked_data_err "ap" corr
      = (if in_bounds masked_data corr && in_bounds masked_data_err corr then
           Ok (Masked (mkMasked1 (map cabs (values_at masked_data c))
                                 (flags_at masked_data c)),
               y1_err,
               Plain (map rad2deg (unwrap (map angle (values_at masked_data c)))),
               None)
         else Raise IndexError) /\
      data_prep_G masked_data masked_data_err "ri" corr
      = (if in_bounds masked_data corr && in_bounds masked_data_err corr then
           Ok (Masked (mkMasked1 (map creal (values_at masked_data c))
                                 (flags_at masked_data c)),
               y1_err,
               Masked (mkMasked1 (map cimag (values_at masked_data c))
                                 (flags_at masked_data c)),
               None)
         else Raise IndexError)) /\
  (forall z : complex, polar z (cabs z) (angle z)) /\
  (forall (masked_data masked_data_err : masked3 complex) (corr : Z),
      in_bounds masked_data corr = true ->
      in_bounds masked_data_err corr = true ->
      exists y1 y1_err u y2,
        data_prep_G masked_data masked_data_err "ap" corr
        = Ok (y1, y1_err, Plain y2, None) /\
        unwrapped
          (map angle (values_at masked_data (position corr (dim2 masked_data))))
          u /\
        Forall2 (fun rad deg => deg * PI = rad * 180) u y2) /\
  (forall masked_data_err : masked3 complex,
      in_bounds masked_data_err 0 = true ->
      exists a y1_err,
        data_prep_G two_samples masked_data_err "ap" 0
        = Ok (Masked (mkMasked1 [a; 2] [false; false]), y1_err,
              Plain [45; 0], None) /\
        Rabs (a - 1.414) < 0.0005).
Proof.
  assert (General : forall (md me : masked3 complex) (corr : Z),
      data_prep_G md me "ap" corr
      = (if in_bounds md corr && in_bounds me corr then
           Ok (Masked (mkMasked1 (map cabs (values_at md (position corr (dim2 md))))
                                 (flags_at md (position corr (dim2 md)))),
               Masked (mkMasked1 (map cabs (values_at me (position corr (dim2 me))))
                                 (flags_at me (position corr (dim2 me)))),
               Plain (map rad2deg (unwrap (map angle
                        (values_at md (position corr (dim2 md)))))),
               None)
         else Raise IndexError) /\
      data_prep_G md me "ri" corr
      = (if in_bounds md corr && in_bounds me corr then
           Ok (Masked (mkMasked1 (map creal (values_at md (position corr (dim2 md))))
                                 (flags_at md (position corr (dim2 md)))),
               Masked (mkMasked1 (map cabs (values_at me (position corr (dim2 me))))
                                 (flags_at me (position corr (dim2 me)))),
               Masked (mkMasked1 (map cimag (values_at md (position corr (dim2 md))))
                                 (flags_at md (position corr (dim2 md)))),
               None)
         else Raise IndexError)).
  { intros md me corr. unfold data_prep_G.
    cbn [String.eqb Ascii.eqb Bool.eqb].
    rewrite !index_col_ufunc.
    destruct (in_bounds md corr); [|split; reflexivity].
    destruct (in_bounds me corr); split; reflexivity. }
  split; [|split; [|split]].
  - intros md me corr c ce y1_err. subst c ce y1_err. apply General.
  - exact abs_angle_polar.
  - intros md me corr Hd He. do 4 eexists.
    split; [exact (data_prep_G_ap md me corr Hd He)|].
    split; [apply unwrap_unwrapped|].
    generalize (unwrap (map angle (values_at md (position corr (dim2 md))))).
    intro u. induction u as [|r u IH]; cbn [map]; constructor;
      [apply rad2deg_PI|exact IH].
  - intros me Hb.
    destruct (General two_samples me 0%Z) as [Hap _].
    rewrite Hb in Hap. change (in_bounds two_samples 0) with true in Hap.
    cbn [andb] in Hap.
    exists (cabs (1, 1)). eexists. split; [|exact cabs_1_1].
    rewrite Hap.
    change (values_at two_samples (position 0 (dim2 two_samples)))
      with [(1, 1); (2, 0)].
    cbn [map]. rewrite cabs_2_0, angle_1_1, angle_2_0, unwrap_quarter_zero.
    cbn [map]. rewrite rad2deg_quarter, rad2deg_zero. reflexivity.
Qed.

(** Two unflagged samples on either side of the cut of the phase, -1+1j
    at 135 degrees and -1-1j at -135 degrees: the second comes out as 225
    degrees, a quarter turn on from the first. *)
Lemma data_prep_G_spec_witness :
  let md := mkMasked3 2 1 1
              (fun i _ _ => match i with O => (-1, 1) | _ => (-1, -1) end)
              (fun _ _ _ => false) in
  exists y1 y1_err,
    data_prep_G md md "ap" 0 = Ok (y1, y1_err, Plain [135; 225], None).
Proof.
  intro md.
  destruct (proj1 (proj2 (proj2 data_prep_G_spec)) md md 0%Z eq_refl eq_refl)
    as (y1 & y1_err & u & y2 & E & Hu & Hdeg).
  exists y1, y1_err. rewrite E. clear E.
  change (values_at md (position 0 (dim2 md))) with [(-1, 1); (-1, -1)] in Hu.
  cbn [map] in Hu. rewrite angle_m1_1, angle_m1_m1 in Hu.
  apply unwrapped_across_cut in Hu. subst u.
  inversion Hdeg as [|r0 d0 l0 l0' H0 Hdeg']; subst.
  inversion Hdeg' as [|r1 d1 l1 l1' H1 Hdeg'']; subst.
  inversion Hdeg''; subst.
  pose proof PI_RGT_0 as Hpi.
  assert (E0 : d0 = 135) by (apply (Rmult_eq_reg_r PI); lra).
  assert (E1 : d1 = 225) by (apply (Rmult_eq_reg_r PI); lra).
  now rewrite E0, E1.
Defined.

End GainSpec.

Section BandpassFacts.
Import Numpy Transform Bandpass Series.
Local Open Scope list_scope.
Local Open Scope R_scope.

Lemma index_row_total (T : Type) (a : masked3 T) (corr : Z) :
  index_row a 0 corr
  = if in_bounds_row a corr
    then Ok (mkMasked1 (channel_values a (position corr (dim2 a)))
                       (channel_flags a (position corr (dim2 a))))
    else Raise IndexError.
Proof.
  unfold index_row, in_bounds_row, bind. rewrite norm_index_zero, norm_index_total.
  destruct (1 <=? dim0 a)%nat; [|reflexivity]. cbn [andb].
  now destruct ((- Z.of_nat (dim2 a) <=? corr)%Z && (corr <? Z.of_nat (dim2 a))%Z)%bool.
Qed.

Lemma index_row_ufunc (A B : Type) (f : A -> B) (a : masked3 A) (corr : Z) :
  index_row (ufunc f a) 0 corr
  = if in_bounds_row a corr
    then Ok (mkMasked1 (map f (channel_values a (position corr (dim2 a))))
                       (channel_flags a (position corr (dim2 a))))
    else Raise IndexError.
Proof.
  rewrite index_row_total.
  change (in_bounds_row (ufunc f a) corr) with (in_bounds_row a corr).
  change (dim2 (ufunc f a)) with (dim2 a).
  destruct (in_bounds_row a corr); [|reflexivity].
  unfold channel_values, ufunc. cbn. now rewrite map_map.
Qed.

Lemma channel_values_length (T : Type) (a : masked3 T) (c : nat) :
  List.length (channel_values a c) = dim1 a.
Proof. unfold channel_values. now rewrite length_map, length_seq. Qed.

Lemma data_prep_B_ap (md me : masked3 complex) (corr : Z) :
  in_bounds_row md corr = true -> in_bounds_row me corr = true ->
  data_prep_B md me "ap" corr
  = Ok (Masked (mkMasked1 (map cabs (channel_values md (position corr (dim2 md))))
                          (channel_flags md (position corr (dim2 md)))),
        Masked (mkMasked1 (map cabs (channel_values me (position corr (dim2 me))))
                          (channel_flags me (position corr (dim2 me)))),
        Plain (map rad2deg (unwrap (map angle
                 (channel_values md (position corr (dim2 md)))))),
        Some (Plain (map rad2deg (unwrap (map angle
                 (channel_values me (position corr (dim2 me)))))))).
Proof.
  intros Hd He. unfold data_prep_B. cbn [String.eqb Ascii.eqb Bool.eqb].
  rewrite !index_row_ufunc, !index_row_total, Hd, He. reflexivity.
Qed.

Lemma angle_real_nonneg (z : complex) : real_nonneg z -> angle z = 0.
Proof.
  intros [H0 Hi]. unfold angle, arctan2, cimag, creal. rewrite Hi.
  destruct (Rlt_dec 0 (fst z)) as [Hp|Hn].
  - replace (0 / fst z) with 0 by (field; lra). apply atan_0.
  - destruct (Rlt_dec (fst z) 0); [lra|].
    destruct (Rlt_dec 0 0); [lra|]. destruct (Rlt_dec 0 0); [lra|reflexivity].
Qed.

Lemma steps_below_zeros (l : list R) :
  Forall (fun v => v = 0) l -> steps_below PI l.
Proof.
  pose proof PI_RGT_0 as Hpi.
  induction 1 as [|a l Ha Hl IH]; [exact I|].
  destruct l as [|c tl]; [exact I|]. cbn [steps_below]. split; [|exact IH].
  inversion Hl; subst. replace (0 - 0) with 0 by lra. now rewrite Rabs_R0.
Qed.

End BandpassFacts.

Section BandpassSpec.
Import Numpy Transform Bandpass Series.
Local Open Scope list_scope.
Local Open Scope R_scope.

(** The bandpass transform in amplitude-phase mode works along the channel
    axis of time sample 0, whatever the other time samples hold: [y1] is
    the modulus of the values of time sample 0, [y2] and [y2_err] both
    come back as plain series with one entry per channel, each entry the
    phase in degrees of the value (of the error) of time sample 0 at that
    channel up to a multiple of 360, and neighbouring entries of either
    are at most 180 degrees apart. *)
Theorem bandpass_phase_steps (masked_data masked_data_err : masked3 complex)
    (corr : Z) :
  in_bounds_row masked_data corr = true ->
  in_bounds_row masked_data_err corr = true ->
  let c := position corr (dim2 masked_data) in
  let ce := position corr (dim2 masked_data_err) in
  exists y1_err y2 y2_err,
    data_prep_B masked_data masked_data_err "ap" corr
    = Ok (Masked (mkMasked1 (map (fun j => cabs (data3 masked_data 0 j c))
                                 (seq 0 (dim1 masked_data)))
                            (map (fun j => mask3 masked_data 0 j c)
                                 (seq 0 (dim1 masked_data)))),
          y1_err, Plain y2, Some (Plain y2_err)) /\
    List.length y2 = dim1 masked_data /\
    List.length y2_err = dim1 masked_data_err /\
    Forall2 (congruent 360) y2
      (map (fun j => rad2deg (angle (data3 masked_data 0 j c)))
           (seq 0 (dim1 masked_data))) /\
    Forall2 (congruent 360) y2_err
      (map (fun j => rad2deg (angle (data3 masked_data_err 0 j ce)))
           (seq 0 (dim1 masked_data_err))) /\
    steps_within 180 y2 /\ steps_within 180 y2_err.
Proof.
  intros Hd He c ce. do 3 eexists.
  split.
  { rewrite (data_prep_B_ap _ _ _ Hd He). unfold channel_values, channel_flags.
    fold c. rewrite (map_map _ cabs). reflexivity. }
  split; [now rewrite length_map, unwrap_length, !length_map, length_seq|].
  split; [now rewrite length_map, unwrap_length, !length_map, length_seq|].
  split.
  { rewrite <- (map_map (fun j => data3 masked_data 0%nat j c)
                        (fun z => rad2deg (angle z))).
    rewrite <- (map_map angle rad2deg).
    apply congruent_deg, unwrap_congruent. }
  split.
  { rewrite <- (map_map (fun j => data3 masked_data_err 0%nat j ce)
                        (fun z => rad2deg (angle z))).
    rewrite <- (map_map angle rad2deg).
    apply congruent_deg, unwrap_congruent. }
  split; apply steps_within_deg, unwrap_steps.
Qed.

(** Two time samples of three channels each: the phases of time sample 0
    run 0, 135 and -135 degrees, a jump at the last step. *)
Lemma bandpass_phase_steps_witness :
  let md := mkMasked3 2 3 1
              (fun i j _ => match i, j with
                            | O, O => (1, 0)
                            | O, S O => (-1, 1)
                            | O, _ => (-1, -1)
                            | _, _ => (0, 1)
                            end)
              (fun _ j _ => Nat.eqb j 1) in
  exists y1_err y2 y2_err,
    data_prep_B md md "ap" 0
    = Ok (Masked (mkMasked1 (map (fun j => cabs (data3 md 0 j 0)) [0; 1; 2]%nat)
                            [false; true; false]),
          y1_err, Plain y2, Some (Plain y2_err)) /\
    List.length y2 = 3%nat /\
    List.length y2_err = 3%nat /\
    Forall2 (congruent 360) y2
      (map (fun j => rad2deg (angle (data3 md 0 j 0))) [0; 1; 2]%nat) /\
    Forall2 (congruent 360) y2_err
      (map (fun j => rad2deg (angle (data3 md 0 j 0))) [0; 1; 2]%nat) /\
    steps_within 180 y2 /\ steps_within 180 y2_err.
Proof.
  intro md.
  exact (bandpass_phase_steps md md 0%Z eq_refl eq_refl).
Defined.

(** The error series of a table are non-negative real numbers, whose
    phase is 0: for such errors the [y2_err] of the bandpass transform in
    amplitude-phase mode is 0 at every channel, whatever the errors are. *)
Theorem bandpass_error_phase_zero (masked_data masked_data_err : masked3 complex)
    (corr : Z) :
  in_bounds_row masked_data corr = true ->
  in_bounds_row masked_data_err corr = true ->
  (forall i j k, real_nonneg (data3 masked_data_err i j k)) ->
  exists y1 y1_err y2 y2_err,
    data_prep_B masked_data masked_data_err "ap" corr
    = Ok (y1, y1_err, y2, Some (Plain y2_err)) /\
    List.length y2_err = dim1 masked_data_err /\
    Forall (fun v => v = 0) y2_err.
Proof.
  intros Hd He Hreal. do 4 eexists. split; [apply data_prep_B_ap; assumption|].
  set (c := position corr (dim2 masked_data_err)).
  assert (Hz : Forall (fun v => v = 0) (map angle (channel_values masked_data_err c))).
  { apply Forall_forall. intros v Hv.
    apply in_map_iff in Hv as (z & <- & Hz).
    unfold channel_values in Hz. apply in_map_iff in Hz as (j & <- & _).
    apply angle_real_nonneg, Hreal. }
  rewrite (unwrap_fixed _ (steps_below_zeros _ Hz)). split.
  - now rewrite !length_map, channel_values_length.
  - apply Forall_forall. intros v Hv. apply in_map_iff in Hv as (a & <- & Ha).
    rewrite Forall_forall in Hz. rewrite (Hz a Ha). apply rad2deg_zero.
Qed.

Lemma bandpass_error_phase_zero_witness :
  let me := mkMasked3 1 3 1 (fun _ j _ => (INR j, 0)) (fun _ _ _ => false) in
  exists y1 y1_err y2 y2_err,
    data_prep_B two_samples me "ap" 0 = Ok (y1, y1_err, y2, Some (Plain y2_err)) /\
    List.length y2_err = dim1 me /\
    Forall (fun v => v = 0) y2_err.
Proof.
  intro me.
  apply (bandpass_error_phase_zero two_samples me 0%Z eq_refl eq_refl).
  intros i j k. split; [apply pos_INR|reflexivity].
Defined.

End BandpassSpec.

(* ================================================================= *)
(** ** The running axis extents *)

Section ExtentFacts.
Import Ranges Extent.
Local Open Scope list_scope.
Local Open Scope R_scope.

Lemma keep_smaller (a x : R) : (if Rlt_dec a x then a else x) = Rmin x a.
Proof.
  unfold Rmin. destruct (Rlt_dec a x), (Rle_dec x a); lra.
Qed.

Lemma keep_larger (a x : R) : (if Rgt_dec a x then a else x) = Rmax x a.
Proof.
  unfold Rmax. destruct (Rgt_dec a x), (Rle_dec x a); lra.
Qed.

Lemma fold_antenna_eq (e : extents) (a : antenna_extent) :
  fold_antenna e a
  = mkExtents (Rmin (xmin e) (tmin a)) (Rmax (xmax e) (tmax a))
              (Rmin (yumin e) (y1min a)) (Rmax (yumax e) (y1max a))
              (Rmin (ylmin e) (y2min a)) (Rmax (ylmax e) (y2max a)).
Proof.
  unfold fold_antenna. now rewrite !keep_smaller, !keep_larger.
Qed.

Lemma fold_antenna_swap (e : extents) (a b : antenna_extent) :
  fold_antenna (fold_antenna e a) b = fold_antenna (fold_antenna e b) a.
Proof.
  rewrite !fold_antenna_eq. cbn [xmin xmax yumin yumax ylmin ylmax].
  f_equal; rewrite <- ?Rmin_assoc, <- ?Rmax_assoc;
    first [now rewrite (Rmin_comm (_ a) (_ b)) | now rewrite (Rmax_comm (_ a) (_ b))].
Qed.

Lemma fold_antenna_twice (e : extents) (a : antenna_extent) :
  fold_antenna (fold_antenna e a) a = fold_antenna e a.
Proof.
  rewrite !fold_antenna_eq. cbn [xmin xmax yumin yumax ylmin ylmax].
  f_equal; first [apply Rmin_left, Rmin_r | apply Rmax_left, Rmax_r].
Qed.

Lemma fold_permutation (l l' : list antenna_extent) :
  Permutation l l' ->
  forall e, fold_left fold_antenna l e = fold_left fold_antenna l' e.
Proof.
  induction 1 as [|a l l' _ IH|a b l|l l' l'' _ IH1 _ IH2]; intro e; cbn [fold_left].
  - reflexivity.
  - apply IH.
  - now rewrite fold_antenna_swap.
  - now rewrite IH1.
Qed.

Lemma fold_antenna_fields (e : extents) (a : antenna_extent) :
  let f := fold_antenna e a in
  (xmin f <= xmin e /\ xmin f <= tmin a) /\
  (xmax e <= xmax f /\ tmax a <= xmax f) /\
  (yumin f <= yumin e /\ yumin f <= y1min a) /\
  (yumax e <= yumax f /\ y1max a <= yumax f) /\
  (ylmin f <= ylmin e /\ ylmin f <= y2min a) /\
  (ylmax e <= ylmax f /\ y2max a <= ylmax f).
Proof.
  cbv zeta. rewrite fold_antenna_eq. cbn [xmin xmax yumin yumax ylmin ylmax].
  repeat split; first [apply Rmin_l | apply Rmin_r | apply Rmax_l | apply Rmax_r].
Qed.

(** Folding never raises a minimum and never lowers a maximum. *)
Lemma fold_left_widens (l : list antenna_extent) :
  forall e,
    let f := fold_left fold_antenna l e in
    xmin f <= xmin e /\ xmax e <= xmax f /\
    yumin f <= yumin e /\ yumax e <= yumax f /\
    ylmin f <= ylmin e /\ ylmax e <= ylmax f.
Proof.
  induction l as [|a l IH]; intro e; cbn [fold_left].
  - cbv zeta. lra.
  - specialize (IH (fold_antenna e a)).
    pose proof (fold_antenna_fields e a) as F. cbv zeta in *.
    set (e1 := fold_antenna e a) in *.
    set (f := fold_left fold_antenna l e1) in *.
    lra.
Qed.

Lemma fold_left_covers (l : list antenna_extent) :
  forall e a, In a l ->
    let f := fold_left fold_antenna l e in
    xmin f <= tmin a /\ tmax a <= xmax f /\
    yumin f <= y1min a /\ y1max a <= yumax f /\
    ylmin f <= y2min a /\ y2max a <= ylmax f.
Proof.
  induction l as [|b l IH]; intros e a Ha; [contradiction|].
  cbn [fold_left]. destruct Ha as [->|Ha].
  - pose proof (fold_left_widens l (fold_antenna e a)) as H.
    pose proof (fold_antenna_fields e a) as F. cbv zeta in *.
    set (e1 := fold_antenna e a) in *.
    set (f := fold_left fold_antenna l e1) in *.
    lra.
  - now apply IH.
Qed.

End ExtentFacts.

Section ExtentSpec.
Import Ranges Extent.
Local Open Scope list_scope.
Local Open Scope R_scope.

(** The accumulated extents do not depend on the order in which the
    antennas are folded in, and folding in an antenna that is already
    there changes nothing. *)
Theorem accumulate_order_free (l l' : list antenna_extent) (a : antenna_extent) :
  (Permutation l l' -> accumulate l = accumulate l') /\
  (In a l -> accumulate (a :: l) = accumulate l).
Proof.
  split.
  - intro H. unfold accumulate. now apply fold_permutation.
  - intro Ha. apply in_split in Ha as (l1 & l2 & ->).
    unfold accumulate.
    rewrite (fold_permutation (a :: l1 ++ a :: l2) (a :: a :: l1 ++ l2)).
    + rewrite (fold_permutation (l1 ++ a :: l2) (a :: l1 ++ l2)).
      * cbn [fold_left]. now rewrite fold_antenna_twice.
      * symmetry. apply Permutation_middle.
    + constructor. symmetry. apply Permutation_middle.
Qed.

Lemma accumulate_order_free_witness :
  let a := mkAntennaExtent 0 10 1 2 (-3) 4 in
  let b := mkAntennaExtent (-5) 7 0 9 (-1) 1 in
  accumulate [a; b] = accumulate [b; a] /\
  accumulate [a; a; b] = accumulate [a; b].
Proof.
  intros a b. split.
  - apply (proj1 (accumulate_order_free [a; b] [b; a] a)). apply perm_swap.
  - apply (proj2 (accumulate_order_free [a; b] [b; a] a)). now left.
Defined.

Lemma pad_min_below (m : R) : pad_min m <= m.
Proof.
  destruct (Rlt_dec m 0) as [Hn|Hp].
  - rewrite pad_min_neg by exact Hn. lra.
  - rewrite pad_min_nonneg by lra. lra.
Qed.

Lemma ranges_without_options (e : extents) :
  axis_ranges e no_options
  = mkExtents (xmin e - 400) (xmax e + 400)
              (pad_min (yumin e)) (pad_max (yumax e))
              (pad_min (ylmin e)) (pad_max (ylmax e)).
Proof.
  unfold axis_ranges, finalize, bounds_of, no_options.
  cbn [opt_t0 opt_t1 opt_yu0 opt_yu1 opt_yl0 opt_yl1 parsed
       t0 t1 yu0 yu1 yl0 yl1].
  now rewrite !override_default.
Qed.

(** Without range options the finalised ranges hold every folded
    antenna's data on the x-axis and at the lower end of both y-axes; at
    the upper end of a y-axis they do so when the accumulated maximum is
    not negative. *)
Theorem ranges_hold_data (l : list antenna_extent) (a : antenna_extent) :
  In a l ->
  let e := accumulate l in
  let f := axis_ranges e no_options in
  xmin f < tmin a /\ tmax a < xmax f /\
  yumin f <= y1min a /\ ylmin f <= y2min a /\
  (0 <= yumax e -> y1max a <= yumax f) /\
  (0 <= ylmax e -> y2max a <= ylmax f).
Proof.
  intros Ha e f. subst f. rewrite ranges_without_options.
  cbn [xmin xmax yumin yumax ylmin ylmax].
  pose proof (fold_left_covers l start a Ha) as H. cbv zeta in H.
  fold (accumulate l) in H. fold e in H.
  pose proof (pad_min_below (yumin e)). pose proof (pad_min_below (ylmin e)).
  unfold pad_max. repeat split; intros; lra.
Qed.

Lemma ranges_hold_data_witness :
  let a := mkAntennaExtent 0 10 1 2 (-3) 4 in
  let b := mkAntennaExtent (-5) 7 0 9 (-1) 1 in
  let f := axis_ranges (accumulate [a; b]) no_options in
  xmin f < tmin a /\ tmax a < xmax f /\
  yumin f <= y1min a /\ ylmin f <= y2min a.
Proof.
  intros a b f.
  destruct (ranges_hold_data [a; b] a (or_introl eq_refl))
    as (H1 & H2 & H3 & H4 & _).
  repeat split; assumption.
Defined.

(** When the largest value of a panel is negative, the 10 percent "pad"
    moves the upper end of the range below it: the antenna that reaches
    that value has it outside the plotted range. *)
Theorem negative_maximum_is_cut (l : list antenna_extent) (a : antenna_extent) :
  In a l ->
  (forall b, In b l -> y2max b <= y2max a) ->
  -1e20 < y2max a < 0 ->
  ylmax (axis_ranges (accumulate l) no_options) < y2max a.
Proof.
  intros Ha Hmax Hneg. rewrite ranges_without_options. cbn [ylmax].
  assert (E : ylmax (accumulate l) = y2max a).
  { apply Rle_antisym; [|apply (fold_left_covers l start a Ha)].
    unfold accumulate.
    assert (G : forall l0 e, (forall b, In b l0 -> y2max b <= y2max a) ->
                  ylmax e <= y2max a ->
                  ylmax (fold_left fold_antenna l0 e) <= y2max a).
    { induction l0 as [|b l0 IH]; intros e Hb He; [exact He|].
      cbn [fold_left]. apply IH; [intros; apply Hb; now right|].
      rewrite fold_antenna_eq. cbn [ylmax].
      apply Rmax_lub; [exact He|apply Hb; now left]. }
    apply G; [exact Hmax|]. cbn [start ylmax]. lra. }
  rewrite E. unfold pad_max. lra.
Qed.

Lemma negative_maximum_is_cut_witness :
  let a := mkAntennaExtent 0 10 1 2 (-30) (-10) in
  let b := mkAntennaExtent 0 10 1 2 (-40) (-20) in
  ylmax (axis_ranges (accumulate [a; b]) no_options) < -10.
Proof.
  intros a b.
  apply (negative_maximum_is_cut [a; b] a (or_introl eq_refl)).
  - intros c [<-|[<-|[]]]; unfold a, b; cbn [y2max]; lra.
  - unfold a. cbn [y2max]. lra.
Defined.

End ExtentSpec.

(* ================================================================= *)
(** ** More on the table-kind classifier *)

Section ClassifierCase.
Import PyStr Classifier Run Main.

Lemma upper_char_facts (c : ascii) :
  is_digit (upper_char c) = is_digit c /\
  is_kind_letter (upper_char c) = is_kind_letter c /\
  Ascii.eqb (upper_char c) "."%char = Ascii.eqb c "."%char /\
  Ascii.eqb (upper_char c) newline = Ascii.eqb c newline /\
  upper_char (upper_char c) = upper_char c.
Proof.
  destruct c as [[] [] [] [] [] [] [] []]; repeat split; reflexivity.
Qed.

Lemma upper_idempotent (s : string) : upper (upper s) = upper s.
Proof.
  induction s as [|c s IH]; [reflexivity|]. cbn [upper].
  rewrite IH. f_equal. apply upper_char_facts.
Qed.

Lemma at_dollar_upper (s : string) : at_dollar (upper s) = at_dollar s.
Proof.
  destruct s as [|c [|d s]]; try reflexivity.
  cbn [upper at_dollar]. apply upper_char_facts.
Qed.

Lemma digits_dollar_upper (s : string) :
  digits_dollar (upper s) = option_map upper (digits_dollar s).
Proof.
  induction s as [|c s IH]; [reflexivity|].
  pose proof (at_dollar_upper (String c s)) as Hd.
  cbn [upper] in Hd. cbn [upper digits_dollar].
  destruct (upper_char_facts c) as (-> & _).
  rewrite IH, Hd.
  destruct (is_digit c); [destruct (digits_dollar s)|];
    cbn [option_map]; try reflexivity;
    destruct (at_dollar (String c s)); reflexivity.
Qed.

Lemma match_here_unfold (c k : ascii) (rest : string) :
  match_here (String c (String k rest))
  = if Ascii.eqb c "."%char then
      if is_kind_letter k then
        option_map (fun ds => String "."%char (String k ds)) (digits_dollar rest)
      else None
    else None.
Proof.
  destruct c as [[] [] [] [] [] [] [] []]; reflexivity.
Qed.

Lemma match_here_upper (s : string) :
  match_here (upper s) = option_map upper (match_here s).
Proof.
  destruct s as [|c [|k rest]].
  - reflexivity.
  - destruct c as [[] [] [] [] [] [] [] []]; reflexivity.
  - cbn [upper]. rewrite !match_here_unfold, digits_dollar_upper.
    destruct (upper_char_facts c) as (_ & _ & -> & _).
    destruct (upper_char_facts k) as (_ & -> & _).
    destruct (Ascii.eqb_spec c "."%char) as [->|_]; [|reflexivity].
    destruct (is_kind_letter k); [|reflexivity].
    destruct (digits_dollar rest); reflexivity.
Qed.

Lemma re_search_upper (s : string) :
  re_search (upper s) = option_map upper (re_search s).
Proof.
  induction s as [|c s IH]; [reflexivity|].
  pose proof (match_here_upper (String c s)) as Hm. cbn [upper] in Hm.
  cbn [upper re_search]. rewrite Hm.
  destruct (match_here (String c s)); [reflexivity|]. exact IH.
Qed.

(** The classifier does not see the case of the name: a name and the same
    name in upper case get the same result. *)
Theorem determine_table_ignores_case (table_name : string) :
  determine_table (upper table_name) = determine_table table_name.
Proof.
  unfold determine_table. rewrite re_search_upper.
  destruct (re_search table_name); cbn [option_map]; [|reflexivity].
  now rewrite upper_idempotent.
Qed.

Lemma dispatch_not_invalid (doplot name : string) :
  dispatch doplot name <> Ok InvalidTable.
Proof.
  assert (Hc : forall on_K, on_K <> InvalidTable ->
                 kind_chain name on_K <> Ok InvalidTable).
  { intros on_K Hon. unfold kind_chain, determine_table.
    destruct (re_search name) as [m|]; [|discriminate].
    unfold py_in, bind, py_eq_int.
    destruct (contains ".G" (upper m)); [discriminate|].
    destruct (contains ".B" (upper m)); [discriminate|].
    destruct (contains ".K" (upper m)); [congruence|discriminate]. }
  unfold dispatch.
  destruct (String.eqb doplot "ap"); [apply Hc; discriminate|].
  destruct (String.eqb doplot "ri"); [apply Hc; discriminate|discriminate].
Qed.

Lemma kind_chain_outcomes (name : string) (on_K : branch) :
  kind_chain name on_K = Raise TypeError \/
  kind_chain name on_K = Ok (Prep KindG) \/
  kind_chain name on_K = Ok (Prep KindB) \/
  kind_chain name on_K = Ok on_K.
Proof.
  destruct (re_search name) as [m|] eqn:Hs.
  - destruct (re_search_sound _ _ Hs) as (pre & k & ds & tail & Hf & Ht & _).
    assert (Hk : exists kd, kind_of_letter k = Some kd).
    { destruct Hf as (_ & Hk & _).
      destruct k as [[] [] [] [] [] [] [] []]; try discriminate Hk;
        eexists; reflexivity. }
    destruct Hk as (kd & Hkd).
    rewrite (kind_chain_match _ _ _ _ _ kd on_K Hf Ht Hkd).
    destruct kd; auto.
  - left. unfold kind_chain, determine_table. now rewrite Hs.
Qed.

(** In either mode the if/elif chain of the antenna loop takes exactly
    one course: the TypeError of a name without a kind suffix, or the arm
    of the kind found; it never runs past all its arms, so the plotting
    code below it never meets an unset [source]. *)
Theorem dispatch_takes_one_arm (name : string) :
  (dispatch "ap" name = Raise TypeError \/
   exists k, dispatch "ap" name = Ok (Prep k)) /\
  (dispatch "ri" name = Raise TypeError \/
   dispatch "ri" name = Ok (Prep KindG) \/
   dispatch "ri" name = Ok (Prep KindB) \/
   dispatch "ri" name = Ok NoComplex).
Proof.
  unfold dispatch. cbn [String.eqb Ascii.eqb Bool.eqb]. split.
  - destruct (kind_chain_outcomes name (Prep KindK)) as [H|[H|[H|H]]];
      rewrite H; eauto.
  - destruct (kind_chain_outcomes name NoComplex) as [H|[H|[H|H]]];
      rewrite H; auto.
Qed.

Lemma rstrip_slash_app (s : string) : rstrip_slash (s ++ "/") = rstrip_slash s.
Proof.
  induction s as [|c s IH]; [reflexivity|].
  cbn [append rstrip_slash]. now rewrite IH.
Qed.

(** Slashes at the end of the table argument make no difference to a
    run. *)
Theorem trailing_slash_ignored (o : options) (arg : string) (tab : table) :
  run_main o [arg ++ "/"] tab = run_main o [arg] tab.
Proof.
  unfold run_main, main_prefix. now rewrite rstrip_slash_app.
Qed.

End ClassifierCase.

(* ================================================================= *)
(** ** More on the antenna selection *)

Section SelectionMore.
Import PyStr Run Selection.
Local Open Scope list_scope.

Lemma Forall2_at (A B : Type) (P : A -> B -> Prop) (l : list A) (vs : list B) :
  Forall2 P l vs ->
  forall j e, nth_error l j = Some e ->
    exists v, nth_error vs j = Some v /\ P e v.
Proof.
  induction 1 as [|x y l vs Hxy _ IH]; intros j e Hj.
  - destruct j; discriminate Hj.
  - destruct j as [|j]; cbn in Hj.
    + inversion Hj; subst. exists y. now split.
    + apply IH. exact Hj.
Qed.

(** From an index on which only antennas of the table follow, the loop
    changes nothing and prints nothing. *)
Lemma filter_loop_clean (ants : list Z) (n : nat) :
  forall l i tr,
    (forall j s, i <= j -> nth_error l j = Some s ->
                 exists v, py_int s = Ok v /\ mem v ants = true) ->
    filter_loop n ants l i tr = (tr, inl l).
Proof.
  induction n as [|n IH]; intros l i tr Hv; [reflexivity|].
  cbn [filter_loop]. destruct (nth_error l i) as [ant|] eqn:Hi; [|reflexivity].
  destruct (Hv i ant (le_n i) Hi) as (v & Hp & Hm).
  unfold seq_prog, lift. rewrite Hp. unfold ret at 1. cbv beta iota.
  rewrite Hm. apply IH. intros j s Hj. apply Hv. lia.
Qed.

Lemma to_int_array_valid (ants : list Z) (l : list string) (vs : list Z) :
  Forall2 (fun s v => py_int s = Ok v /\ mem v ants = true) l vs ->
  to_int_array l = Ok vs.
Proof.
  induction 1 as [|s v l vs [Hp _] _ IH]; [reflexivity|].
  cbn [to_int_array]. unfold bind. now rewrite Hp, IH.
Qed.

Lemma split_comma_nonempty (s : string) : split_comma s <> [].
Proof.
  destruct s as [|c s]; [discriminate|]. cbn [split_comma].
  destruct (Ascii.eqb c ","%char); [discriminate|].
  destruct (split_comma s); discriminate.
Qed.

Lemma select_antennas_unfold (ants : list Z) (s : string) (tr : list event) :
  s <> EmptyString ->
  select_antennas ants (Some s) tr
  = (l' <~ filter_loop (List.length (split_comma s)) ants (split_comma s) 0 ;
     if (List.length l' =? 0)%nat then
       emit (EPrint "No valid antennas have been requested") ;;
       sys_exit (Some (-1)%Z)
     else lift (to_int_array l')) tr.
Proof. destruct s; [congruence|reflexivity]. Qed.

(** A list in which every entry names an antenna of the table is handed
    on as it was given: same order, repeats kept, nothing printed. *)
Theorem selection_all_valid (ants : list Z) (s : string) (vs : list Z)
    (tr : list event) :
  Forall2 (fun e v => py_int e = Ok v /\ mem v ants = true) (split_comma s) vs ->
  select_antennas ants (Some s) tr = (tr, inl vs).
Proof.
  intro Hv.
  assert (Hs : s <> EmptyString).
  { intros ->. inversion Hv as [|e v l l' [Hp _] _]; subst. discriminate Hp. }
  rewrite (select_antennas_unfold _ _ _ Hs). unfold seq_prog.
  rewrite filter_loop_clean.
  - destruct (split_comma s) as [|e l] eqn:El; [now destruct (split_comma_nonempty s)|].
    cbn [List.length Nat.eqb]. unfold lift.
    now rewrite (to_int_array_valid ants _ _ Hv).
  - intros j e _ Hj.
    destruct (Forall2_at _ _ _ _ _ Hv _ _ Hj) as (v & _ & Hp & Hm). eauto.
Qed.

Lemma selection_all_valid_witness :
  select_antennas [0; 1; 2; 3]%Z (Some "3,1,1"%string) [] = ([], inl [3; 1; 1]%Z).
Proof.
  apply (selection_all_valid [0; 1; 2; 3]%Z "3,1,1" [3; 1; 1]%Z []).
  repeat constructor.
Defined.

Lemma remove_first_middle (bad : string) (pre post : list string) :
  ~ In bad pre -> remove_first bad (pre ++ bad :: post) = pre ++ post.
Proof.
  induction pre as [|x pre IH]; intro Hn; cbn [app remove_first].
  - now rewrite String.eqb_refl.
  - destruct (String.eqb_spec bad x) as [->|_].
    + exfalso. apply Hn. now left.
    + rewrite IH; [reflexivity|]. intro H. apply Hn. now right.
Qed.

(** The loop up to and past a single entry that is not in the table. *)
Lemma filter_loop_one_invalid (ants : list Z) (bad : string) (v : Z)
    (l2 : list string) :
  py_int bad = Ok v -> mem v ants = false ->
  Forall (fun s => exists w, py_int s = Ok w /\ mem w ants = true) l2 ->
  forall l1 pre n tr,
    Forall (fun s => exists w, py_int s = Ok w /\ mem w ants = true) (pre ++ l1) ->
    List.length l1 < n ->
    filter_loop n ants (pre ++ l1 ++ bad :: l2) (List.length pre) tr
    = (tr ++ [EPrint ("Requested antenna ID " ++ bad ++ " not found")%string],
       inl (pre ++ l1 ++ l2)).
Proof.
  intros Hp Hm H2. induction l1 as [|x l1 IH]; intros pre n tr H1 Hn.
  - destruct n as [|n]; [cbn in Hn; lia|]. cbn [app filter_loop].
    rewrite nth_error_app2 by lia. rewrite Nat.sub_diag. cbn [nth_error].
    unfold seq_prog, lift. rewrite Hp. unfold ret at 1. cbv beta iota.
    rewrite Hm. unfold emit. cbv beta iota.
    rewrite app_nil_r in H1.
    rewrite remove_first_middle.
    + apply filter_loop_clean. intros j s Hj Hs.
      rewrite nth_error_app2 in Hs by lia.
      apply nth_error_In in Hs. rewrite Forall_forall in H2. now apply H2.
    + intro Hin. rewrite Forall_forall in H1.
      destruct (H1 bad Hin) as (w & Hw & Hmw). rewrite Hp in Hw.
      inversion Hw; subst w. rewrite Hm in Hmw. discriminate Hmw.
  - destruct n as [|n]; [cbn in Hn; lia|]. cbn [filter_loop].
    cbn [app]. rewrite nth_error_app2 by lia. rewrite Nat.sub_diag. cbn [nth_error].
    assert (Hx : exists w, py_int x = Ok w /\ mem w ants = true).
    { rewrite Forall_forall in H1. apply H1. apply in_or_app. right. now left. }
    destruct Hx as (w & Hw & Hmw).
    unfold seq_prog, lift. rewrite Hw. unfold ret at 1. cbv beta iota. rewrite Hmw.
    specialize (IH (pre ++ [x]) n tr).
    rewrite length_app in IH. cbn [List.length] in IH.
    rewrite Nat.add_1_r in IH. rewrite <- !app_assoc in IH. cbn [app] in IH.
    apply IH; [exact H1|cbn in Hn; lia].
Qed.

(** A list with a single entry that is not an antenna of the table (and
    at least one that is) loses exactly that entry, and the entry is
    reported once. *)
Theorem selection_one_invalid (ants : list Z) (s : string)
    (l1 l2 : list string) (bad : string) (v : Z) (vs : list Z)
    (tr : list event) :
  split_comma s = l1 ++ bad :: l2 ->
  py_int bad = Ok v -> mem v ants = false ->
  Forall2 (fun e w => py_int e = Ok w /\ mem w ants = true) (l1 ++ l2) vs ->
  vs <> [] ->
  select_antennas ants (Some s) tr
  = (tr ++ [EPrint ("Requested antenna ID " ++ bad ++ " not found")%string],
     inl vs).
Proof.
  intros Hs Hp Hm Hv Hne.
  assert (Hs0 : s <> EmptyString).
  { intros ->. cbn in Hs. destruct l1 as [|x [|y l1]]; cbn in Hs; try discriminate Hs.
    inversion Hs; subst. discriminate Hp. }
  assert (Hall : Forall (fun e => exists w, py_int e = Ok w /\ mem w ants = true)
                        (l1 ++ l2)).
  { apply Forall_forall. intros e He.
    destruct (In_nth_error _ _ He) as (j & Hj).
    destruct (Forall2_at _ _ _ _ _ Hv _ _ Hj) as (w & _ & H). eauto. }
  rewrite (select_antennas_unfold _ _ _ Hs0). unfold seq_prog. rewrite Hs.
  rewrite (filter_loop_one_invalid ants bad v l2 Hp Hm
             (proj2 (proj1 (Forall_app _ _ _) Hall)) l1 [] _ tr
             (proj1 (proj1 (Forall_app _ _ _) Hall))).
  - cbn [app].
    assert (Hlen : List.length (l1 ++ l2) <> 0).
    { apply Forall2_length in Hv. rewrite Hv. destruct vs; [congruence|discriminate]. }
    destruct (Nat.eqb_spec (List.length (l1 ++ l2)) 0) as [E|_]; [contradiction|].
    unfold lift. now rewrite (to_int_array_valid ants _ _ Hv).
  - rewrite length_app. cbn. lia.
Qed.

Lemma selection_one_invalid_witness :
  select_antennas [0; 1; 2; 3]%Z (Some "3,7,1"%string) []
  = ([EPrint "Requested antenna ID 7 not found"], inl [3; 1]%Z).
Proof.
  apply (selection_one_invalid [0; 1; 2; 3]%Z "3,7,1" ["3"%string] ["1"%string]
           "7" 7%Z [3; 1]%Z [] eq_refl eq_refl eq_refl).
  - repeat constructor.
  - discriminate.
Defined.

End SelectionMore.

(* ================================================================= *)
(** ** How runs end *)

Section MainEndings.
Import PyStr Classifier Run Selection Main.
Local Open Scope list_scope.

Lemma emit_all_run (es tr : list event) : emit_all es tr = (tr ++ es, inl tt).
Proof.
  revert tr. induction es as [|e es IH]; intro tr; cbn [emit_all].
  - unfold ret. now rewrite app_nil_r.
  - unfold seq_prog, emit. rewrite IH, <- app_assoc. reflexivity.
Qed.

(** The events of the first antenna's turn up to the data preparation. *)
Lemma first_antenna_outcomes (o : options) (mytab : string) (tab : table)
    (ant : Z) (tr : list event) :
  let reads := [EQuery ant (field o); ESubGetcol "TIME"; ESubGetcol "FLAG";
                ESubGetcol "PARAMERR"] in
  first_antenna o mytab tab ant tr
  = match query tab ant (field o) with
    | [] => (tr ++ [EQuery ant (field o); ESubGetcol "TIME"],
             inr (Uncaught IndexError))
    | _ :: _ =>
        match dispatch (doplot o) mytab with
        | Ok (Prep k) => (tr ++ reads ++ prep_reads (doplot o) k, inl k)
        | Ok NoComplex => (tr ++ no_complex_turn ant (field o), inr (Exited None))
        | Ok InvalidTable =>
            (tr ++ reads ++ [EPrint "Invalid table"], inr (Exited (Some (-1)%Z)))
        | Ok NoBranch => (tr ++ reads, inr (Uncaught UnboundLocalError))
        | Raise e => (tr ++ reads, inr (Uncaught e))
        end
    end.
Proof.
  cbv zeta.
  unfold first_antenna, seq_prog, emit, lift, stop, sys_exit, ret, no_complex_turn.
  destruct (query tab ant (field o)) as [|r0 rs].
  - now rewrite <- app_assoc.
  - destruct (dispatch (doplot o) mytab) as [[k| | |]|e];
      rewrite ?emit_all_run, <- ?app_assoc; reflexivity.
Qed.

Lemma no_complex_only_ri (doplot mytab : string) :
  dispatch doplot mytab = Ok NoComplex -> doplot = "ri"%string.
Proof.
  unfold dispatch. destruct (String.eqb doplot "ap").
  - intro H. destruct (kind_chain_outcomes mytab (Prep KindK)) as [E|[E|[E|E]]];
      rewrite E in H; discriminate H.
  - destruct (String.eqb_spec doplot "ri"); [auto|discriminate].
Qed.

Lemma prep_delay_only_ap (doplot mytab : string) :
  dispatch doplot mytab = Ok (Prep KindK) -> doplot = "ap"%string.
Proof.
  unfold dispatch. destruct (String.eqb_spec doplot "ap"); [auto|].
  destruct (String.eqb doplot "ri"); [|discriminate].
  intro H. destruct (kind_chain_outcomes mytab NoComplex) as [E|[E|[E|E]]];
    rewrite E in H; discriminate H.
Qed.

(** Every run that calls [sys.exit] with an argument passes -1 and has
    issued no table query and written no artifact by then; a run that
    calls [sys.exit()] without an argument is in mode [ri] and does so in
    the first antenna's turn, right after that antenna's query and
    "No complex values to plot"; and a run that reaches the call of a
    data preparation has, after a stretch without queries, issued the
    first antenna's query, its TIME, FLAG and PARAMERR reads and then the
    reads of its arm: CPARAM for a gain table (and TIME again in mode
    [ri]), CPARAM for a bandpass table, ANTENNA1 and FPARAM for a delay
    table, which is prepared in mode [ap] only. *)
Theorem how_runs_end (o : options) (args : list string) (tab : table) :
  let tr := fst (run_main o args tab) in
  match snd (run_main o args tab) with
  | inr (Exited (Some c)) => c = (-1)%Z /\ quiet tr = true
  | inr (Exited None) =>
      doplot o = "ri"%string /\
      exists ant tr0, quiet tr0 = true /\ tr = tr0 ++ no_complex_turn ant (field o)
  | inr (Uncaught _) => True
  | inl None => False
  | inl (Some k) =>
      exists arg ant tr0,
        args = [arg] /\
        dispatch (doplot o) (rstrip_slash arg) = Ok (Prep k) /\
        quiet tr0 = true /\
        tr = tr0 ++ [EQuery ant (field o); ESubGetcol "TIME"; ESubGetcol "FLAG";
                     ESubGetcol "PARAMERR"]
                 ++ match k with
                    | KindG =>
                        if String.eqb (doplot o) "ap" then [ESubGetcol "CPARAM"]
                        else [ESubGetcol "CPARAM"; ESubGetcol "TIME"]
                    | KindB => [ESubGetcol "CPARAM"]
                    | KindK => [ESubGetcol "ANTENNA1"; ESubGetcol "FPARAM"]
                    end /\
        (k = KindK -> doplot o = "ap"%string)
  end.
Proof.
  cbv zeta.
  destruct args as [|arg [|arg2 args]]; [split; reflexivity| |split; reflexivity].
  destruct (String.eqb (doplot o) "ap" || String.eqb (doplot o) "ri")%bool eqn:Hmode.
  - rewrite run_main_unfold by exact Hmode. cbv zeta.
    set (mytab := rstrip_slash arg).
    pose proof (opening_quiet o mytab) as Hq1.
    pose proof (antenna_names_quiet o) as Hq3.
    destruct (mem (field o) (unique (map FIELD_ID tab))) eqn:Hfield; cbn [negb].
    + destruct (select_antennas_shape (unique (map ANTENNA1 tab)) (plotants o)
                  (opening o mytab)) as (out & r & E1 & _ & Hq2 & Hr).
      rewrite E1.
      assert (Hq12 : quiet (opening o mytab ++ out) = true)
        by (now rewrite quiet_app, Hq1, Hq2).
      destruct r as [sel|e].
      * destruct sel as [|ant rest].
        -- cbn [fst snd]. destruct Hr as [[_ Hants]|Hne]; [|now apply Hne].
           apply mem_nonempty in Hfield.
           symmetry in Hants. revert Hants. apply unique_nonempty.
           destruct tab; [now contradiction Hfield|discriminate].
        -- assert (Hq : quiet ((opening o mytab ++ out) ++ antenna_names o) = true)
             by (now rewrite quiet_app, Hq12, Hq3).
           pose proof (first_antenna_outcomes o mytab tab ant
                         ((opening o mytab ++ out) ++ antenna_names o)) as F.
           cbv zeta in F. rewrite F. clear F.
           destruct (query tab ant (field o)) as [|r0 rs]; [exact I|].
           destruct (dispatch (doplot o) mytab) as [[k| | |]|e] eqn:Hd; cbn [fst snd].
           ++ exists arg, ant, ((opening o mytab ++ out) ++ antenna_names o).
              split; [reflexivity|]. split; [exact Hd|]. split; [exact Hq|].
              split; [now destruct k|].
              intros ->. exact (prep_delay_only_ap _ _ Hd).
           ++ split; [now apply (no_complex_only_ri _ mytab)|].
              exists ant, ((opening o mytab ++ out) ++ antenna_names o). auto.
           ++ now destruct (dispatch_not_invalid (doplot o) mytab).
           ++ exact I.
           ++ exact I.
      * cbn [fst snd]. destruct e as [a|e]; [|exact I]. subst a.
        split; [reflexivity|exact Hq12].
    + cbn [fst snd]. split; [reflexivity|]. now rewrite quiet_app, Hq1.
  - unfold run_main, main_prefix. rewrite Hmode. cbn [negb].
    unfold seq_prog, emit, sys_exit, stop, ret.
    destruct (String.eqb (pngname o) ""); cbn [fst snd]; split; reflexivity.
Qed.

End MainEndings.

(* ================================================================= *)
(** ** What the antenna controls do to the glyphs *)

Section WidgetsGlyphs.
Import Plot Legend Widgets.
Local Open Scope list_scope.

Lemma update_app_at (A : Type) (f : A -> A) (pre : list A) (x : A) (post : list A) :
  update (pre ++ x :: post) (List.length pre) f = pre ++ f x :: post.
Proof. induction pre as [|y pre IH]; cbn; [reflexivity|]. now rewrite IH. Qed.

Lemma set_all_from (v : bool) (post pre : list (glyph * glyph)) :
  fold_left (fun st i => update (update st i (set_p1 v)) i (set_p2 v))
            (seq (List.length pre) (List.length post)) (pre ++ post)
  = pre ++ map (fun _ => (mkGlyph v, mkGlyph v)) post.
Proof.
  revert pre. induction post as [|x post IH]; intro pre; [reflexivity|].
  cbn [List.length seq fold_left map].
  rewrite !update_app_at.
  specialize (IH (pre ++ [set_p2 v (set_p1 v x)])).
  rewrite length_app in IH. cbn [List.length] in IH. rewrite Nat.add_1_r in IH.
  rewrite <- !app_assoc in IH. cbn [app] in IH. exact IH.
Qed.

Lemma set_all_eq (v : bool) (st : list (glyph * glyph)) :
  set_all v st = map (fun _ => (mkGlyph v, mkGlyph v)) st.
Proof. exact (set_all_from v st []). Qed.

(** A click on the select-all toggle, for any number of antennas: the
    toggle flips, every data glyph on both panels takes the toggle's new
    state, and the check-box list becomes [0, 1, 2, 3] or empty. *)
Theorem select_all_sets_every_glyph (u : ui) :
  let u' := step u ClickSelectAll in
  antsel_active u' = negb (antsel_active u) /\
  store u' = map (fun _ => (mkGlyph (antsel_active u'), mkGlyph (antsel_active u')))
                 (store u) /\
  batchsel_active u' = (if antsel_active u' then [0; 1; 2; 3] else []) /\
  antsel_label u'
  = (if antsel_active u' then "Deselect all Antennas" else "Select all Antennas")%string.
Proof.
  cbv zeta. unfold step, ant_select_callback.
  cbn [antsel_active store batchsel_active antsel_label].
  destruct (antsel_active u); cbn [negb antsel_active store batchsel_active antsel_label];
    rewrite set_all_eq; repeat split.
Qed.

Lemma nth_error_update (A : Type) (f : A -> A) (l : list A) (i j : nat) :
  nth_error (update l i f) j
  = if (i =? j)%nat then option_map f (nth_error l j) else nth_error l j.
Proof.
  revert i j. induction l as [|x l IH]; intros i j.
  - cbn. destruct j; now destruct (i =? _)%nat.
  - destruct i as [|i], j as [|j]; cbn; try reflexivity. apply IH.
Qed.

(** A block that runs to its end over positions whose ranks are
    [base + i] sets exactly those ranks. *)
Lemma block_loop_sets (batches : list (list nat)) (k base : nat) (v : bool)
    (todo : list nat) :
  (forall i, In i todo -> at_batch batches k i = Some (base + i)) ->
  forall st st',
    block_loop batches k v todo st = Done st' ->
    forall j,
      nth_error st' j
      = if existsb (fun i => (base + i =? j)%nat) todo
        then option_map (fun _ => (mkGlyph v, mkGlyph v)) (nth_error st j)
        else nth_error st j.
Proof.
  induction todo as [|i todo IH]; intros Hall st st' Hrun j.
  - cbn in Hrun. inversion Hrun; subst. reflexivity.
  - cbn [block_loop] in Hrun. rewrite (Hall i (or_introl eq_refl)) in Hrun.
    rewrite (IH (fun i' Hi' => Hall i' (or_intror Hi')) _ _ Hrun j).
    rewrite !nth_error_update. cbn [existsb].
    destruct (base + i =? j)%nat; cbn [orb];
      destruct (existsb _ todo); destruct (nth_error st j); reflexivity.
Qed.

Lemma ranks_of_batch (k j : nat) :
  existsb (fun i => (16 * k + i =? j)%nat) (seq 0 16) = (j / 16 =? k)%nat.
Proof.
  destruct (Nat.eqb_spec (j / 16) k) as [E|N].
  - apply existsb_exists. exists (j mod 16). split.
    + apply in_seq. pose proof (Nat.mod_upper_bound j 16). lia.
    + apply Nat.eqb_eq. pose proof (Nat.div_mod_eq j 16). lia.
  - apply not_true_is_false. intro H. apply existsb_exists in H as (i & Hi & E).
    apply in_seq in Hi. apply Nat.eqb_eq in E. apply N. subst j.
    rewrite Nat.mul_comm, Nat.div_add_l by lia.
    rewrite Nat.div_small by lia. lia.
Qed.

Lemma batches_64_ranks :
  forall k i, k < 4 -> In i (seq 0 16) ->
    at_batch (make_batches 64 (seq 0 64)) k i = Some (16 * k + i).
Proof.
  assert (H : forallb (fun k => forallb (fun i =>
                match at_batch (make_batches 64 (seq 0 64)) k i with
                | Some r => (r =? 16 * k + i)%nat
                | None => false
                end) (seq 0 16)) (seq 0 4) = true) by (vm_compute; reflexivity).
  intros k i Hk Hi. rewrite forallb_forall in H.
  assert (Hk' : In k (seq 0 4)) by (apply in_seq; lia).
  specialize (H k Hk'). rewrite forallb_forall in H. specialize (H i Hi).
  destruct (at_batch _ k i) as [r|]; [|discriminate H].
  apply Nat.eqb_eq in H. now subst.
Qed.

Lemma block_64_sets (active : list nat) (k : nat) (st st' : list (glyph * glyph)) :
  k < 4 ->
  block (make_batches 64 (seq 0 64)) active k st = Done st' ->
  forall j,
    nth_error st' j
    = if (j / 16 =? k)%nat
      then option_map (fun _ => (mkGlyph (mem k active), mkGlyph (mem k active)))
                      (nth_error st j)
      else nth_error st j.
Proof.
  intros Hk Hrun j. unfold block in Hrun.
  rewrite first_batch_64, length_seq in Hrun. rewrite <- ranks_of_batch.
  destruct (mem k active);
    apply (block_loop_sets _ k (16 * k) _ (seq 0 16)
             (fun i Hi => batches_64_ranks k i Hk Hi) st st' Hrun j).
Qed.

(** With 64 antennas, a click on an existing check box leaves every
    antenna's data glyphs, on both panels, visible exactly when the box
    of its batch (rank div 16) is ticked after the click. *)
Theorem box_click_sets_batches (u : ui) (b : nat) :
  List.length (store u) = 64 -> b < 4 ->
  let u' := step u (ClickBox b) in
  batchsel_active u' = tick 4 (batchsel_active u) b /\
  forall j, j < 64 ->
    nth_error (store u') j
    = Some (mkGlyph (mem (j / 16) (batchsel_active u')),
            mkGlyph (mem (j / 16) (batchsel_active u'))).
Proof.
  intros H Hb. cbv zeta. unfold step. rewrite (nboxes_64 u H).
  replace (b <? 4)%nat with true by (symmetry; now apply Nat.ltb_lt).
  set (a' := tick 4 (batchsel_active u) b).
  unfold batch_select_callback, bax. cbn [store batchsel_active antsel_active antsel_label].
  rewrite H.
  destruct (block_64 a' 0 (store u)) as (s0 & E0 & L0); [lia|].
  destruct (block_64 a' 1 s0) as (s1 & E1 & L1); [lia|].
  destruct (block_64 a' 2 s1) as (s2 & E2 & L2); [lia|].
  destruct (block_64 a' 3 s2) as (s3 & E3 & L3); [lia|].
  rewrite E0. unfold then_block. rewrite E1, E2, E3.
  assert (Hstore : forall j, j < 64 ->
            nth_error s3 j = Some (mkGlyph (mem (j / 16) a'), mkGlyph (mem (j / 16) a'))).
  { intros j Hj.
    rewrite (block_64_sets a' 3 s2 s3 ltac:(lia) E3 j).
    rewrite (block_64_sets a' 2 s1 s2 ltac:(lia) E2 j).
    rewrite (block_64_sets a' 1 s0 s1 ltac:(lia) E1 j).
    rewrite (block_64_sets a' 0 (store u) s0 ltac:(lia) E0 j).
    destruct (nth_error (store u) j) as [g|] eqn:Hg;
      [|apply nth_error_None in Hg; lia].
    assert (Hq : j / 16 < 4) by (apply Nat.Div0.div_lt_upper_bound; lia).
    destruct (j / 16) as [|[|[|[|q]]]]; [reflexivity..|lia]. }
  destruct (List.length a' =? 4)%nat; [|destruct (List.length a' =? 0)%nat];
    cbn [state_of store batchsel_active]; split; auto.
Qed.

Lemma box_click_sets_batches_witness :
  let u := initial (render (fun _ => tt) (map Z.of_nat (seq 0 64))) in
  nth_error (store (step u (ClickBox 2))) 40
  = Some (mkGlyph (mem (40 / 16) (batchsel_active (step u (ClickBox 2)))),
          mkGlyph (mem (40 / 16) (batchsel_active (step u (ClickBox 2))))).
Proof.
  intro u.
  apply (proj2 (box_click_sets_batches u 2 eq_refl ltac:(lia)) 40). lia.
Defined.

End WidgetsGlyphs.

(* ================================================================= *)
(** ** The error-bar toggle, the legend selector and the export *)

Section ControlsSpec.
Import Plot Widgets Controls.
Local Open Scope list_scope.

Lemma error_loop_rendered (v : bool) (todo : list entry) :
  Forall (fun e => exists g, p1_err e = Some g) todo ->
  forall done,
    error_loop v todo done
    = Done (done ++ map (fun e => mkEntry (ant_id e) (p1 e) (Some (mkGlyph v)) (p2 e)
                                   (match p2_err e with
                                    | Some _ => Some (mkGlyph v)
                                    | None => None
                                    end)) todo).
Proof.
  induction 1 as [|e todo [g Hg] _ IH]; intro done; cbn [error_loop map].
  - now rewrite app_nil_r.
  - unfold show_error. rewrite Hg. rewrite IH, <- app_assoc. reflexivity.
Qed.

Lemma rendered_entry (E : Type) (y1_err : Z -> E) (plotants : list Z) (e : entry) :
  In e (render y1_err plotants) ->
  p1_err e = Some (mkGlyph false) /\ p2_err e = None.
Proof.
  unfold render. intro H. apply in_map_iff in H as (ant & <- & _).
  unfold plot_antenna. cbn. now destruct (ant >? 0)%Z.
Qed.

(** The error-bar toggle acts on the upper panel's error bars only: after
    it has run on the glyphs of the antenna loop, every upper-panel error
    bar has the toggle's state, every data glyph is as it was, and the
    lower panel still has no error bar at all. *)
Theorem error_toggle_effect (E : Type) (y1_err : Z -> E) (plotants : list Z)
    (active : bool) :
  let es := render y1_err plotants in
  exists es',
    toggle_err_callback active es
    = ((if active then "Hide All Error bars" else "Show All Error bars")%string,
       Done es') /\
    map ant_id es' = plotants /\
    map p1 es' = map p1 es /\ map p2 es' = map p2 es /\
    Forall (fun e => p1_err e = Some (mkGlyph active) /\ p2_err e = None) es'.
Proof.
  intro es.
  assert (Hr : Forall (fun e => exists g, p1_err e = Some g) es).
  { apply Forall_forall. intros e He.
    destruct (rendered_entry E y1_err plotants e He) as [-> _]. eauto. }
  eexists. split.
  - unfold toggle_err_callback.
    destruct active; cbn [negb]; rewrite (error_loop_rendered _ _ Hr); reflexivity.
  - cbn [app]. rewrite !map_map. cbn [ant_id p1 p2]. repeat split.
    + unfold es, render. rewrite map_map. rewrite <- (map_id plotants) at 2.
      apply map_ext. intro a. unfold plot_antenna. cbn. now destruct (a >? 0)%Z.
    + apply Forall_forall. intros e He. apply in_map_iff in He as (e0 & <- & He0).
      destruct (rendered_entry E y1_err plotants e0 He0) as [_ H2].
      cbn [p1_err p2_err]. rewrite H2. destruct active; now split.
Qed.

Lemma map_const (A B : Type) (c : B) (l : list A) :
  map (fun _ => c) l = repeat c (List.length l).
Proof. induction l as [|x l IH]; cbn; [reflexivity|]. now rewrite IH. Qed.

(** The legend selector overwrites: whatever the legends showed before,
    after the callback every batch shows the data legends of both panels
    exactly for "alo" and "all" and the error legends exactly for "elo"
    and "all"; any other value hides all four.  In particular the
    callback for "alo" gives back the legends as they were created. *)
Theorem legend_toggle_effect (value : string) (rows : list legend_row) (n : nat) :
  legend_toggle_callback value rows
  = repeat (legend_table value) (List.length rows) /\
  legend_toggle_callback "alo" (initial_legends n) = initial_legends n.
Proof.
  assert (G : forall v r, legend_toggle_callback v r
                          = repeat (legend_table v) (List.length r)).
  { intros v r. unfold legend_toggle_callback, legend_table.
    rewrite <- map_const.
    destruct (String.eqb_spec v "alo") as [->|Ha];
      [cbn [String.eqb Ascii.eqb Bool.eqb]; rewrite !map_map; reflexivity|].
    destruct (String.eqb_spec v "elo") as [->|He];
      [cbn [String.eqb Ascii.eqb Bool.eqb]; rewrite !map_map; reflexivity|].
    destruct (String.eqb_spec v "all") as [->|Hl];
      [cbn [String.eqb Ascii.eqb Bool.eqb]; rewrite !map_map; reflexivity|].
    destruct (String.eqb_spec v "non") as [->|Hn]; rewrite !map_map; reflexivity. }
  split; [apply G|].
  rewrite G. unfold initial_legends. now rewrite repeat_length.
Qed.

(** The static export shows every selected antenna: after lines 914-917
    every data glyph of the antenna loop is visible on both panels,
    whatever its antenna ID, and every error bar is still hidden. *)
Theorem export_shows_every_antenna (E : Type) (y1_err : Z -> E)
    (plotants : list Z) :
  let es := before_export (render y1_err plotants) in
  map ant_id es = plotants /\
  Forall (fun e => visible (p1 e) = true /\ visible (p2 e) = true /\
                   p1_err e = Some (mkGlyph false) /\ p2_err e = None) es.
Proof.
  cbv zeta. unfold before_export. split.
  - rewrite map_map. cbn [ant_id]. unfold render. rewrite map_map.
    rewrite <- (map_id plotants) at 2.
    apply map_ext. intro a. unfold plot_antenna. cbn. now destruct (a >? 0)%Z.
  - apply Forall_forall. intros e He. apply in_map_iff in He as (e0 & <- & He0).
    destruct (rendered_entry E y1_err plotants e0 He0) as [H1 H2].
    cbn [p1 p2 p1_err p2_err visible]. auto.
Qed.

End ControlsSpec.

(* ================================================================= *)
(** ** Colours, error bars and image names *)

Section ColorsSpec.
Import Colors.
Local Open Scope list_scope.
Local Open Scope R_scope.

Lemma Int_part_between (r : R) (z : Z) :
  IZR z <= r < IZR z + 1 -> Int_part r = z.
Proof. intro H. symmetry. apply Int_part_spec. lra. Qed.

Lemma Int_part_le (x y : R) : x <= y -> (Int_part x <= Int_part y)%Z.
Proof.
  intro H. destruct (base_Int_part x) as [X1 _]. destruct (base_Int_part y) as [_ Y2].
  assert (L : (Int_part x < Int_part y + 1)%Z).
  { apply lt_IZR. rewrite plus_IZR. lra. }
  lia.
Qed.

(** The grid rounding has both properties asked of a float rounding. *)
Lemma to_grid_rounding : float_rounding (to_grid 8).
Proof.
  split.
  - intros x y H. unfold to_grid.
    apply Rmult_le_compat_r; [lra|].
    apply IZR_le, Int_part_le. lra.
  - intros n _. unfold to_grid.
    rewrite (Int_part_between _ (n * 8)%Z).
    + rewrite mult_IZR. field.
    + rewrite mult_IZR. lra.
Qed.

Lemma trunc_nonneg (x : R) :
  0 <= x -> (0 <= trunc x)%Z /\ IZR (trunc x) <= x < IZR (trunc x) + 1.
Proof.
  intro H. unfold trunc. destruct (Rle_dec 0 x) as [_|N]; [|lra].
  destruct (base_Int_part x) as [B1 B2].
  split; [|lra].
  assert (L : (-1 < Int_part x)%Z) by (apply lt_IZR; lra). lia.
Qed.

Lemma rounded_unit (fl : R -> R) (c : R) :
  float_rounding fl -> 0 <= c <= 1 -> 0 <= fl (c * 255) <= 255.
Proof.
  intros [Hm Hw] [H0 H1].
  pose proof (Hw 0%Z ltac:(lia)) as W0.
  pose proof (Hw 255%Z ltac:(lia)) as W255.
  pose proof (Hm 0 (c * 255) ltac:(lra)) as L.
  pose proof (Hm (c * 255) 255 ltac:(lra)) as U.
  lra.
Qed.

(** A colour with its first three components between 0 and 1 becomes
    three integers between 0 and 255: each is the whole part of the
    float64 product of its component and 255, so 0 gives 0, 1 gives 255
    and a larger component never gives a smaller integer; the fourth
    component is dropped. *)
Theorem color_denormalize_rgb (fl : R -> R) (r g b a : R) :
  float_rounding fl ->
  0 <= r <= 1 -> 0 <= g <= 1 -> 0 <= b <= 1 ->
  exists cr cg cb,
    color_denormalize fl [r; g; b; a] = [cr; cg; cb] /\
    (0 <= cr <= 255)%Z /\ (0 <= cg <= 255)%Z /\ (0 <= cb <= 255)%Z /\
    IZR cr <= fl (r * 255) < IZR cr + 1 /\
    IZR cg <= fl (g * 255) < IZR cg + 1 /\
    IZR cb <= fl (b * 255) < IZR cb + 1 /\
    (r = 0 -> cr = 0%Z) /\ (r = 1 -> cr = 255%Z) /\
    (r <= g -> (cr <= cg)%Z).
Proof.
  intros Hfl Hr Hg Hb.
  pose proof (rounded_unit fl r Hfl Hr) as Ur.
  pose proof (rounded_unit fl g Hfl Hg) as Ug.
  pose proof (rounded_unit fl b Hfl Hb) as Ub.
  destruct (trunc_nonneg (fl (r * 255)) (proj1 Ur)) as (R1 & R2).
  destruct (trunc_nonneg (fl (g * 255)) (proj1 Ug)) as (G1 & G2).
  destruct (trunc_nonneg (fl (b * 255)) (proj1 Ub)) as (B1 & B2).
  exists (trunc (fl (r * 255))), (trunc (fl (g * 255))), (trunc (fl (b * 255))).
  set (cr := trunc (fl (r * 255))) in *.
  set (cg := trunc (fl (g * 255))) in *.
  set (cb := trunc (fl (b * 255))) in *.
  assert (Tr : (cr < 256)%Z) by (apply lt_IZR; lra).
  assert (Tg : (cg < 256)%Z) by (apply lt_IZR; lra).
  assert (Tb : (cb < 256)%Z) by (apply lt_IZR; lra).
  destruct Hfl as [Hm Hw].
  split; [reflexivity|].
  split; [lia|]. split; [lia|]. split; [lia|].
  split; [exact R2|]. split; [exact G2|]. split; [exact B2|].
  split; [|split].
  - intros ->. pose proof (Hw 0%Z ltac:(lia)) as W.
    replace (0 * 255) with 0 in R2 by lra. rewrite W in R2.
    assert ((cr < 1)%Z) by (apply lt_IZR; lra). lia.
  - intros ->. pose proof (Hw 255%Z ltac:(lia)) as W.
    replace (1 * 255) with 255 in R2 by lra. rewrite W in R2.
    assert ((254 < cr)%Z) by (apply lt_IZR; lra). lia.
  - intro Hrg. pose proof (Hm (r * 255) (g * 255) ltac:(lra)) as M.
    assert ((cr < cg + 1)%Z) by (apply lt_IZR; rewrite plus_IZR; lra). lia.
Qed.

(** On the grid of eighths the product 0.0039 * 255 = 0.9945 rounds to
    1 before its fraction is cut: the component comes out as 1, not 0. *)
Lemma color_denormalize_rgb_witness :
  0.0039 * 255 < 1 /\
  color_denormalize (to_grid 8) [0.0039; 0; 1; 0.5] = [1; 0; 255]%Z.
Proof.
  split; [lra|].
  destruct (color_denormalize_rgb (to_grid 8) 0.0039 0 1 0.5 to_grid_rounding
              ltac:(lra) ltac:(lra) ltac:(lra))
    as (cr & cg & cb & E & _ & _ & _ & Hr & Hg & Hb & _).
  rewrite E. clear E.
  assert (F1 : to_grid 8 (0.0039 * 255) = 1).
  { unfold to_grid. rewrite (Int_part_between _ 8); lra. }
  assert (F0 : to_grid 8 (0 * 255) = 0).
  { unfold to_grid. rewrite (Int_part_between _ 0); lra. }
  assert (F255 : to_grid 8 (1 * 255) = 255).
  { unfold to_grid. rewrite (Int_part_between _ 2040); lra. }
  rewrite F1 in Hr. rewrite F0 in Hg. rewrite F255 in Hb.
  assert (Er : cr = 1%Z).
  { assert ((cr <= 1)%Z) by (apply le_IZR; lra).
    assert ((0 < cr)%Z) by (apply lt_IZR; lra). lia. }
  assert (Eg : cg = 0%Z).
  { assert ((cg <= 0)%Z) by (apply le_IZR; lra).
    assert ((-1 < cg)%Z) by (apply lt_IZR; lra). lia. }
  assert (Eb : cb = 255%Z).
  { assert ((cb <= 255)%Z) by (apply le_IZR; lra).
    assert ((254 < cb)%Z) by (apply lt_IZR; lra). lia. }
  now rewrite Er, Eg, Eb.
Defined.

End ColorsSpec.

Section ErrorBarsSpec.
Import ErrorBars.
Local Open Scope list_scope.
Local Open Scope R_scope.

Lemma zip3_length (x y err : list R) :
  List.length (zip3 x y err)
  = Nat.min (List.length x) (Nat.min (List.length y) (List.length err)).
Proof.
  revert y err. induction x as [|px x IH]; intros y err; [reflexivity|].
  destruct y as [|py y]; [reflexivity|]. destruct err as [|e err]; [reflexivity|].
  cbn [zip3 List.length Nat.min]. now rewrite IH.
Qed.

Lemma zip3_nth (x y err : list R) :
  forall i px py e,
    nth_error x i = Some px -> nth_error y i = Some py ->
    nth_error err i = Some e ->
    nth_error (zip3 x y err) i = Some (px, py, e).
Proof.
  revert y err. induction x as [|qx x IH]; intros y err i px py e Hx Hy He.
  - destruct i; discriminate Hx.
  - destruct y as [|qy y]; [destruct i; discriminate Hy|].
    destruct err as [|qe err]; [destruct i; discriminate He|].
    destruct i as [|i]; cbn in *.
    + now inversion Hx; inversion Hy; inversion He; subst.
    + now apply IH.
Qed.

(** Without error series nothing is drawn and None is returned.  With a
    y error series one hidden renderer is drawn and returned: it has one
    segment for each position that the x, y and error series all have,
    and the segment at such a position is vertical, at the point's x,
    from y - err to y + err. *)
Theorem errorbar_segments (x y yerr : list R) :
  errorbar x y None None = ([], None) /\
  exists bar,
    errorbar x y None (Some yerr) = ([bar], Some bar) /\
    line_visible bar = false /\
    List.length (seg_xs bar)
    = Nat.min (List.length x) (Nat.min (List.length y) (List.length yerr)) /\
    List.length (seg_ys bar) = List.length (seg_xs bar) /\
    forall i px py e,
      nth_error x i = Some px -> nth_error y i = Some py ->
      nth_error yerr i = Some e ->
      nth_error (seg_xs bar) i = Some (px, px) /\
      nth_error (seg_ys bar) i = Some (py - e, py + e).
Proof.
  split; [reflexivity|]. exists (y_bar x y yerr).
  split; [reflexivity|]. split; [reflexivity|]. unfold y_bar. cbn [seg_xs seg_ys].
  rewrite !length_map, zip3_length. repeat split.
  - rewrite nth_error_map, (zip3_nth x y yerr i px py e) by assumption. reflexivity.
  - rewrite nth_error_map, (zip3_nth x y yerr i px py e) by assumption. reflexivity.
Qed.

End ErrorBarsSpec.

Section SvgExportSpec.
Import Run SvgExport.
Local Open Scope list_scope.

(** A format string without braces has no replacement field: it is
    returned as it is, whatever the arguments. *)
Lemma py_format_brace_free (fmt : string) (args : list string) :
  brace_free fmt = true -> py_format fmt args = Ok fmt.
Proof.
  induction fmt as [|c fmt IH]; [reflexivity|]. cbn [brace_free].
  intro H. apply andb_true_iff in H as [Hc Hf]. specialize (IH Hf).
  destruct c as [[] [] [] [] [] [] [] []]; try discriminate Hc;
    cbn [py_format]; rewrite IH; reflexivity.
Qed.

(** Whatever image name is asked for, both panels are exported under one
    and the same file name, the literal text of the format string: it
    has no replacement field, so [format] leaves the name out. *)
Theorem save_svg_image_one_name (img_name : string) (tr : list event) :
  save_svg_image img_name tr
  = (tr ++ [EExportSvgs "%s_%s"; EExportSvgs "%s_%s"], inl tt).
Proof.
  unfold save_svg_image, seq_prog, lift.
  rewrite !py_format_brace_free by reflexivity.
  unfold ret, emit. cbv beta iota. now rewrite <- app_assoc.
Qed.

End SvgExportSpec.

(* ================================================================= *)
(** ** Ranks, default order and the other correlation *)

Section MoreSpec.
Import Numpy Transform Legend Run Selection Main.
Local Open Scope list_scope.

(** Every handle sits in exactly the batch its rank selects: the handle
    at rank [r] is at position [r mod 16] of batch [r / 16]. *)
Theorem batch_of_rank (A : Type) (items : list A) (r : nat) (x : A) :
  nth_error items r = Some x ->
  let batches := make_batches (List.length items) items in
  r / 16 < List.length batches /\
  nth_error (nth (r / 16) batches []) (r mod 16) = Some x.
Proof.
  intros Hx batches. subst batches. rewrite make_batches_eq.
  assert (Hr : r < List.length items) by (apply nth_error_Some; congruence).
  pose proof (num_legend_objs_ceil (List.length items)) as [Hc _].
  change BATCH_SIZE with 16 in *.
  assert (Hq : r / 16 < num_legend_objs (List.length items)).
  { apply Nat.Div0.div_lt_upper_bound. lia. }
  rewrite length_map, length_seq. split; [exact Hq|].
  set (f := fun i => slice items (i * 16) (i * 16 + 16)).
  rewrite (nth_indep _ [] (f 0)) by (now rewrite length_map, length_seq).
  rewrite map_nth, seq_nth by exact Hq. cbn [Nat.add]. subst f. cbv beta.
  unfold slice. replace (r / 16 * 16 + 16 - r / 16 * 16) with 16 by lia.
  pose proof (Nat.mod_upper_bound r 16 ltac:(lia)) as Hm.
  rewrite nth_error_firstn.
  replace (r mod 16 <? 16)%nat with true by (symmetry; now apply Nat.ltb_lt).
  rewrite nth_error_skipn.
  replace (r / 16 * 16 + r mod 16) with r; [exact Hx|].
  pose proof (Nat.div_mod_eq r 16). lia.
Qed.

Lemma batch_of_rank_witness :
  nth_error (nth (18 / 16) (make_batches 20 (seq 0 20)) []) (18 mod 16) = Some 18.
Proof.
  apply (proj2 (batch_of_rank nat (seq 0 20) 18 18 eq_refl)).
Defined.

Lemma insert_unique_in (z x : Z) (l : list Z) :
  In x (insert_unique z l) <-> x = z \/ In x l.
Proof.
  induction l as [|y l IH]; cbn [insert_unique].
  - cbn. intuition.
  - destruct (Z.ltb_spec z y) as [Hlt|Hge].
    + cbn. intuition.
    + destruct (Z.eqb_spec z y) as [->|Hne].
      * cbn. intuition.
      * cbn [In]. rewrite IH. intuition.
Qed.

Lemma insert_unique_sorted (z : Z) (l : list Z) :
  StronglySorted Z.lt l -> StronglySorted Z.lt (insert_unique z l).
Proof.
  induction 1 as [|y l Hs IH Hall]; cbn [insert_unique].
  - repeat constructor.
  - destruct (Z.ltb_spec z y) as [Hlt|Hge].
    + constructor; [now constructor|].
      constructor; [exact Hlt|].
      rewrite Forall_forall in *. intros x Hx. specialize (Hall x Hx). lia.
    + destruct (Z.eqb_spec z y) as [->|Hne].
      * now constructor.
      * constructor; [exact IH|].
        apply Forall_forall. intros x Hx. apply insert_unique_in in Hx as [->|Hx].
        -- lia.
        -- rewrite Forall_forall in Hall. now apply Hall.
Qed.

(** Without the [-a] option the antennas are taken in strictly ascending
    ID order, each antenna of the table once, and nothing is printed. *)
Theorem default_selection_ascending (tab : table) (tr : list event) :
  let ants := unique (map ANTENNA1 tab) in
  select_antennas ants None tr = (tr, inl ants) /\
  StronglySorted Z.lt ants /\
  (forall a, In a ants <-> exists r, In r tab /\ ANTENNA1 r = a).
Proof.
  cbv zeta. split; [reflexivity|].
  assert (G : forall l, StronglySorted Z.lt (unique l) /\
                        forall a, In a (unique l) <-> In a l).
  { induction l as [|z l [IH1 IH2]]; cbn [unique fold_right].
    - split; [constructor|reflexivity].
    - split; [now apply insert_unique_sorted|].
      intro a. fold (unique l). rewrite insert_unique_in, IH2. cbn. intuition. }
  destruct (G (map ANTENNA1 tab)) as [G1 G2]. split; [exact G1|].
  intro a. rewrite G2, in_map_iff. split; intros (r & H1 & H2); eauto.
Qed.

(** For the delay-type transform any correlation index other than 0
    makes [y2] the series of correlation 0: the "other" correlation is
    only the complement when the index is 0 or 1. *)
Theorem data_prep_K_second_series (T : Type) (masked_data masked_data_err : masked3 T)
    (corr : Z) :
  corr <> 0%Z -> in_bounds masked_data corr = true ->
  data_prep_K masked_data masked_data_err corr
  = Ok (Plain (values_at masked_data (position corr (dim2 masked_data))),
        Whole masked_data_err,
        Plain (values_at masked_data 0),
        Some (Whole masked_data_err)).
Proof.
  intros Hc Hb. unfold data_prep_K.
  assert (Hn : int_not corr = 0%Z).
  { unfold int_not. destruct (Z.eqb_spec corr 0); [contradiction|reflexivity]. }
  rewrite Hn, !index_col_total, Hb.
  assert (H0 : in_bounds masked_data 0 = true).
  { unfold in_bounds in *. apply andb_true_iff in Hb as [H1 H2].
    apply andb_true_iff in H2 as [H2 H3].
    apply Z.leb_le in H2. apply Z.ltb_lt in H3. rewrite H1. cbn [andb].
    apply andb_true_iff. split; [apply Z.leb_le|apply Z.ltb_lt]; lia. }
  rewrite H0. unfold bind, asarray. cbn [data1].
  assert (Hp : position 0 (dim2 masked_data) = 0).
  { unfold position. now rewrite Zmod_0_l. }
  now rewrite Hp.
Qed.

Lemma data_prep_K_second_series_witness :
  let md := mkMasked3 2 1 2 (fun i _ k => Z.of_nat (10 * i + k)) (fun _ _ _ => false) in
  data_prep_K md md (-1)
  = Ok (Plain [1; 11]%Z, Whole md, Plain [0; 10]%Z, Some (Whole md)).
Proof.
  intro md.
  apply (data_prep_K_second_series Z md md (-1)); [discriminate|reflexivity].
Defined.

End MoreSpec.
